(** * static/app.js: the browser-side controller of the NMR scraper page

    A shallow embedding of [src/static/app.js].  The script posts text to two
    JSON endpoints, renders the returned tables into the page and wires three
    buttons plus one "Copy JSON" button per rendered table.

    - JavaScript strings are sequences of UTF-16 code units ([jsstring]).
    - JSON data is the inductive [jsval]; an object keeps its properties in
      enumeration order, which is what [JSON.stringify] prints.
    - The DOM is a store of elements addressed by reference ([heap]); the
      closures of the script capture references, never copies.
    - The [value] of a form field is what reading it gives; a textarea
      normalises the newlines of what it is assigned.  Markup assigned
      through [innerHTML] is kept as the string: the HTML parser is not part
      of the model.
    - An [async] handler is cut at every [await]: the part before it runs
      in the event that starts it, the rest is a pending [task] that a later
      event of the environment (a settled fetch, a fired timer) resumes. *)

From Stdlib Require Import String Ascii NArith ZArith Lia List Bool DecimalString.
From stdpp Require Import base list.
Import ListNotations.

Local Open Scope N_scope.
Set Warnings "-register-all".

(** ** Strings *)

Module Js.

Definition jsstring := list N.

(** An ASCII literal of the source, as code units. *)
Definition lit (s : string) : jsstring :=
  map N_of_ascii (list_ascii_of_string s).

Fixpoint jseqb (a b : jsstring) : bool :=
  match a, b with
  | [], [] => true
  | x :: a', y :: b' => (x =? y) && jseqb a' b'
  | _, _ => false
  end.

Definition is_empty (s : jsstring) : bool :=
  match s with [] => true | _ => false end.

(** ECMAScript WhiteSpace and LineTerminator code points, the set that
    [String.prototype.trim] strips. *)
Definition is_ws (c : N) : bool :=
  (c =? 9) || (c =? 10) || (c =? 11) || (c =? 12) || (c =? 13) || (c =? 32)
  || (c =? 160) || (c =? 5760) || ((8192 <=? c) && (c <=? 8202))
  || (c =? 8232) || (c =? 8233) || (c =? 8239) || (c =? 8287)
  || (c =? 12288) || (c =? 65279).

Fixpoint trimStart (s : jsstring) : jsstring :=
  match s with
  | c :: s' => if is_ws c then trimStart s' else s
  | [] => []
  end.

Definition trimEnd (s : jsstring) : jsstring := rev (trimStart (rev s)).

Definition trim (s : jsstring) : jsstring := trimEnd (trimStart s).

(** Number::toString for the integers of the model (see [safe]). *)
Definition dec (n : N) : jsstring :=
  lit (NilEmpty.string_of_uint (N.to_uint n)).

Definition dec_Z (z : Z) : jsstring :=
  match z with
  | Zneg p => lit "-" ++ dec (Npos p)
  | _ => dec (Z.to_N z)
  end.

Fixpoint join (sep : jsstring) (parts : list jsstring) : jsstring :=
  match parts with
  | [] => []
  | [p] => p
  | p :: rest => p ++ sep ++ join sep rest
  end.



(** "Normalize newlines" of the HTML standard: every CR LF pair becomes one
    LF, then every CR left becomes LF. *)
Fixpoint normalize_newlines (s : jsstring) : jsstring :=
  match s with
  | [] => []
  | c :: s' =>
      if c =? 13 then
        10 :: match s' with
              | d :: s'' => if d =? 10 then normalize_newlines s''
                            else normalize_newlines s'
              | [] => []
              end
      else c :: normalize_newlines s'
  end.

(** No code unit of [s] is a carriage return. *)
Definition no_cr (s : jsstring) : bool := forallb (fun c => negb (c =? 13)) s.

End Js.
Export Js.

(** ** JSON values *)

(** What [res.json()] can deliver, plus [undefined] for a property that is
    not there.  [VNum z] stands for the integer [z] where a double holds it
    exactly and prints it digit by digit, that is for [z] below 2^53 in
    size ([safe], below); other numbers (fractions, larger magnitudes, which
    print with an exponent) have no counterpart here, and statements about
    the text of a number are made for safe values only.  [VObj] lists the own
    properties in enumeration order. *)
Inductive jsval :=
  | VUndefined
  | VNull
  | VBool (b : bool)
  | VNum (z : Z)
  | VStr (s : jsstring)
  | VArr (items : list jsval)
  | VObj (fields : list (jsstring * jsval)).

(** Engine-raised TypeErrors, by cause; their wording is the engine's. *)
Inductive type_error :=
  | ReadOfNullish (prop : string)
  | NotAFunction (method : string)
  | NotPrimitive.

Inductive js_error :=
  | JsError (message : jsstring)
  | EngineTypeError (cause : type_error).

Inductive result (A : Type) :=
  | Ok (a : A)
  | Throw (e : js_error).
Arguments Ok {A} a.
Arguments Throw {A} e.

Module Value.

Fixpoint lookup_field (k : jsstring) (fs : list (jsstring * jsval)) : jsval :=
  match fs with
  | [] => VUndefined
  | (k', v) :: fs' => if jseqb k k' then v else lookup_field k fs'
  end.

Definition has_field (k : jsstring) (fs : list (jsstring * jsval)) : bool :=
  existsb (fun kv => jseqb k (fst kv)) fs.

(** Every number in [v] is an integer below 2^53 in size, which is where
    [VNum] and its decimal text agree with the engine's numbers. *)
Fixpoint safe (v : jsval) : bool :=
  match v with
  | VNum z => (Z.abs z <? 2 ^ 53)%Z
  | VArr l => forallb safe l
  | VObj fs => forallb (fun kv => safe (snd kv)) fs
  | _ => true
  end.

(** ToBoolean. *)
Definition truthy (v : jsval) : bool :=
  match v with
  | VUndefined | VNull => false
  | VBool b => b
  | VNum z => negb (z =? 0)%Z
  | VStr s => negb (is_empty s)
  | VArr _ | VObj _ => true
  end.

(** [a || b]. *)
Definition or_else (a b : jsval) : jsval := if truthy a then a else b.

(** [v.k] for a property name [k] that is not an array index.  Strings and
    arrays answer [length]; every other name used by the script (title,
    headers, rows, condensed, tables) is found on plain objects only. *)
Definition get (v : jsval) (k : string) : result jsval :=
  match v with
  | VUndefined | VNull => Throw (EngineTypeError (ReadOfNullish k))
  | VObj fs => Ok (lookup_field (lit k) fs)
  | VArr l => Ok (if String.eqb k "length" then VNum (Z.of_nat (length l)) else VUndefined)
  | VStr s => Ok (if String.eqb k "length" then VNum (Z.of_nat (length s)) else VUndefined)
  | VBool _ | VNum _ => Ok VUndefined
  end.

(** [a === 0]. *)
Definition is_zero (v : jsval) : bool :=
  match v with VNum 0%Z => true | _ => false end.

(** The receiver of [.forEach(...)]: only arrays have that method; JSON data
    holds no functions, so a property of that name on an object is not
    callable either. *)
Definition as_array (v : jsval) : result (list jsval) :=
  match v with
  | VArr l => Ok l
  | VUndefined | VNull => Throw (EngineTypeError (ReadOfNullish "forEach"))
  | _ => Throw (EngineTypeError (NotAFunction "forEach"))
  end.

(** [v.trim()]. *)
Definition call_trim (v : jsval) : result jsstring :=
  match v with
  | VStr s => Ok (trim s)
  | VUndefined | VNull => Throw (EngineTypeError (ReadOfNullish "trim"))
  | _ => Throw (EngineTypeError (NotAFunction "trim"))
  end.

(** The items of an array as [Array.prototype.join] prints them: null and
    undefined as nothing, the others through [str]. *)
Definition join_items (str : jsval -> result jsstring) : list jsval -> result (list jsstring) :=
  fix items (l : list jsval) : result (list jsstring) :=
    match l with
    | [] => Ok []
    | x :: l' =>
        match (match x with VUndefined | VNull => Ok [] | _ => str x end) with
        | Throw e => Throw e
        | Ok s => match items l' with
                  | Throw e => Throw e
                  | Ok ss => Ok (s :: ss)
                  end
        end
    end.

(** ToString.  An array joins its items with a comma; a plain object prints
    through Object.prototype.toString unless an own (non-callable)
    [toString] shadows it, in which case the conversion throws. *)
Fixpoint to_string (v : jsval) : result jsstring :=
  match v with
  | VUndefined => Ok (lit "undefined")
  | VNull => Ok (lit "null")
  | VBool true => Ok (lit "true")
  | VBool false => Ok (lit "false")
  | VNum z => Ok (dec_Z z)
  | VStr s => Ok s
  | VArr l =>
      match join_items to_string l with
      | Ok ss => Ok (join (lit ",") ss)
      | Throw e => Throw e
      end
  | VObj fs =>
      if has_field (lit "toString") fs
      then Throw (EngineTypeError NotPrimitive)
      else Ok (lit "[object Object]")
  end.

End Value.
Export Value.

(** ** JSON.stringify *)

Module Json.

Definition hex_digit (n : N) : N := if n <? 10 then 48 + n else 87 + n.

(** [\uXXXX] with lowercase hexadecimal digits. *)
Definition unicode_escape (c : N) : jsstring :=
  lit "\u" ++ [hex_digit (c / 4096 mod 16); hex_digit (c / 256 mod 16);
               hex_digit (c / 16 mod 16); hex_digit (c mod 16)].

Definition is_high_surrogate (c : N) : bool := (55296 <=? c) && (c <=? 56319).
Definition is_low_surrogate (c : N) : bool := (56320 <=? c) && (c <=? 57343).

(** One code unit that is not part of a surrogate pair, as QuoteJSONString
    writes it. *)
Definition quote_unit (c : N) : jsstring :=
  if c =? 8 then lit "\b"
  else if c =? 9 then lit "\t"
  else if c =? 10 then lit "\n"
  else if c =? 12 then lit "\f"
  else if c =? 13 then lit "\r"
  else if c =? 34 then [92; 34]
  else if c =? 92 then [92; 92]
  else if (c <? 32) || is_high_surrogate c || is_low_surrogate c
       then unicode_escape c
  else [c].

Fixpoint quote_body (s : jsstring) : jsstring :=
  match s with
  | [] => []
  | c :: rest =>
      if is_high_surrogate c then
        match rest with
        | d :: rest' =>
            if is_low_surrogate d then c :: d :: quote_body rest'
            else quote_unit c ++ quote_body rest
        | [] => quote_unit c
        end
      else quote_unit c ++ quote_body rest
  end.

(** QuoteJSONString. *)
Definition quote (s : jsstring) : jsstring := [34] ++ quote_body s ++ [34].

Definition newline : jsstring := [10].

(** The brackets around the serialized members of an array or object
    (SerializeJSONArray / SerializeJSONObject, last steps). *)
Definition wrap (opening closing gap stepback indent : jsstring)
    (partial : list jsstring) : jsstring :=
  match partial with
  | [] => opening ++ closing
  | _ =>
      if is_empty gap
      then opening ++ join (lit ",") partial ++ closing
      else opening ++ newline ++ indent
             ++ join (lit "," ++ newline ++ indent) partial
             ++ newline ++ stepback ++ closing
  end.

(** SerializeJSONProperty: [None] is the undefined result. *)
Fixpoint serialize (gap indent : jsstring) (v : jsval) : option jsstring :=
  match v with
  | VUndefined => None
  | VNull => Some (lit "null")
  | VBool true => Some (lit "true")
  | VBool false => Some (lit "false")
  | VNum z => Some (dec_Z z)
  | VStr s => Some (quote s)
  | VArr l =>
      let inner := indent ++ gap in
      Some (wrap (lit "[") (lit "]") gap indent inner
              (map (fun x => match serialize gap inner x with
                             | Some s => s
                             | None => lit "null"
                             end) l))
  | VObj fs =>
      let inner := indent ++ gap in
      Some (wrap (lit "{") (lit "}") gap indent inner
              (flat_map (fun kv =>
                           match serialize gap inner (snd kv) with
                           | Some s =>
                               [quote (fst kv) ++ lit ":"
                                  ++ (if is_empty gap then [] else lit " ") ++ s]
                           | None => []
                           end) fs))
  end.

(** [JSON.stringify(v)]. *)
Definition stringify (v : jsval) : option jsstring := serialize [] [] v.

(** [JSON.stringify(v, null, n)]: the gap is [min n 10] spaces. *)
Definition stringify_indent (n : nat) (v : jsval) : option jsstring :=
  serialize (repeat 32 (Nat.min n 10)) [] v.

End Json.
Export Json.


(** ** The DOM store *)

Abbreviation ref := nat.

(** The four listeners of the script.  The per-table listener is a closure
    over the two elements it was created with. *)
Inductive handler :=
  | OnProcessArticle
  | OnCopyArticle
  | OnParseTables
  | OnCopyJson (jsonOut copyJsonBtn : ref).

(** A child is a text node, a child element, or what the browser's HTML
    parser makes of a string assigned through [innerHTML].  The parser is
    not part of the model: [CMarkup s] stands for the nodes it builds from
    [s], whatever they are, and is never read as text. *)
Inductive child :=
  | CText (s : jsstring)
  | CMarkup (html : jsstring)
  | CNode (r : ref).

Record element := Element {
  tagName : string;
  elem_id : string;
  className : string;
  children : list child;
  value : jsstring;
  rows : N;
  readOnly : bool;
  disabled : bool;
  listeners : list handler
}.

Abbreviation heap := (list element).

Module Dom.

Definition blank (tag : string) : element :=
  Element tag "" "" [] [] 2 false false [].

Definition with_className (c : string) (e : element) : element :=
  Element (tagName e) (elem_id e) c (children e) (value e) (rows e)
          (readOnly e) (disabled e) (listeners e).

Definition with_children (cs : list child) (e : element) : element :=
  Element (tagName e) (elem_id e) (className e) cs (value e) (rows e)
          (readOnly e) (disabled e) (listeners e).

(** The field [value] is what [e.value] reads.  A textarea hands back its
    API value, the text it was given with newlines normalised, so that is
    what an assignment leaves in the field.  An element of another kind is
    taken to keep the text as assigned; an input, which sanitises what it is
    given according to its type, is not modelled, and the statements about
    what a field reads after an assignment are made for textareas. *)
Definition set_value (v : jsstring) (e : element) : element :=
  Element (tagName e) (elem_id e) (className e) (children e) v (rows e)
          (readOnly e) (disabled e) (listeners e).

Definition is_textarea (e : element) : bool := String.eqb (tagName e) "textarea".

(** [e.value = v]. *)
Definition with_value (v : jsstring) (e : element) : element :=
  set_value (if is_textarea e then normalize_newlines v else v) e.

Definition with_rows (n : N) (e : element) : element :=
  Element (tagName e) (elem_id e) (className e) (children e) (value e) n
          (readOnly e) (disabled e) (listeners e).

Definition with_readOnly (b : bool) (e : element) : element :=
  Element (tagName e) (elem_id e) (className e) (children e) (value e) (rows e)
          b (disabled e) (listeners e).

Definition with_disabled (b : bool) (e : element) : element :=
  Element (tagName e) (elem_id e) (className e) (children e) (value e) (rows e)
          (readOnly e) b (listeners e).

Definition with_listener (f : handler) (e : element) : element :=
  Element (tagName e) (elem_id e) (className e) (children e) (value e) (rows e)
          (readOnly e) (disabled e) (listeners e ++ [f]).

(** [e.textContent = s]: every child is replaced by one text node, or by
    nothing when [s] is empty. *)
Definition with_textContent (s : jsstring) (e : element) : element :=
  with_children (if is_empty s then [] else [CText s]) e.

(** [e.innerHTML = s]: the children are replaced by what the parser makes
    of [s], which is nothing for the empty string.  The string is markup:
    text interpolated into it without escaping is parsed with it. *)
Definition with_innerHTML (s : jsstring) (e : element) : element :=
  with_children (if is_empty s then [] else [CMarkup s]) e.

(** [e.appendChild(c)] for a [c] that has no parent yet, which is how the
    script always calls it. *)
Definition with_child (c : ref) (e : element) : element :=
  with_children (children e ++ [CNode c]) e.

(** [document.getElementById]: the first element carrying the id. *)
Fixpoint find_id (i : string) (h : heap) : option ref :=
  match h with
  | [] => None
  | e :: h' => if String.eqb (elem_id e) i then Some 0%nat
               else option_map S (find_id i h')
  end.

(** Computations that allocate and mutate elements and may throw; what was
    done before a throw stays done. *)
Definition dom (A : Type) : Type := heap -> heap * result A.

Definition ret {A} (a : A) : dom A := fun h => (h, Ok a).

Definition bind {A B} (m : dom A) (k : A -> dom B) : dom B :=
  fun h => match m h with
           | (h', Ok a) => k a h'
           | (h', Throw e) => (h', Throw e)
           end.

Definition lift {A} (r : result A) : dom A := fun h => (h, r).

Definition createElement (tag : string) : dom ref :=
  fun h => (h ++ [blank tag], Ok (length h)).

Definition update (r : ref) (f : element -> element) : dom unit :=
  fun h => (alter f r h, Ok tt).

Definition getElementById (i : string) : dom (option ref) :=
  fun h => (h, Ok (find_id i h)).

(** A property access or assignment on the result of [getElementById],
    which is null when the page has no such element. *)
Definition non_null (prop : string) (o : option ref) : result ref :=
  match o with
  | Some r => Ok r
  | None => Throw (EngineTypeError (ReadOfNullish prop))
  end.

End Dom.
Export Dom.

Declare Scope dom_scope.
Delimit Scope dom_scope with dom.
Notation "x <- m ;; k" := (bind m (fun x => k))
  (at level 100, m at next level, k at level 200, right associativity) : dom_scope.
Notation "m ;;; k" := (bind m (fun _ => k))
  (at level 100, k at level 200, right associativity) : dom_scope.

(** ** Rendering (lines 19-113) *)

Module Render.
Local Open Scope dom_scope.

(** [Array.prototype.forEach] with a callback that may throw. *)
Fixpoint forEach {A} (l : list A) (f : A -> dom unit) : dom unit :=
  match l with
  | [] => ret tt
  | x :: l' => f x ;;; forEach l' f
  end.

(** The string a [textContent] setter receives for a JSON value: the
    attribute is a nullable DOMString, so null and undefined clear it. *)
Definition text_of (v : jsval) : result jsstring :=
  match v with
  | VUndefined | VNull => Ok []
  | _ => to_string v
  end.

Definition renderReadonlyTable (table : jsval) : dom ref :=
  tbl <- createElement "table" ;;
  update tbl (with_className "editable-table") ;;;
  thead <- createElement "thead" ;;
  thr <- createElement "tr" ;;
  hs <- lift (get table "headers") ;;
  hs <- lift (as_array (or_else hs (VArr []))) ;;
  forEach hs (fun h =>
    th <- createElement "th" ;;
    s <- lift (text_of h) ;;
    update th (with_textContent s) ;;;
    update thr (with_child th)) ;;;
  update thead (with_child thr) ;;;
  tbody <- createElement "tbody" ;;
  rs <- lift (get table "rows") ;;
  rs <- lift (as_array (or_else rs (VArr []))) ;;
  forEach rs (fun row =>
    tr <- createElement "tr" ;;
    cells <- lift (as_array row) ;;
    forEach cells (fun cell =>
      td <- createElement "td" ;;
      s <- lift (text_of cell) ;;
      update td (with_textContent s) ;;;
      update tr (with_child td)) ;;;
    update tbody (with_child tr)) ;;;
  update tbl (with_child thead) ;;;
  update tbl (with_child tbody) ;;;
  ret tbl.

(** [(table.title || "").trim() || "(untitled)"]. *)
Definition title_text (table : jsval) : result jsstring :=
  match get table "title" with
  | Throw e => Throw e
  | Ok t =>
      match call_trim (or_else t (VStr [])) with
      | Throw e => Throw e
      | Ok s => Ok (if is_empty s then lit "(untitled)" else s)
      end
  end.

(** The string a textarea's [value] setter receives for the result of
    [JSON.stringify]. *)
Definition json_text (table : jsval) : jsstring :=
  match stringify_indent 2 table with
  | Some s => s
  | None => lit "undefined"
  end.

Definition renderTableBlock (container : ref) (table : jsval) : dom unit :=
  block <- createElement "div" ;;
  update block (with_className "table-block") ;;;
  titleWrap <- createElement "div" ;;
  update titleWrap (with_className "title-wrap") ;;;
  titleLabel <- createElement "div" ;;
  update titleLabel (with_className "label inline") ;;;
  update titleLabel (with_textContent (lit "Title")) ;;;
  titleValue <- createElement "div" ;;
  t <- lift (title_text table) ;;
  update titleValue (with_textContent t) ;;;
  update titleWrap (with_child titleLabel) ;;;
  update titleWrap (with_child titleValue) ;;;
  tableEl <- renderReadonlyTable table ;;
  jsonLabel <- createElement "label" ;;
  update jsonLabel (with_textContent (lit "Table JSON")) ;;;
  update jsonLabel (with_className "label") ;;;
  jsonOut <- createElement "textarea" ;;
  update jsonOut (with_className "textarea condensed-output") ;;;
  update jsonOut (with_rows 8) ;;;
  update jsonOut (with_readOnly true) ;;;
  update jsonOut (with_value (json_text table)) ;;;
  copyJsonBtn <- createElement "button" ;;
  update copyJsonBtn (with_className "btn secondary") ;;;
  update copyJsonBtn (with_textContent (lit "Copy JSON")) ;;;
  update copyJsonBtn (with_listener (OnCopyJson jsonOut copyJsonBtn)) ;;;
  jsonActions <- createElement "div" ;;
  update jsonActions (with_className "actions") ;;;
  update jsonActions (with_child copyJsonBtn) ;;;
  update block (with_child titleWrap) ;;;
  update block (with_child tableEl) ;;;
  update block (with_child jsonLabel) ;;;
  update block (with_child jsonOut) ;;;
  update block (with_child jsonActions) ;;;
  update container (with_child block).

(** [!tables || tables.length === 0]. *)
Definition no_tables (tables : jsval) : bool :=
  if truthy tables then
    match get tables "length" with
    | Ok n => is_zero n
    | Throw _ => false
    end
  else true.

Definition renderTables (tables : jsval) : dom unit :=
  mount <- getElementById "tables-output" ;;
  mount <- lift (non_null "innerHTML" mount) ;;
  update mount (with_innerHTML []) ;;;
  if no_tables tables then
    p <- createElement "p" ;;
    update p (with_className "hint") ;;;
    update p (with_textContent (lit "No tables found.")) ;;;
    update mount (with_child p)
  else
    ts <- lift (as_array tables) ;;
    forEach ts (fun t => renderTableBlock mount t).

End Render.
Export Render.

(** ** The page at run time *)

(** Who awaits [postJSON], with the elements the handler looked up before
    the call (lines 118-119 and 144). *)
Inductive requester :=
  | Condense (btn : ref) (outEl : option ref)
  | ParseTables (btn : ref).

(** A suspended [async] handler, by the [await] it is parked at. *)
Inductive task :=
  | AwaitFetch (who : requester)
  | AwaitText (who : requester) (status : N)
  | AwaitJson (who : requester)
  | AwaitClipboard (text : jsstring) (btn : option ref) (idle : jsstring).

(** How the environment settles the promise a task is parked at. *)
Inductive outcome :=
  | Response (status : N)
  | BodyText (text : jsstring)
  | BodyJson (v : jsval)
  | Written
  | Rejected (message : jsstring).

(** What reaches the page from outside: the user clicks an element, a
    promise settles, time passes. *)
Inductive event :=
  | Click (target : ref)
  | Settle (t : nat) (o : outcome)
  | Elapse (ms : N).

(** [setTimeout(() => (btn.textContent = label), delay)]. *)
Record timer := Timer { due : N; timer_btn : ref; timer_label : jsstring }.

(** A request as [fetch] sends it: always a POST of JSON text. *)
Record request := Request { url : string; body : jsstring }.

(** The page and what surrounds it: the DOM store, the suspended handlers
    by task number ([None] once finished), the pending timers in the order
    they were set, the time in ms, the system clipboard, the requests sent,
    the rejections nobody handled, and the engine's wording of its own
    TypeErrors. *)
Record world := World {
  page : heap;
  tasks : list (option task);
  timers : list timer;
  clock : N;
  clipboard : jsstring;
  sent : list request;
  unhandled : list js_error;
  wording : type_error -> jsstring
}.

Module Page.
Local Open Scope dom_scope.

Definition with_page (h : heap) (w : world) : world :=
  World h (tasks w) (timers w) (clock w) (clipboard w) (sent w) (unhandled w) (wording w).

Definition with_tasks (ts : list (option task)) (w : world) : world :=
  World (page w) ts (timers w) (clock w) (clipboard w) (sent w) (unhandled w) (wording w).

Definition with_timers (tm : list timer) (w : world) : world :=
  World (page w) (tasks w) tm (clock w) (clipboard w) (sent w) (unhandled w) (wording w).

Definition with_clock (c : N) (w : world) : world :=
  World (page w) (tasks w) (timers w) c (clipboard w) (sent w) (unhandled w) (wording w).

Definition with_clipboard (s : jsstring) (w : world) : world :=
  World (page w) (tasks w) (timers w) (clock w) s (sent w) (unhandled w) (wording w).

Definition with_sent (rs : list request) (w : world) : world :=
  World (page w) (tasks w) (timers w) (clock w) (clipboard w) rs (unhandled w) (wording w).

(** An [async] function that rejects with nobody awaiting it. *)
Definition reject (e : js_error) (w : world) : world :=
  World (page w) (tasks w) (timers w) (clock w) (clipboard w) (sent w)
        (unhandled w ++ [e]) (wording w).

(** [e.message]. *)
Definition message (w : world) (e : js_error) : jsstring :=
  match e with
  | JsError m => m
  | EngineTypeError c => wording w c
  end.

(** Runs a DOM computation on the page; a throw escapes as a rejection. *)
Definition run (m : dom unit) (w : world) : world :=
  match m (page w) with
  | (h, Ok _) => with_page h w
  | (h, Throw e) => reject e (with_page h w)
  end.

(** A handler reaches an [await]: it becomes the next task. *)
Definition park (t : task) (w : world) : world := with_tasks (tasks w ++ [Some t]) w.

(** [fetch(url, {method: "POST", headers: ..., body: JSON.stringify(payload)})]
    (lines 3-7): the request leaves and the caller parks on the promise. *)
Definition postJSON (u : string) (payload : jsval) (who : requester) (w : world) : world :=
  let b := match stringify payload with Some s => s | None => lit "undefined" end in
  park (AwaitFetch who) (with_sent (sent w ++ [Request u b]) w).

(** [res.ok]. *)
Definition ok (status : N) : bool := (200 <=? status) && (status <=? 299).

(** Line 10. *)
Definition request_failed (status : N) (text : jsstring) : js_error :=
  JsError (lit "Request failed: " ++ dec status ++ lit " " ++ text).

(** The string a form control's [value] setter receives. *)
Definition value_of (v : jsval) : result jsstring :=
  match v with
  | VNull => Ok []
  | _ => to_string v
  end.

(** Lines 116-121 and 123 up to the [await]. *)
Definition click_process_article (w : world) : world :=
  let h := page w in
  match non_null "value" (find_id "article-input" h) with
  | Throw e => reject e w
  | Ok i =>
      let input := match h !! i with Some e => value e | None => [] end in
      let outEl := find_id "article-output" h in
      match non_null "disabled" (find_id "process-article-btn" h) with
      | Throw e => reject e w
      | Ok btn =>
          let h := alter (with_disabled true) btn h in
          let h := alter (with_textContent (lit "Processing...")) btn h in
          postJSON "/api/condense" (VObj [(lit "text", VStr input)])
                   (Condense btn outEl) (with_page h w)
      end
  end.

(** Lines 142-146 and 148 up to the [await]. *)
Definition click_parse_tables (w : world) : world :=
  let h := page w in
  match non_null "value" (find_id "gpt-input" h) with
  | Throw e => reject e w
  | Ok i =>
      let md := match h !! i with Some e => value e | None => [] end in
      match non_null "disabled" (find_id "parse-tables-btn" h) with
      | Throw e => reject e w
      | Ok btn =>
          let h := alter (with_disabled true) btn h in
          let h := alter (with_textContent (lit "Parsing...")) btn h in
          postJSON "/api/parse_markdown_tables" (VObj [(lit "markdown", VStr md)])
                   (ParseTables btn) (with_page h w)
      end
  end.

(** [copyToClipboard(text)] followed by the [await] (lines 15-17, 83, 136). *)
Definition copyToClipboard (text : jsstring) (btn : option ref) (idle : jsstring)
    (w : world) : world :=
  park (AwaitClipboard text btn idle) w.

(** Lines 133-136. *)
Definition click_copy_article (w : world) : world :=
  let h := page w in
  match non_null "value" (find_id "article-output" h) with
  | Throw e => reject e w
  | Ok o =>
      let text := match h !! o with Some e => value e | None => [] end in
      let btn := find_id "copy-article-btn" h in
      copyToClipboard text btn (lit "Copy condensed") w
  end.

(** Line 83 up to the [await]. *)
Definition click_copy_json (jsonOut copyJsonBtn : ref) (w : world) : world :=
  let text := match page w !! jsonOut with Some e => value e | None => [] end in
  copyToClipboard text (Some copyJsonBtn) (lit "Copy JSON") w.

Definition run_handler (f : handler) (w : world) : world :=
  match f with
  | OnProcessArticle => click_process_article w
  | OnCopyArticle => click_copy_article w
  | OnParseTables => click_parse_tables w
  | OnCopyJson jsonOut copyJsonBtn => click_copy_json jsonOut copyJsonBtn w
  end.

(** [try { body } catch (e) { handler } finally { final }]. *)
Definition try_catch_finally (body : dom unit) (handler : js_error -> dom unit)
    (final : dom unit) : dom unit :=
  fun h =>
    match body h with
    | (h1, Ok _) => final h1
    | (h1, Throw e) =>
        match handler e h1 with
        | (h2, Ok _) => final h2
        | (h2, Throw e2) =>
            match final h2 with
            | (h3, Ok _) => (h3, Throw e2)
            | (h3, Throw e3) => (h3, Throw e3)
            end
        end
    end.

(** [<p class="error">Error: ${e.message}</p>] (line 152). *)
Definition error_markup (m : jsstring) : jsstring :=
  lit "<p class=" ++ [34] ++ lit "error" ++ [34] ++ lit ">Error: " ++ m ++ lit "</p>".

(** Lines 122-130, from the moment [postJSON] has settled with [r]. *)
Definition resume_process_article (btn : ref) (outEl : option ref)
    (r : result jsval) (w : world) : world :=
  run (try_catch_finally
         (v <- lift r ;;
          condensed <- lift (get v "condensed") ;;
          o <- lift (non_null "value" outEl) ;;
          s <- lift (value_of condensed) ;;
          update o (with_value s))
         (fun e =>
          o <- lift (non_null "value" outEl) ;;
          update o (with_value (lit "Error: " ++ message w e)))
         (update btn (with_disabled false) ;;;
          update btn (with_textContent (lit "Process")))) w.

(** Lines 147-156, from the moment [postJSON] has settled with [r]. *)
Definition resume_parse_tables (btn : ref) (r : result jsval) (w : world) : world :=
  run (try_catch_finally
         (v <- lift r ;;
          tables <- lift (get v "tables") ;;
          renderTables tables)
         (fun e =>
          mount <- getElementById "tables-output" ;;
          mount <- lift (non_null "innerHTML" mount) ;;
          update mount (with_innerHTML (error_markup (message w e))))
         (update btn (with_disabled false) ;;;
          update btn (with_textContent (lit "Parse tables")))) w.

Definition resume (who : requester) (r : result jsval) (w : world) : world :=
  match who with
  | Condense btn outEl => resume_process_article btn outEl r w
  | ParseTables btn => resume_parse_tables btn r w
  end.

(** Lines 84-85 and 137-138: what follows a clipboard write that succeeded. *)
Definition copied (btn : option ref) (idle : jsstring) (w : world) : world :=
  match non_null "textContent" btn with
  | Throw e => reject e w
  | Ok b =>
      with_timers (timers w ++ [Timer (clock w + 1200) b idle])
        (with_page (alter (with_textContent (lit "Copied!")) b (page w)) w)
  end.

(** Task [t] runs to its end, or moves on to its next [await]. *)
Definition finish (t : nat) (w : world) : world :=
  with_tasks (<[t := None]> (tasks w)) w.

Definition repark (t : nat) (k : task) (w : world) : world :=
  with_tasks (<[t := Some k]> (tasks w)) w.

(** How far [postJSON] gets when the promise it is parked at settles. *)
Inductive progress :=
  | Parked (k : task)
  | Settled (r : result jsval).

(** Lines 8-12 of [postJSON]: a response that is not ok is read as text and
    thrown with its status; an ok response is read as JSON, and that is what
    the caller's [await] receives.  A promise that rejects at any of the
    three awaits rejects [postJSON]. *)
Definition postJSON_resume (k : task) (o : outcome) : option (requester * progress) :=
  match k, o with
  | AwaitFetch who, Response status =>
      Some (who, Parked (if ok status then AwaitJson who else AwaitText who status))
  | AwaitText who status, BodyText text =>
      Some (who, Settled (Throw (request_failed status text)))
  | AwaitJson who, BodyJson v => Some (who, Settled (Ok v))
  | AwaitFetch who, Rejected m
  | AwaitText who _, Rejected m
  | AwaitJson who, Rejected m => Some (who, Settled (Throw (JsError m)))
  | _, _ => None
  end.

(** The promise task [t] is parked at settles.  A settlement that does not
    fit the task, or names no pending task, is not something the
    environment produces and changes nothing. *)
Definition settle (t : nat) (o : outcome) (w : world) : world :=
  match tasks w !! t with
  | Some (Some (AwaitClipboard text btn idle)) =>
      match o with
      | Written => copied btn idle (with_clipboard text (finish t w))
      | Rejected m => reject (JsError m) (finish t w)
      | _ => w
      end
  | Some (Some k) =>
      match postJSON_resume k o with
      | Some (who, Parked k') => repark t k' w
      | Some (who, Settled r) => resume who r (finish t w)
      | None => w
      end
  | _ => w
  end.

(** The callback of a timer (lines 85 and 138). *)
Definition fire (h : heap) (tm : timer) : heap :=
  alter (with_textContent (timer_label tm)) (timer_btn tm) h.

(** Time passes: the timers that have become due run, oldest first.  Every
    timer of the script has the same delay, so that is the order in which
    they fall due.  Browsers may run a timer later than its delay, never
    earlier; here it runs as soon as the delay has passed. *)
Definition elapse (ms : N) (w : world) : world :=
  let now := clock w + ms in
  let is_due tm := due tm <=? now in
  with_clock now
    (with_timers (List.filter (fun tm => negb (is_due tm)) (timers w))
       (with_page (fold_left fire (List.filter is_due (timers w)) (page w)) w)).

(** A click reaches the listeners of an element, in the order they were
    added, unless the element is disabled: a disabled button gets no click
    events. *)
Definition click (target : ref) (w : world) : world :=
  match page w !! target with
  | Some e => if disabled e then w
              else fold_left (fun w f => run_handler f w) (listeners e) w
  | None => w
  end.

Definition step (w : world) (ev : event) : world :=
  match ev with
  | Click target => click target w
  | Settle t o => settle t o w
  | Elapse ms => elapse ms w
  end.

Definition steps (w : world) (evs : list event) : world := fold_left step evs w.

(** The top level of the script (lines 116, 133, 142). *)
Definition main (w : world) : world :=
  run (b <- getElementById "process-article-btn" ;;
       b <- lift (non_null "addEventListener" b) ;;
       update b (with_listener OnProcessArticle) ;;;
       b <- getElementById "copy-article-btn" ;;
       b <- lift (non_null "addEventListener" b) ;;
       update b (with_listener OnCopyArticle) ;;;
       b <- getElementById "parse-tables-btn" ;;
       b <- lift (non_null "addEventListener" b) ;;
       update b (with_listener OnParseTables)) w.

End Page.
Export Page.

(** ** Observations used by the statements *)

Module Observe.

(** The table of the specification's rendering example. *)
Definition table_T : jsval :=
  VObj [(lit "title", VStr (lit "T"));
        (lit "headers", VArr [VStr (lit "a"); VStr (lit "b")]);
        (lit "rows", VArr [VArr [VStr (lit "1"); VStr (lit "2")]])].

(** The subtree below a child, read off the store. *)
Inductive tree :=
  | Text (s : jsstring)
  | Markup (html : jsstring)
  | Node (tag cls : string) (val : jsstring) (kids : list tree)
  | Dangling.

Fixpoint view (fuel : nat) (h : heap) (c : child) : tree :=
  match c with
  | CText s => Text s
  | CMarkup s => Markup s
  | CNode r =>
      match fuel, h !! r with
      | S n, Some e => Node (tagName e) (className e) (value e) (map (view n h) (children e))
      | _, _ => Dangling
      end
  end.

(** What an element shows: its children, as trees. *)
Definition content (fuel : nat) (h : heap) (r : ref) : list tree :=
  match h !! r with
  | Some e => map (view fuel h) (children e)
  | None => []
  end.

Definition disabled_at (h : heap) (r : ref) : bool :=
  match h !! r with Some e => disabled e | None => false end.

Definition value_at (h : heap) (r : ref) : jsstring :=
  match h !! r with Some e => value e | None => [] end.

(** The kind of element a reference leads to. *)
Definition tag_at (h : heap) (r : ref) : string :=
  match h !! r with Some e => tagName e | None => ""%string end.

(** The label of a button: the children its [textContent] was set to. *)
Definition label_at (h : heap) (r : ref) : list child :=
  match h !! r with Some e => children e | None => [] end.

Definition is_request (f : handler) : bool :=
  match f with
  | OnProcessArticle | OnParseTables => true
  | _ => false
  end.

(** The part of an element that decides which requests a click on it can
    start: its id and its request listeners. *)
Definition wiring (e : element) : string * list handler :=
  (elem_id e, List.filter is_request (listeners e)).

Definition wiring_at (h : heap) (r : ref) : string * list handler :=
  match h !! r with Some e => wiring e | None => (""%string, []) end.

(** The button a pending request will re-enable. *)
Definition button_of (k : task) : option ref :=
  match k with
  | AwaitFetch who | AwaitText who _ | AwaitJson who =>
      Some (match who with Condense b _ => b | ParseTables b => b end)
  | AwaitClipboard _ _ _ => None
  end.

Definition button_id (f : handler) : string :=
  match f with
  | OnParseTables => "parse-tables-btn"
  | _ => "process-article-btn"
  end.

(** The data model's Table, every field optional: text, a sequence of text,
    a sequence of sequences of text. *)
Definition is_text (v : jsval) : bool :=
  match v with VStr _ => true | _ => false end.

Definition is_text_seq (v : jsval) : bool :=
  match v with VArr l => forallb is_text l | _ => false end.

Definition is_text_grid (v : jsval) : bool :=
  match v with VArr l => forallb is_text_seq l | _ => false end.

Definition field_ok (k : string) (p : jsval -> bool) (fs : list (jsstring * jsval)) : bool :=
  negb (has_field (lit k) fs) || p (lookup_field (lit k) fs).

Definition is_table (t : jsval) : bool :=
  match t with
  | VObj fs => field_ok "title" is_text fs && field_ok "headers" is_text_seq fs
               && field_ok "rows" is_text_grid fs
  | _ => false
  end.

(** A quoted ASCII word of JSON text. *)
Definition qt (s : string) : jsstring := [34%N] ++ lit s ++ [34%N].

(** The pretty-printed JSON of [table_T], line by line. *)
Definition json_T : jsstring :=
  join newline
    [ lit "{";
      lit "  " ++ qt "title" ++ lit ": " ++ qt "T" ++ lit ",";
      lit "  " ++ qt "headers" ++ lit ": [";
      lit "    " ++ qt "a" ++ lit ",";
      lit "    " ++ qt "b";
      lit "  ],";
      lit "  " ++ qt "rows" ++ lit ": [";
      lit "    [";
      lit "      " ++ qt "1" ++ lit ",";
      lit "      " ++ qt "2";
      lit "    ]";
      lit "  ]";
      lit "}" ].

Definition leaf (tag cls : string) (text : string) : tree :=
  Node tag cls [] [Text (lit text)].

(** The block [renderTableBlock] builds for [table_T]. *)
Definition block_T : tree :=
  Node "div" "table-block" []
    [ Node "div" "title-wrap" []
        [ leaf "div" "label inline" "Title"; leaf "div" "" "T" ];
      Node "table" "editable-table" []
        [ Node "thead" "" [] [ Node "tr" "" [] [ leaf "th" "" "a"; leaf "th" "" "b" ] ];
          Node "tbody" "" [] [ Node "tr" "" [] [ leaf "td" "" "1"; leaf "td" "" "2" ] ] ];
      leaf "label" "label" "Table JSON";
      Node "textarea" "textarea condensed-output" json_T [];
      Node "div" "actions" [] [ leaf "button" "btn secondary" "Copy JSON" ] ].

End Observe.
Export Observe.

(** ** The vocabulary of the statements *)

Local Open Scope nat_scope.

(** The paragraph [renderTables] shows for an empty result. *)
Definition no_tables_hint : element :=
  with_textContent (lit "No tables found.") (with_className "hint" (blank "p")).

(** The computation returns, whatever the store. *)
Definition succeeds {A} (m : dom A) : Prop :=
  forall h, exists h' a, m h = (h', Ok a).

(** The elements [renderTableBlock] appends when the store has [n]
    elements, the title shown is [title] and the read-only table took the
    elements [tbl]. *)
Definition block_elements (n : ref) (title : jsstring) (tbl : list element)
    (t : jsval) : list element :=
  let tableEl := n + 4 in
  let after := n + 4 + length tbl in
  [ with_child (after + 3)
      (with_child (after + 1)
         (with_child (after + 0)
            (with_child tableEl
               (with_child (n + 1) (with_className "table-block" (blank "div"))))));
    with_child (n + 3) (with_child (n + 2) (with_className "title-wrap" (blank "div")));
    with_textContent (lit "Title") (with_className "label inline" (blank "div"));
    with_textContent title (blank "div") ]
  ++ tbl ++
  [ with_className "label" (with_textContent (lit "Table JSON") (blank "label"));
    with_value (json_text t)
      (with_readOnly true
         (with_rows 8 (with_className "textarea condensed-output" (blank "textarea"))));
    with_listener (OnCopyJson (after + 1) (after + 2))
      (with_textContent (lit "Copy JSON") (with_className "btn secondary" (blank "button")));
    with_child (after + 2) (with_className "actions" (blank "div")) ].

(** [ts'] is [ts] with tasks added at the end: handlers never remove or
    renumber a task. *)
Definition grows (ts ts' : list (option task)) : Prop :=
  exists more, ts' = ts ++ more.

(** The event settles the promise of task [t]. *)
Definition settles (t : nat) (ev : event) : bool :=
  match ev with
  | Settle t' _ => Nat.eqb t t'
  | _ => false
  end.

(** [h'] has every element of [h], with the id and the request listeners
    it had; what [h'] has more carries neither. *)
Definition same_wiring (h h' : heap) : Prop :=
  length h <= length h' /\ forall r, wiring_at h' r = wiring_at h r.

(** ... and with the [disabled] flag it had. *)
Definition keeps (h h' : heap) : Prop :=
  same_wiring h h' /\ forall r, disabled_at h' r = disabled_at h r.

(** Element updates that leave the wiring, and the [disabled] flag, alone. *)
Definition harmless (f : element -> element) : Prop :=
  forall e, wiring (f e) = wiring e.

Definition benign (f : element -> element) : Prop :=
  harmless f /\ forall e, disabled (f e) = disabled e.

Definition framed {A} (m : dom A) : Prop := forall h, keeps h (fst (m h)).

(** [h'] has every element of [h], of the kind it was: the script never
    replaces an element by one of another tag. *)
Definition same_tags (h h' : heap) : Prop :=
  length h <= length h' /\ forall r, r < length h -> tag_at h' r = tag_at h r.

Definition kinded {A} (m : dom A) : Prop := forall h, same_tags h (fst (m h)).

(** The button and the label a request's [finally] block restores. *)
Definition requester_button (who : requester) : ref :=
  match who with Condense b _ => b | ParseTables b => b end.

Definition idle_label (who : requester) : jsstring :=
  match who with Condense _ _ => lit "Process" | ParseTables _ => lit "Parse tables" end.

(** What one listener does when a click reaches it: a copy listener parks a
    clipboard write (or fails for want of an element); a request listener
    disables its button and parks a request. *)
Inductive handler_effect (f : handler) (w w' : world) : Prop :=
  | he_rejected e :
      w' = reject e w -> handler_effect f w w'
  | he_copy text btn idle :
      is_request f = false ->
      w' = park (AwaitClipboard text btn idle) w -> handler_effect f w w'
  | he_request b who label :
      is_request f = true ->
      find_id (button_id f) (page w) = Some b ->
      requester_button who = b ->
      page w' = alter (with_textContent label) b (alter (with_disabled true) b (page w)) ->
      tasks w' = tasks w ++ [Some (AwaitFetch who)] ->
      handler_effect f w w'.

(** An element of the page's markup, known by its id. *)
Definition named (tag i : string) : element :=
  Element tag i "" [] [] 2 false false [].

(** The seven elements the script looks up, in document order. *)
Definition sample_page : heap :=
  [ named "textarea" "article-input";
    named "button" "process-article-btn";
    named "textarea" "article-output";
    with_textContent (lit "Copy condensed") (named "button" "copy-article-btn");
    named "textarea" "gpt-input";
    named "button" "parse-tables-btn";
    named "div" "tables-output" ].

(** The page as the browser hands it to the script, and after the script's
    top level has run. *)
Definition sample_blank : world :=
  World sample_page [] [] 0 [] [] [] (fun _ => lit "TypeError").

Definition sample_world : world := main sample_blank.

(** The sample page after a parse request has rendered [table_T]. *)
Definition rendered_world : world :=
  Eval vm_compute in
    steps sample_world
      [Click 5; Settle 0 (Response 200);
       Settle 0 (BodyJson (VObj [(lit "tables", VArr [table_T])]))].

(** The sample page after a condense request has filled the output field. *)
Definition filled_world : world :=
  Eval vm_compute in
    steps sample_world
      [Click 1; Settle 0 (Response 200);
       Settle 0 (BodyJson (VObj [(lit "condensed", VStr (lit "short"))]))].

(** Where each request handler reads its input and shows its outcome. *)
Definition input_id (f : handler) : string :=
  match f with OnParseTables => "gpt-input" | _ => "article-input" end.

Definition sink_id (f : handler) : string :=
  match f with OnParseTables => "tables-output" | _ => "article-output" end.

Definition requester_of (f : handler) (b : ref) (h : heap) : requester :=
  match f with
  | OnParseTables => ParseTables b
  | _ => Condense b (find_id "article-output" h)
  end.

(** The condense handler shows its outcome in a form field; the statements
    about what that field reads afterwards are made for a textarea. *)
Definition sink_fits (f : handler) (h : heap) (sink : ref) : Prop :=
  match f with
  | OnParseTables => True
  | _ => tag_at h sink = "textarea"%string
  end.

(** What a handler leaves in its sink for an error of message [m].  The
    condense handler assigns "Error: m" to the output field, which reads it
    back with newlines normalised.  The parse handler assigns
    [<p class="error">Error: m</p>] to the [innerHTML] of the tables area,
    [m] unescaped: the browser parses the whole string as markup. *)
Definition error_shown (f : handler) (h : heap) (sink : ref) (m : jsstring) : Prop :=
  match f with
  | OnParseTables => label_at h sink = [CMarkup (error_markup m)]
  | _ => value_at h sink = normalize_newlines (lit "Error: " ++ m)
  end.

(** The mount shows the hint paragraph and nothing else. *)
Definition hint_shown (h : heap) (mount : ref) : Prop :=
  content 2 h mount = [leaf "p" "hint" "No tables found."].

(** The element a copy listener reads, the button it relabels and the label
    it restores. *)
Definition copy_source (f : handler) (h : heap) : option ref :=
  match f with
  | OnCopyArticle => find_id "article-output" h
  | OnCopyJson jsonOut _ => Some jsonOut
  | _ => None
  end.

Definition copy_button (f : handler) (h : heap) : option ref :=
  match f with
  | OnCopyArticle => find_id "copy-article-btn" h
  | OnCopyJson _ copyJsonBtn => Some copyJsonBtn
  | _ => None
  end.

Definition copy_idle (f : handler) : jsstring :=
  match f with
  | OnCopyJson _ _ => lit "Copy JSON"
  | _ => lit "Copy condensed"
  end.

(** A table without headers, without rows, and one whose rows are longer
    and shorter than its header row. *)
Definition bare_table : jsval := VObj [(lit "title", VStr (lit "bare"))].

Definition ragged_table : jsval :=
  VObj [(lit "headers", VArr [VStr (lit "a"); VStr (lit "b")]);
        (lit "rows", VArr [VArr [VStr (lit "1"); VStr (lit "2"); VStr (lit "3")];
                           VArr []; VArr [VStr (lit "4")]])].

(** [trim] takes whitespace, and only whitespace, off both ends. *)
Definition is_trim_of (s s' : jsstring) : Prop :=
  exists pre post,
    s = pre ++ s' ++ post
    /\ forallb is_ws pre = true /\ forallb is_ws post = true
    /\ (forall c, head s' = Some c -> is_ws c = false)
    /\ (forall c, last s' = Some c -> is_ws c = false).

(** The text of the title line of the block at [block]: the second child of
    its first child. *)
Definition block_title (h : heap) (block : ref) : option jsstring :=
  match label_at h block with
  | CNode wrap :: _ =>
      match label_at h wrap with
      | [_; CNode v] =>
          match label_at h v with
          | [CText s] => Some s
          | [] => Some []
          | _ => None
          end
      | _ => None
      end
  | _ => None
  end.

Definition wired (h : heap) : Prop :=
  forall r f, In f (snd (wiring_at h r)) ->
    find_id (button_id f) h = Some r /\ snd (wiring_at h r) = [f].

Record consistent (w : world) : Prop := Consistent {
  inv_wired : wired (page w);
  inv_disabled : forall t k b,
    tasks w !! t = Some (Some k) -> button_of k = Some b ->
    disabled_at (page w) b = true;
  inv_unique : forall t t' k k' b,
    tasks w !! t = Some (Some k) -> tasks w !! t' = Some (Some k') ->
    button_of k = Some b -> button_of k' = Some b -> t = t'
}.

(** The page before the script has run: nothing pending, no listener
    attached. *)
Definition fresh (w : world) : Prop :=
  tasks w = [] /\ timers w = []
  /\ forall r e, page w !! r = Some e -> listeners e = [].

(** The id of the element at a reference; none for a reference that
    dangles. *)
Definition elem_id_at (h : heap) (r : ref) : string := fst (wiring_at h r).

(** The label a copy button shows when idle. *)
Definition idle_of (h : heap) (b : ref) : jsstring :=
  if String.eqb (elem_id_at h b) "copy-article-btn"
  then lit "Copy condensed" else lit "Copy JSON".

(** Every "Copy JSON" listener relabels an element the script created. *)
Definition scripted (h : heap) : Prop :=
  forall r e j b, h !! r = Some e -> In (OnCopyJson j b) (listeners e) ->
    elem_id_at h b = ""%string.

(** Element updates that keep the id and add no "Copy JSON" listener. *)
Definition plain (f : element -> element) : Prop :=
  forall e, elem_id (f e) = elem_id e
            /\ forall j b, In (OnCopyJson j b) (listeners (f e)) ->
                           In (OnCopyJson j b) (listeners e).

(** DOM code that keeps the store [scripted]. *)
Definition copy_safe {A} (m : dom A) : Prop :=
  forall h, scripted h -> scripted (fst (m h)).

(** Every clipboard write under way and every pending timer restores the
    idle label of its button. *)
Record tidy (w : world) : Prop := Tidy {
  tidy_scripted : scripted (page w);
  tidy_tasks : forall t text b idle,
    tasks w !! t = Some (Some (AwaitClipboard text (Some b) idle)) ->
    idle = idle_of (page w) b;
  tidy_timers : forall tm, In tm (timers w) ->
    timer_label tm = idle_of (page w) (timer_btn tm)
}.

(** ** What the renderers show for a table of the data model *)

(** [t.k] where it cannot throw, the items of a sequence and the code units
    of a text. *)
Definition field_of (t : jsval) (k : string) : jsval :=
  match t with VObj fs => lookup_field (lit k) fs | _ => VUndefined end.

Definition items_of (v : jsval) : list jsval :=
  match v with VArr l => l | _ => [] end.

Definition str_of (v : jsval) : jsstring :=
  match v with VStr s => s | _ => [] end.

(** An element whose [textContent] is [s]: the empty text leaves no node. *)
Definition text_kids (s : jsstring) : list tree :=
  if is_empty s then [] else [Text s].

Definition cell_tree (tag : string) (c : jsval) : tree :=
  Node tag "" [] (text_kids (str_of c)).

Definition row_tree (row : jsval) : tree :=
  Node "tr" "" [] (map (cell_tree "td") (items_of row)).

(** One header row with a cell per header, one body row per row with a cell
    per item, whatever the lengths. *)
Definition table_tree (t : jsval) : tree :=
  Node "table" "editable-table" []
    [ Node "thead" "" []
        [ Node "tr" "" [] (map (cell_tree "th") (items_of (field_of t "headers"))) ];
      Node "tbody" "" [] (map row_tree (items_of (field_of t "rows"))) ].

Definition shown_title (t : jsval) : jsstring :=
  match title_text t with Ok s => s | Throw _ => [] end.

Definition block_tree (t : jsval) : tree :=
  Node "div" "table-block" []
    [ Node "div" "title-wrap" []
        [ leaf "div" "label inline" "Title";
          Node "div" "" [] (text_kids (shown_title t)) ];
      table_tree t;
      leaf "label" "label" "Table JSON";
      Node "textarea" "textarea condensed-output" (json_text t) [];
      Node "div" "actions" [] [ leaf "button" "btn secondary" "Copy JSON" ] ].

(** The elements the renderers allocate, in allocation order. *)
Definition with_kids (rs : list ref) (e : element) : element :=
  with_children (children e ++ map CNode rs) e.

Definition cell_elements (tag : string) (cells : list jsval) : list element :=
  map (fun c => with_textContent (str_of c) (blank tag)) cells.

(** The rows allocated from reference [p] on: each row element is followed
    by its cells. *)
Fixpoint row_elements (p : ref) (rs : list jsval) : list element :=
  match rs with
  | [] => []
  | row :: rs' =>
      with_kids (seq (p + 1) (length (items_of row))) (blank "tr")
        :: cell_elements "td" (items_of row)
        ++ row_elements (p + 1 + length (items_of row)) rs'
  end.

Fixpoint row_refs (p : ref) (rs : list jsval) : list ref :=
  match rs with
  | [] => []
  | row :: rs' => p :: row_refs (p + 1 + length (items_of row)) rs'
  end.

Definition table_elements (n : ref) (t : jsval) : list element :=
  let hs := items_of (field_of t "headers") in
  let rs := items_of (field_of t "rows") in
  [ with_child (n + 3 + length hs)
      (with_child (n + 1) (with_className "editable-table" (blank "table")));
    with_child (n + 2) (blank "thead");
    with_kids (seq (n + 3) (length hs)) (blank "tr") ]
  ++ cell_elements "th" hs
  ++ [ with_kids (row_refs (n + 4 + length hs) rs) (blank "tbody") ]
  ++ row_elements (n + 4 + length hs) rs.

(** The store [H] holds the elements [l] from reference [p] on. *)
Definition holds (H : heap) (p : ref) (l : list element) : Prop :=
  forall i e, l !! i = Some e -> H !! (p + i) = Some e.

(** The elements of the block of [t] sit in the store from [r] on. *)
Definition block_at (h : heap) (r : ref) (t : jsval) : Prop :=
  holds h r (block_elements r (shown_title t) (table_elements (r + 4) t) t).


(** ** What the requests carry and what their handlers answer *)

(** The endpoint a request handler posts to and the key of its payload. *)
Definition endpoint (f : handler) : string :=
  match f with OnParseTables => "/api/parse_markdown_tables" | _ => "/api/condense" end.

Definition payload_key (f : handler) : string :=
  match f with OnParseTables => "markdown" | _ => "text" end.

(** The handler a task of [postJSON] belongs to. *)
Definition requester_at (k : task) : option requester :=
  match k with
  | AwaitFetch who | AwaitText who _ | AwaitJson who => Some who
  | AwaitClipboard _ _ _ => None
  end.

(** The text the [try] block of the condense handler assigns to the output
    field, when [postJSON] has settled with [r] (lines 123-124). *)
Definition condensed_text (r : result jsval) : result jsstring :=
  match r with
  | Throw e => Throw e
  | Ok v => match get v "condensed" with
            | Throw e => Throw e
            | Ok c => value_of c
            end
  end.

(** The property through which a handler reaches the element that shows its
    outcome. *)
Definition sink_prop (f : handler) : string :=
  match f with OnParseTables => "innerHTML" | _ => "value" end.

(** A page where something has been typed into the article field. *)
Definition typed_world : world :=
  with_page (alter (with_value (lit "say " ++ [34%N] ++ lit "hi" ++ [34%N])) 0
               (page sample_world)) sample_world.

(** A page that lacks the two elements showing the outcomes. *)
Definition sinkless_page : heap :=
  [ named "textarea" "article-input";
    named "button" "process-article-btn";
    with_textContent (lit "Copy condensed") (named "button" "copy-article-btn");
    named "textarea" "gpt-input";
    named "button" "parse-tables-btn" ].

Definition sinkless_world : world :=
  main (World sinkless_page [] [] 0 [] [] [] (fun _ => lit "TypeError")).

(** The element a listener reads before anything else, by id; the per-table
    listener holds its textarea by reference. *)
Definition read_id (f : handler) : option string :=
  match f with
  | OnProcessArticle => Some "article-input"%string
  | OnParseTables => Some "gpt-input"%string
  | OnCopyArticle => Some "article-output"%string
  | OnCopyJson _ _ => None
  end.

(** A page without the button that copies the condensed text. *)
Definition copyless_page : heap :=
  [ named "textarea" "article-input";
    named "button" "process-article-btn";
    named "textarea" "article-output";
    named "textarea" "gpt-input";
    named "button" "parse-tables-btn";
    named "div" "tables-output" ].

Definition copyless_blank : world :=
  World copyless_page [] [] 0 [] [] [] (fun _ => lit "TypeError").

(** ** The elements the script changes *)

(** The ids under which the script looks up an element in order to change
    it; the two input fields are looked up only to be read. *)
Definition owned_ids : list string :=
  [ "process-article-btn"; "copy-article-btn"; "parse-tables-btn";
    "article-output"; "tables-output" ]%string.

Definition owned (h : heap) (r : ref) : bool :=
  existsb (fun i => match find_id i h with
                    | Some r' => Nat.eqb r' r
                    | None => false
                    end) owned_ids.

(** Every "Copy JSON" listener relabels an element from [n] on. *)
Definition late (n : nat) (h : heap) : Prop :=
  forall r e j b, h !! r = Some e -> In (OnCopyJson j b) (listeners e) -> n <= b.

(** The ids [ids] resolve to elements of [own]. *)
Definition anchored (ids : list string) (own : ref -> Prop) (h : heap) : Prop :=
  forall i r, In i ids -> i <> ""%string -> find_id i h = Some r -> own r.

(** DOM code that, among the first [n] elements, changes only those in
    [own], on a page where the ids [ids] resolve to such elements. *)
Definition local_to (ids : list string) (own : ref -> Prop) (n : nat) {A}
    (m : dom A) : Prop :=
  forall h, n <= length h -> late n h -> anchored ids own h ->
    n <= length (fst (m h)) /\ late n (fst (m h)) /\ anchored ids own (fst (m h))
    /\ forall r, r < n -> ~ own r -> fst (m h) !! r = h !! r.

(** A handler that holds only elements of [own] or from [n] on. *)
Definition who_minds (own : ref -> Prop) (who : requester) : Prop :=
  match who with
  | Condense b out => own b /\ forall o, out = Some o -> own o
  | ParseTables b => own b
  end.

Definition task_minds (own : ref -> Prop) (n : nat) (k : task) : Prop :=
  match k with
  | AwaitFetch who | AwaitText who _ | AwaitJson who => who_minds own who
  | AwaitClipboard _ btn _ => forall b, btn = Some b -> own b \/ n <= b
  end.

Record minded (own : ref -> Prop) (n : nat) (w : world) : Prop := Minded {
  m_length : n <= length (page w);
  m_late : late n (page w);
  m_anchored : anchored owned_ids own (page w);
  m_tasks : forall t k, tasks w !! t = Some (Some k) -> task_minds own n k;
  m_timers : forall tm, In tm (timers w) -> own (timer_btn tm) \/ n <= timer_btn tm
}.

(** The first [n] elements outside [own] are the same on both pages. *)
Definition untouched (own : ref -> Prop) (n : nat) (h h' : heap) : Prop :=
  forall r, r < n -> ~ own r -> h' !! r = h !! r.

(** ** The label of a button whose request is pending *)

Definition busy_label (who : requester) : jsstring :=
  match who with
  | Condense _ _ => lit "Processing..."
  | ParseTables _ => lit "Parsing..."
  end.

(** The id under which a handler finds its button, and the output field it
    holds. *)
Definition home_id (who : requester) : string :=
  match who with
  | Condense _ _ => "process-article-btn"
  | ParseTables _ => "parse-tables-btn"
  end.

Definition out_of (who : requester) : option ref :=
  match who with Condense _ out => out | ParseTables _ => None end.

(** What a copy listener relabels: the copy-article-btn element or a button
    the script has created, which has no id. *)
Definition copy_target (h : heap) (c : ref) : Prop :=
  elem_id_at h c = "copy-article-btn"%string \/ elem_id_at h c = ""%string.

(** Every pending request has the button its handler found, which shows the
    busy label; clipboard writes and timers aim at copy buttons. *)
Record announced (w : world) : Prop := Announced {
  an_requests : forall t k who,
    tasks w !! t = Some (Some k) -> requester_at k = Some who ->
    find_id (home_id who) (page w) = Some (requester_button who)
    /\ (forall o, out_of who = Some o -> find_id "article-output" (page w) = Some o)
    /\ label_at (page w) (requester_button who) = [CText (busy_label who)];
  an_copies : forall t text c idle,
    tasks w !! t = Some (Some (AwaitClipboard text (Some c) idle)) ->
    copy_target (page w) c;
  an_timers : forall tm, In tm (timers w) -> copy_target (page w) (timer_btn tm)
}.

(** ** Requests that end in either order *)

(** The id [i] does not resolve to [x]. *)
Definition elsewhere (i : string) (x : ref) (h : heap) : Prop :=
  find_id i h <> Some x.

(** DOM code that neither reads nor writes the element [x], except for its
    id: it does the same, and returns the same, when [x] has been changed by
    [f] before as when it is changed after. *)
Definition oblivious (x : ref) (f : element -> element) {A} (m : dom A) : Prop :=
  forall h, x < length h -> elsewhere "tables-output" x h ->
    m (alter f x h) = (alter f x (fst (m h)), snd (m h))
    /\ x < length (fst (m h)) /\ elsewhere "tables-output" x (fst (m h)).

(** A settlement, as a change of the world that does not look at the other
    tasks. *)
Definition advance (t : nat) (x : option (requester * progress)) (w : world) : world :=
  match x with
  | Some (who, Parked k') => repark t k' w
  | Some (who, Settled r) => resume who r (finish t w)
  | None => w
  end.

(** * Facts about the store *)

Section Store.
Implicit Types (h : heap) (l : list element) (r n : nat) (f : element -> element).

Lemma find_id_lookup i h r :
  find_id i h = Some r -> exists e, h !! r = Some e /\ elem_id e = i.
Proof.
  revert r; induction h as [|e h IH]; intros r; simpl; [discriminate|].
  destruct (String.eqb_spec (elem_id e) i) as [Heq|Hne].
  - intros [= <-]. exists e; auto.
  - destruct (find_id i h) as [r'|]; simpl; [|discriminate].
    intros [= <-]. destruct (IH r' eq_refl) as (e' & ? & ?). exists e'; auto.
Qed.

Lemma find_id_lt i h r : find_id i h = Some r -> r < length h.
Proof.
  intros H. destruct (find_id_lookup _ _ _ H) as (e & He & _).
  eapply lookup_lt_Some; eauto.
Qed.

(** The first element with the id stays the first when the ids before it and
    its own are kept. *)
Lemma find_id_stable i h h' r :
  find_id i h = Some r ->
  (forall r', r' <= r -> elem_id <$> h' !! r' = elem_id <$> h !! r') ->
  find_id i h' = Some r.
Proof.
  revert h' r; induction h as [|e h IH]; intros h' r; simpl; [discriminate|].
  destruct (String.eqb_spec (elem_id e) i) as [Heq|Hne].
  - intros [= <-] Hsame. specialize (Hsame 0 (Nat.le_refl _)).
    destruct h' as [|e' h']; simpl in *; [discriminate|].
    injection Hsame as He. rewrite He, Heq, String.eqb_refl. reflexivity.
  - destruct (find_id i h) as [r'|] eqn:Hf; simpl; [|discriminate].
    intros [= <-] Hsame.
    destruct h' as [|e' h'].
    + specialize (Hsame 0 (Nat.le_0_l _)). discriminate.
    + simpl. pose proof (Hsame 0 (Nat.le_0_l _)) as H0. simpl in H0.
      injection H0 as He. rewrite He.
      destruct (String.eqb_spec (elem_id e) i); [contradiction|].
      rewrite (IH h' r' eq_refl); [reflexivity|].
      intros r'' Hle. apply (Hsame (S r'')). lia.
Qed.

Lemma find_id_alter i f r h :
  (forall e, elem_id (f e) = elem_id e) ->
  find_id i (alter f r h) = find_id i h.
Proof.
  intros Hf. revert r; induction h as [|e h IH]; intros r; [reflexivity|].
  destruct r as [|r]; cbn.
  - rewrite Hf. reflexivity.
  - rewrite IH. reflexivity.
Qed.

Lemma find_id_app i h l r : find_id i h = Some r -> find_id i (h ++ l) = Some r.
Proof.
  intros H. eapply find_id_stable; [exact H|].
  intros r' Hle. rewrite lookup_app_l; [reflexivity|].
  apply find_id_lt in H. lia.
Qed.

Lemma lookup_new h l n k : length h = n -> (h ++ l) !! (n + k) = l !! k.
Proof. intros <-. rewrite lookup_app_r by lia. f_equal. lia. Qed.

Lemma lookup_old h l r : r < length h -> (h ++ l) !! r = h !! r.
Proof. apply lookup_app_l. Qed.

Lemma alter_new f h l n k : length h = n -> alter f (n + k) (h ++ l) = h ++ alter f k l.
Proof. intros <-. apply alter_app_r. Qed.

Lemma alter_old f h l r : r < length h -> alter f r (h ++ l) = alter f r h ++ l.
Proof. apply alter_app_l. Qed.

End Store.

(** * Running DOM computations symbolically

    While a computation runs on a store [h ++ l], where [h] is what was
    there before and [l] what it has allocated so far, every step has a
    closed form. *)

Section Eval.
Context {B : Type}.
Implicit Types (h : heap) (l : list element) (k : unit -> dom B).

Lemma bind_ret {A} (a : A) (c : A -> dom B) h : bind (ret a) c h = c a h.
Proof. reflexivity. Qed.

Lemma bind_lift_ok {A} (a : A) (c : A -> dom B) h : bind (lift (Ok a)) c h = c a h.
Proof. reflexivity. Qed.

Lemma bind_lift_throw {A} e (c : A -> dom B) h : bind (lift (Throw e)) c h = (h, Throw e).
Proof. reflexivity. Qed.

Lemma bind_assoc {A A'} (m : dom A) (c1 : A -> dom A') (c2 : A' -> dom B) h :
  bind (bind m c1) c2 h = bind m (fun x => bind (c1 x) c2) h.
Proof. unfold bind. destruct (m h) as [h1 [a|e]]; reflexivity. Qed.

Lemma bind_create tag (c : ref -> dom B) h l n :
  length h = n ->
  bind (createElement tag) c (h ++ l) = c (n + length l) (h ++ (l ++ [blank tag])).
Proof.
  intros <-. unfold bind, createElement. rewrite length_app, <- app_assoc. reflexivity.
Qed.

Lemma bind_update_new f k h l n j :
  length h = n ->
  bind (update (n + j) f) k (h ++ l) = k tt (h ++ alter f j l).
Proof. intros Hn. unfold bind, update. rewrite (alter_new _ _ _ _ _ Hn). reflexivity. Qed.

Lemma bind_update_old f k h l r :
  r < length h ->
  bind (update r f) k (h ++ l) = k tt (alter f r h ++ l).
Proof. intros Hr. unfold bind, update. rewrite alter_old by exact Hr. reflexivity. Qed.

Lemma bind_getElementById i (c : option ref -> dom B) h :
  bind (getElementById i) c h = c (find_id i h) h.
Proof. reflexivity. Qed.

End Eval.

Lemma update_new f h l n j :
  length h = n -> update (n + j) f (h ++ l) = (h ++ alter f j l, Ok tt).
Proof. intros Hn. unfold update. rewrite (alter_new _ _ _ _ _ Hn). reflexivity. Qed.

Lemma update_old f (h l : heap) r :
  r < length h -> update r f (h ++ l) = (alter f r h ++ l, Ok tt).
Proof. intros Hr. unfold update. rewrite alter_old by exact Hr. reflexivity. Qed.

Arguments bind : simpl never.
Arguments createElement : simpl never.
Arguments update : simpl never.
Arguments getElementById : simpl never.
Arguments lift : simpl never.
Arguments ret : simpl never.
Arguments json_text : simpl never.

Ltac base_len := rewrite ?length_alter; first [assumption | reflexivity | lia].

(** One step of a computation whose store has a base of length [n]. *)
Ltac dom_step n :=
  first
    [ rewrite bind_assoc
    | rewrite bind_lift_ok
    | rewrite bind_ret
    | rewrite (bind_create _ _ _ _ n) by base_len
    | rewrite (bind_update_new _ _ _ _ n) by base_len
    | rewrite bind_update_old by base_len
    | rewrite (update_new _ _ _ n) by base_len
    | rewrite update_old by base_len ];
  cbn [length app alter list_alter forEach Nat.add].

Lemma renderTables_none tables h m :
  find_id "tables-output" h = Some m ->
  no_tables tables = true ->
  renderTables tables h =
    (alter (with_child (length h)) m (alter (with_innerHTML []) m h) ++ [no_tables_hint],
     Ok tt).
Proof.
  intros Hm Hnone. pose proof (find_id_lt _ _ _ Hm) as Hlt.
  unfold renderTables. rewrite bind_getElementById, Hm. cbn [non_null].
  rewrite bind_lift_ok, Hnone.
  rewrite <- (app_nil_r h) at 1.
  remember (length h) as n eqn:Hn. symmetry in Hn.
  repeat dom_step n. rewrite Nat.add_0_r. reflexivity.
Qed.

Lemma table_T_fields :
  title_text table_T = Ok (lit "T")
  /\ get table_T "headers" = Ok (VArr [VStr (lit "a"); VStr (lit "b")])
  /\ get table_T "rows" = Ok (VArr [VArr [VStr (lit "1"); VStr (lit "2")]])
  /\ no_tables (VArr [table_T]) = false
  /\ json_text table_T = json_T.
Proof. repeat split; vm_compute; reflexivity. Qed.

Lemma with_textContent_lit a s e :
  with_textContent (lit (String a s)) e = with_children [CText (lit (String a s))] e.
Proof. reflexivity. Qed.

(** Reading a subtree off a store whose new part is known. *)
Lemma view_new fuel (H l : heap) n k :
  (forall j, H !! (n + j) = l !! j) ->
  view (S fuel) H (CNode (n + k)) =
    match l !! k with
    | Some e => Node (tagName e) (className e) (value e) (map (view fuel H) (children e))
    | None => Dangling
    end.
Proof. intros HL. simpl. rewrite HL. reflexivity. Qed.

Ltac view_step HL :=
  rewrite (view_new _ _ _ _ _ HL);
  cbn [lookup list_lookup map tagName className value children
       with_child with_className with_children with_value
       with_readOnly with_rows with_listener blank app].

(** C3.  Rendering the one table [{title:"T", headers:["a","b"],
    rows:[["1","2"]]}] leaves exactly one block in the tables area.  Its
    textarea holds [JSON.stringify] of that object with an indentation of
    two spaces (the text [json_T]), and its read-only table has one header
    row with the cells a, b and one body row with the cells 1, 2.  This holds
    on every page that has the tables area, whatever was rendered before. *)
Theorem single_table_renders_one_block h m :
  find_id "tables-output" h = Some m ->
  exists h',
    renderTables (VArr [table_T]) h = (h', Ok tt)
    /\ content 6 h' m = [block_T]
    /\ stringify_indent 2 table_T = Some json_T.
Proof.
  intros Hm. pose proof (find_id_lt _ _ _ Hm) as Hlt.
  destruct (find_id_lookup _ _ _ Hm) as (e & He & _).
  destruct table_T_fields as (Ht & Hh & Hr & Hno & Hj).
  remember (length h) as n eqn:Hn. symmetry in Hn.
  eexists. split.
  { unfold renderTables. rewrite bind_getElementById, Hm. cbn [non_null].
    rewrite bind_lift_ok, Hno.
    rewrite <- (app_nil_r h) at 1.
    dom_step n. cbn [as_array]. dom_step n.
    unfold renderTableBlock, renderReadonlyTable.
    rewrite Ht, Hh, Hr, Hj.
    repeat (dom_step n; cbn [as_array or_else truthy text_of to_string]).
    unfold ret. reflexivity. }
  split; [|vm_compute; reflexivity].
  rewrite !with_textContent_lit.
  unfold content. rewrite lookup_old by base_len.
  rewrite list_lookup_alter_eq, list_lookup_alter_eq, He.
  cbn [fmap option_fmap option_map children with_child with_innerHTML with_children is_empty app map].
  match goal with
  | |- context [view _ (?B ++ ?L) _] =>
      assert (HL : forall j, (B ++ L) !! (n + j) = L !! j)
        by (intros j; apply lookup_new; base_len);
      remember (B ++ L) as H eqn:HH; clear HH
  end.
  repeat view_step HL.
  reflexivity.
Qed.

(** C3, on the sample page. *)
Lemma single_table_renders_one_block_sample :
  exists h',
    renderTables (VArr [table_T]) sample_page = (h', Ok tt)
    /\ content 6 h' 6 = [block_T]
    /\ stringify_indent 2 table_T = Some json_T.
Proof. apply (single_table_renders_one_block sample_page 6). reflexivity. Defined.

(** * Rendering a table of the data model never throws *)

Section Succeeds.

Lemma succeeds_bind {A B} (m : dom A) (k : A -> dom B) :
  succeeds m -> (forall a, succeeds (k a)) -> succeeds (bind m k).
Proof.
  intros Hm Hk h. destruct (Hm h) as (h1 & a & E).
  destruct (Hk a h1) as (h2 & b & E2).
  exists h2, b. unfold bind. rewrite E. exact E2.
Qed.

Lemma succeeds_create tag : succeeds (createElement tag).
Proof. intros h. eexists _, _. reflexivity. Qed.

Lemma succeeds_update r f : succeeds (update r f).
Proof. intros h. eexists _, _. reflexivity. Qed.

Lemma succeeds_ret {A} (a : A) : succeeds (ret a).
Proof. intros h. eexists _, _. reflexivity. Qed.

Lemma succeeds_lift {A} (r : result A) a : r = Ok a -> succeeds (lift r).
Proof. intros -> h. eexists _, _. reflexivity. Qed.

Lemma succeeds_bind_lift {A B} (r : result A) (k : A -> dom B) a :
  r = Ok a -> succeeds (k a) -> succeeds (bind (lift r) k).
Proof. intros -> Hk h. exact (Hk h). Qed.

Lemma succeeds_forEach {A} (l : list A) (f : A -> dom unit) :
  (forall x, In x l -> succeeds (f x)) -> succeeds (forEach l f).
Proof.
  induction l as [|x l IH]; intros Hf; simpl.
  - apply succeeds_ret.
  - apply succeeds_bind; [apply Hf; left; reflexivity|].
    intros _. apply IH. intros y Hy. apply Hf. right. exact Hy.
Qed.

End Succeeds.

Lemma lookup_absent k fs : has_field k fs = false -> lookup_field k fs = VUndefined.
Proof.
  unfold has_field. induction fs as [|[k' v] fs IH]; simpl; [reflexivity|].
  destruct (jseqb k k'); simpl; [discriminate|exact IH].
Qed.

Lemma is_text_text_of v : is_text v = true -> exists s, text_of v = Ok s.
Proof. destruct v; try discriminate. intros _. eexists. reflexivity. Qed.

(** [(x || []).forEach] on an optional sequence field: the items it visits. *)
Lemma optional_seq k p fs :
  field_ok k (fun v => match v with VArr l => forallb p l | _ => false end) fs = true ->
  exists l, as_array (or_else (lookup_field (lit k) fs) (VArr [])) = Ok l
            /\ forallb p l = true
            /\ (has_field (lit k) fs = false -> l = []).
Proof.
  unfold field_ok. intros H.
  destruct (has_field (lit k) fs) eqn:Hhas; simpl in H.
  - destruct (lookup_field (lit k) fs) as [| | | | |l|]; try discriminate.
    exists l. repeat split; [exact H|discriminate].
  - rewrite (lookup_absent _ _ Hhas). exists []. repeat split.
Qed.

Ltac succeeds_steps :=
  repeat lazymatch goal with
    | |- succeeds (bind (lift _) _) =>
        eapply succeeds_bind_lift; [first [reflexivity | eassumption]|]
    | |- succeeds (bind _ _) => apply succeeds_bind; [|intros ?]
    | |- succeeds (createElement _) => apply succeeds_create
    | |- succeeds (update _ _) => apply succeeds_update
    | |- succeeds (ret _) => apply succeeds_ret
    | |- succeeds _ => assumption
    end.

Lemma renderReadonlyTable_succeeds t :
  is_table t = true -> succeeds (renderReadonlyTable t).
Proof.
  destruct t as [| | | | | |fs]; try discriminate. simpl.
  intros H. apply andb_prop in H as [H Hrows]. apply andb_prop in H as [_ Hheaders].
  destruct (optional_seq _ _ _ Hheaders) as (hs & Ehs & Hhs & _).
  destruct (optional_seq "rows" is_text_seq _ Hrows) as (rs & Ers & Hrs & _).
  unfold renderReadonlyTable. succeeds_steps.
  - apply succeeds_forEach. intros x Hx.
    rewrite forallb_forall in Hhs. destruct (is_text_text_of _ (Hhs x Hx)) as (sx & Ex).
    succeeds_steps.
  - apply succeeds_forEach. intros row Hrow.
    rewrite forallb_forall in Hrs. pose proof (Hrs row Hrow) as Hr.
    destruct row as [| | | | |cells|]; try discriminate. simpl in Hr.
    succeeds_steps.
    apply succeeds_forEach. intros c Hc.
    rewrite forallb_forall in Hr. destruct (is_text_text_of _ (Hr c Hc)) as (sc & Ec).
    succeeds_steps.
Qed.

Lemma title_text_total fs :
  field_ok "title" is_text fs = true -> exists s, title_text (VObj fs) = Ok s.
Proof.
  unfold field_ok, title_text, get. intros H.
  destruct (has_field (lit "title") fs) eqn:Hhas; cbn [negb orb] in H.
  - destruct (lookup_field (lit "title") fs); try discriminate.
    unfold or_else. destruct (truthy (VStr s)); eexists; reflexivity.
  - rewrite (lookup_absent _ _ Hhas). eexists. reflexivity.
Qed.

Lemma renderTableBlock_succeeds c t :
  is_table t = true -> succeeds (renderTableBlock c t).
Proof.
  intros Ht. pose proof (renderReadonlyTable_succeeds _ Ht) as Htbl.
  destruct t as [| | | | | |fs]; try discriminate. simpl in Ht.
  apply andb_prop in Ht as [Ht _]. apply andb_prop in Ht as [Htitle _].
  destruct (title_text_total _ Htitle) as (s & Es).
  unfold renderTableBlock. succeeds_steps.
Qed.

(** * What a rendered block looks like in the store

    [renderReadonlyTable] only appends to the store it is given, and
    [renderTableBlock] wraps what it appends between four elements before
    and four after. *)

Lemma bind_ok {A B} (m : dom A) (k : A -> dom B) h h' a :
  m h = (h', Ok a) -> bind m k h = k a h'.
Proof. intros E. unfold bind. rewrite E. reflexivity. Qed.

Lemma cells_loop tag cells (B : heap) N j :
  length B = N ->
  forallb is_text cells = true ->
  forall x, exists x',
    forEach cells
      (fun c => (e <- createElement tag ;;
                 s <- lift (text_of c) ;;
                 update e (with_textContent s) ;;;
                 update (N + j) (with_child e))%dom) (B ++ x)
    = (B ++ x', Ok tt).
Proof.
  intros HN. induction cells as [|c cells IH]; intros Hc x.
  - exists x. reflexivity.
  - simpl in Hc. apply andb_prop in Hc as [Hc Hcs].
    destruct c; try discriminate.
    cbn [forEach text_of to_string].
    repeat dom_step N.
    apply IH. exact Hcs.
Qed.

Lemma rows_loop rs (B : heap) N j :
  length B = N ->
  forallb is_text_seq rs = true ->
  forall x, exists x',
    forEach rs
      (fun row => (tr <- createElement "tr" ;;
                   cells <- lift (as_array row) ;;
                   forEach cells (fun cell =>
                     td <- createElement "td" ;;
                     s <- lift (text_of cell) ;;
                     update td (with_textContent s) ;;;
                     update tr (with_child td)) ;;;
                   update (N + j) (with_child tr))%dom) (B ++ x)
    = (B ++ x', Ok tt).
Proof.
  intros HN. induction rs as [|row rs IH]; intros Hr x.
  - exists x. reflexivity.
  - simpl in Hr. apply andb_prop in Hr as [Hrow Hrs].
    destruct row as [| | | | |cells|]; try discriminate. simpl in Hrow.
    cbn [forEach as_array].
    repeat dom_step N.
    match goal with
    | |- context [bind (forEach cells _) _ (B ++ ?y)] =>
        destruct (cells_loop "td" cells B N (length x) HN Hrow y) as (y' & E)
    end.
    rewrite (bind_ok _ _ _ _ _ E).
    repeat dom_step N.
    apply IH. exact Hrs.
Qed.

Lemma renderReadonlyTable_local t (B : heap) :
  is_table t = true ->
  exists l, renderReadonlyTable t B = (B ++ l, Ok (length B)).
Proof.
  destruct t as [| | | | | |fs]; try discriminate. simpl.
  intros H. apply andb_prop in H as [H Hrows]. apply andb_prop in H as [_ Hheaders].
  destruct (optional_seq _ _ _ Hheaders) as (hs & Ehs & Hhs & _).
  destruct (optional_seq "rows" is_text_seq _ Hrows) as (rs & Ers & Hrs & _).
  remember (length B) as N eqn:HN. symmetry in HN.
  cut (exists l, renderReadonlyTable (VObj fs) (B ++ []) = (B ++ l, Ok N));
    [rewrite app_nil_r; trivial|].
  unfold renderReadonlyTable, get.
  repeat dom_step N. rewrite Ehs.
  repeat dom_step N.
  match goal with
  | |- context [bind (forEach hs _) _ (B ++ ?y)] =>
      destruct (cells_loop "th" hs B N 2 HN Hhs y) as (y' & E)
  end.
  rewrite (bind_ok _ _ _ _ _ E).
  repeat dom_step N. rewrite Ers.
  repeat dom_step N. rewrite !length_alter.
  match goal with
  | |- context [bind (forEach rs _) _ (B ++ ?y)] =>
      destruct (rows_loop rs B N (length y') HN Hrs y) as (z' & E')
  end.
  rewrite (bind_ok _ _ _ _ _ E').
  repeat dom_step N.
  rewrite Nat.add_0_r. eexists. reflexivity.
Qed.

Lemma renderTableBlock_closed t h c :
  is_table t = true ->
  c < length h ->
  exists title tbl,
    title_text t = Ok title
    /\ renderTableBlock c t h =
         (alter (with_child (length h)) c h ++ block_elements (length h) title tbl t, Ok tt).
Proof.
  intros Ht Hc.
  assert (exists title, title_text t = Ok title) as (title & Et).
  { destruct t; try discriminate. simpl in Ht.
    apply andb_prop in Ht as [Ht _]. apply andb_prop in Ht as [Ht _].
    apply title_text_total. exact Ht. }
  exists title.
  remember (length h) as n eqn:Hn. symmetry in Hn.
  cut (exists tbl, renderTableBlock c t (h ++ []) =
         (alter (with_child n) c h ++ block_elements n title tbl t, Ok tt)).
  { rewrite app_nil_r. intros (tbl & E). exists tbl. auto. }
  unfold renderTableBlock. rewrite Et.
  repeat dom_step n.
  match goal with
  | |- context [bind (renderReadonlyTable t) _ ?B] =>
      destruct (renderReadonlyTable_local t B Ht) as (tbl & E)
  end.
  rewrite (bind_ok _ _ _ _ _ E). exists tbl.
  rewrite length_app, Hn. cbn [length].
  match goal with
  | |- context [(h ++ ?pre) ++ tbl] =>
      remember ((h ++ pre) ++ tbl) as B2 eqn:HB2;
      assert (HN2 : length B2 = n + 4 + length tbl)
        by (subst B2; rewrite !length_app; cbn [length]; lia)
  end.
  remember (n + 4 + length tbl) as N2 eqn:HeqN2.
  rewrite <- (app_nil_r B2).
  repeat dom_step N2.
  clear E. subst B2 N2. rewrite <- !app_assoc. cbn [app].
  rewrite !(alter_new _ _ _ n) by base_len.
  rewrite alter_old by base_len.
  cbn [alter list_alter]. unfold block_elements.
  rewrite <- !app_assoc, !Nat.add_0_r. reflexivity.
Qed.

(** * How events change the task table *)

Section Tasks.
Implicit Types (w : world) (t : nat) (k : task).

Lemma tasks_run m w : tasks (run m w) = tasks w.
Proof. unfold run. destruct (m (page w)) as [h [a|e]]; reflexivity. Qed.

Lemma page_run m w : page (run m w) = fst (m (page w)).
Proof. unfold run. destruct (m (page w)) as [h [a|e]]; reflexivity. Qed.

Lemma tasks_resume who r w : tasks (resume who r w) = tasks w.
Proof. destruct who; apply tasks_run. Qed.

Lemma grows_refl ts : grows ts ts.
Proof. exists []. rewrite app_nil_r. reflexivity. Qed.

Lemma grows_trans ts1 ts2 ts3 : grows ts1 ts2 -> grows ts2 ts3 -> grows ts1 ts3.
Proof. intros (a & ->) (b & ->). exists (a ++ b). rewrite app_assoc. reflexivity. Qed.

Lemma grows_lookup ts ts' t :
  grows ts ts' -> t < length ts -> ts' !! t = ts !! t.
Proof. intros (more & ->) Ht. apply lookup_app_l. exact Ht. Qed.

Lemma grows_length ts ts' : grows ts ts' -> length ts <= length ts'.
Proof. intros (more & ->). rewrite length_app. lia. Qed.

Lemma run_handler_grows f w : grows (tasks w) (tasks (run_handler f w)).
Proof.
  destruct f; simpl.
  - unfold click_process_article.
    destruct (non_null _ _); [|apply grows_refl].
    destruct (non_null _ _); [|apply grows_refl].
    eexists. reflexivity.
  - unfold click_copy_article.
    destruct (non_null _ _); [|apply grows_refl].
    eexists. reflexivity.
  - unfold click_parse_tables.
    destruct (non_null _ _); [|apply grows_refl].
    destruct (non_null _ _); [|apply grows_refl].
    eexists. reflexivity.
  - eexists. reflexivity.
Qed.

Lemma run_handlers_grow fs w :
  grows (tasks w) (tasks (fold_left (fun w f => run_handler f w) fs w)).
Proof.
  revert w; induction fs as [|f fs IH]; intros w; simpl.
  - apply grows_refl.
  - eapply grows_trans; [apply run_handler_grows|apply IH].
Qed.

Lemma click_grows r w : grows (tasks w) (tasks (click r w)).
Proof.
  unfold click. destruct (page w !! r) as [e|]; [|apply grows_refl].
  destruct (disabled e); [apply grows_refl|apply run_handlers_grow].
Qed.

Lemma tasks_settle_other t t' o w :
  t <> t' -> tasks (settle t' o w) !! t = tasks w !! t.
Proof.
  intros Hne. unfold settle.
  destruct (tasks w !! t') as [[k|]|]; try reflexivity.
  destruct k, o; cbn [postJSON_resume]; try reflexivity; cbn [repark finish];
    try (destruct (ok status));
    rewrite ?tasks_resume; unfold copied, reject;
    try (destruct (non_null _ _));
    cbn [tasks with_tasks with_timers with_page with_clipboard reject];
    apply list_lookup_insert_ne; auto.
Qed.

Lemma length_tasks_settle t o w : length (tasks (settle t o w)) = length (tasks w).
Proof.
  unfold settle.
  destruct (tasks w !! t) as [[k|]|]; try reflexivity.
  destruct k, o; cbn [postJSON_resume]; try reflexivity; cbn [repark finish];
    try (destruct (ok status));
    rewrite ?tasks_resume; unfold copied, reject;
    try (destruct (non_null _ _));
    cbn [tasks with_tasks with_timers with_page with_clipboard reject];
    apply length_insert.
Qed.

Lemma step_other_task w ev t :
  settles t ev = false ->
  t < length (tasks w) ->
  tasks (step w ev) !! t = tasks w !! t /\ t < length (tasks (step w ev)).
Proof.
  intros Hev Ht. destruct ev as [r|t' o|ms]; simpl in *.
  - pose proof (click_grows r w) as G. split.
    + apply grows_lookup; assumption.
    + apply grows_length in G. lia.
  - apply Nat.eqb_neq in Hev. split.
    + apply tasks_settle_other. exact Hev.
    + rewrite length_tasks_settle. exact Ht.
  - split; [reflexivity|exact Ht].
Qed.

Lemma steps_other_task evs w t :
  forallb (fun ev => negb (settles t ev)) evs = true ->
  t < length (tasks w) ->
  tasks (steps w evs) !! t = tasks w !! t.
Proof.
  revert w; induction evs as [|ev evs IH]; intros w Hevs Ht; [reflexivity|].
  simpl in Hevs. apply andb_prop in Hevs as [Hev Hevs].
  apply negb_true_iff in Hev.
  destruct (step_other_task w ev t Hev Ht) as [E Hlt].
  change (steps w (ev :: evs)) with (steps (step w ev) evs).
  rewrite IH by assumption. exact E.
Qed.

End Tasks.

(** * What the script never changes

    No statement of the script touches the id of an element or takes a
    listener away, and only the two request handlers touch [disabled]. *)

Section Frame.
Implicit Types (h : heap) (r : ref) (f : element -> element).

Lemma same_wiring_refl h : same_wiring h h.
Proof. split; auto. Qed.

Lemma same_wiring_trans h1 h2 h3 :
  same_wiring h1 h2 -> same_wiring h2 h3 -> same_wiring h1 h3.
Proof.
  intros [L1 W1] [L2 W2]. split; [lia|]. intros r. rewrite W2. apply W1.
Qed.

Lemma keeps_refl h : keeps h h.
Proof. split; [apply same_wiring_refl|auto]. Qed.

Lemma keeps_trans h1 h2 h3 : keeps h1 h2 -> keeps h2 h3 -> keeps h1 h3.
Proof.
  intros [W1 D1] [W2 D2]. split; [eapply same_wiring_trans; eauto|].
  intros r. rewrite D2. apply D1.
Qed.

Lemma wiring_at_alter f r h r' :
  harmless f -> wiring_at (alter f r h) r' = wiring_at h r'.
Proof.
  intros Hf. unfold wiring_at.
  destruct (Nat.eq_dec r r') as [<-|Hne].
  - rewrite list_lookup_alter_eq. destruct (h !! r); simpl; [apply Hf|reflexivity].
  - rewrite list_lookup_alter_ne by exact Hne. reflexivity.
Qed.

Lemma disabled_at_alter f r h r' :
  (forall e, disabled (f e) = disabled e) ->
  disabled_at (alter f r h) r' = disabled_at h r'.
Proof.
  intros Hf. unfold disabled_at.
  destruct (Nat.eq_dec r r') as [<-|Hne].
  - rewrite list_lookup_alter_eq. destruct (h !! r); simpl; [apply Hf|reflexivity].
  - rewrite list_lookup_alter_ne by exact Hne. reflexivity.
Qed.

Lemma disabled_at_alter_ne f r h r' :
  r <> r' -> disabled_at (alter f r h) r' = disabled_at h r'.
Proof. intros Hne. unfold disabled_at. rewrite list_lookup_alter_ne by exact Hne. reflexivity. Qed.

Lemma same_wiring_alter f r h : harmless f -> same_wiring h (alter f r h).
Proof.
  intros Hf. split; [rewrite length_alter; lia|].
  intros r'. apply wiring_at_alter. exact Hf.
Qed.

Lemma keeps_alter f r h : benign f -> keeps h (alter f r h).
Proof.
  intros [Hw Hd]. split; [apply same_wiring_alter; exact Hw|].
  intros r'. apply disabled_at_alter. exact Hd.
Qed.

Lemma keeps_create tag h : keeps h (h ++ [blank tag]).
Proof.
  split; [split|].
  - rewrite length_app. lia.
  - intros r. unfold wiring_at.
    destruct (Nat.lt_ge_cases r (length h)) as [Hlt|Hge].
    + rewrite lookup_app_l by exact Hlt. reflexivity.
    + rewrite (lookup_ge_None_2 h r) by exact Hge.
      rewrite lookup_app_r by exact Hge.
      destruct (r - length h) as [|[|?]]; reflexivity.
  - intros r. unfold disabled_at.
    destruct (Nat.lt_ge_cases r (length h)) as [Hlt|Hge].
    + rewrite lookup_app_l by exact Hlt. reflexivity.
    + rewrite (lookup_ge_None_2 h r) by exact Hge.
      rewrite lookup_app_r by exact Hge.
      destruct (r - length h) as [|[|?]]; reflexivity.
Qed.

(** The element an id resolves to does not change. *)
Lemma find_id_same_wiring i h h' r :
  same_wiring h h' -> find_id i h = Some r -> find_id i h' = Some r.
Proof.
  intros [Hlen Hw] Hf. eapply find_id_stable; [exact Hf|].
  intros r' Hle. pose proof (find_id_lt _ _ _ Hf) as Hlt.
  specialize (Hw r'). unfold wiring_at, wiring in Hw.
  destruct (lookup_lt_is_Some_2 h r' ltac:(lia)) as [e He].
  destruct (lookup_lt_is_Some_2 h' r' ltac:(lia)) as [e' He'].
  rewrite He, He' in *. simpl. injection Hw as -> _. reflexivity.
Qed.

Lemma framed_ret {A} (a : A) : framed (ret a).
Proof. intros h. apply keeps_refl. Qed.

Lemma framed_lift {A} (x : result A) : framed (lift x).
Proof. intros h. apply keeps_refl. Qed.

Lemma framed_getElementById i : framed (getElementById i).
Proof. intros h. apply keeps_refl. Qed.

Lemma framed_create tag : framed (createElement tag).
Proof. intros h. apply keeps_create. Qed.

Lemma framed_update r f : benign f -> framed (update r f).
Proof. intros Hf h. apply keeps_alter. exact Hf. Qed.

Lemma framed_bind {A B} (m : dom A) (k : A -> dom B) :
  framed m -> (forall a, framed (k a)) -> framed (bind m k).
Proof.
  intros Hm Hk h. unfold bind. specialize (Hm h).
  destruct (m h) as [h1 [a|e]]; simpl in *; [|exact Hm].
  eapply keeps_trans; [exact Hm|apply Hk].
Qed.

Lemma framed_forEach {A} (l : list A) (f : A -> dom unit) :
  (forall x, framed (f x)) -> framed (forEach l f).
Proof.
  intros Hf. induction l as [|x l IH]; simpl.
  - apply framed_ret.
  - apply framed_bind; [apply Hf|intros _; exact IH].
Qed.

Lemma framed_if {A} (b : bool) (m1 m2 : dom A) :
  framed m1 -> framed m2 -> framed (if b then m1 else m2).
Proof. destruct b; auto. Qed.

Lemma benign_className c : benign (with_className c).
Proof. split; intros e; reflexivity. Qed.
Lemma benign_children cs : benign (with_children cs).
Proof. split; intros e; reflexivity. Qed.
Lemma benign_textContent s : benign (with_textContent s).
Proof. split; intros e; reflexivity. Qed.
Lemma benign_innerHTML s : benign (with_innerHTML s).
Proof. split; intros e; reflexivity. Qed.
Lemma benign_child c : benign (with_child c).
Proof. split; intros e; reflexivity. Qed.
Lemma benign_value s : benign (with_value s).
Proof. split; intros e; reflexivity. Qed.
Lemma benign_rows n : benign (with_rows n).
Proof. split; intros e; reflexivity. Qed.
Lemma benign_readOnly b : benign (with_readOnly b).
Proof. split; intros e; reflexivity. Qed.
Lemma benign_copy_listener a b : benign (with_listener (OnCopyJson a b)).
Proof.
  split; intros e; [|reflexivity]. unfold wiring. simpl.
  rewrite List.filter_app. simpl. rewrite app_nil_r. reflexivity.
Qed.
Lemma harmless_disabled b : harmless (with_disabled b).
Proof. intros e; reflexivity. Qed.

End Frame.

Create HintDb frame.
#[local] Hint Resolve benign_className benign_children benign_textContent
  benign_innerHTML benign_child benign_value benign_rows benign_readOnly
  benign_copy_listener : frame.

(** Splits a computation into its statements; [known] closes the calls. *)
Ltac frame_steps known :=
  repeat lazymatch goal with
    | |- framed (bind _ _) => apply framed_bind; [|intros ?]
    | |- framed (ret _) => apply framed_ret
    | |- framed (lift _) => apply framed_lift
    | |- framed (getElementById _) => apply framed_getElementById
    | |- framed (createElement _) => apply framed_create
    | |- framed (update _ _) => apply framed_update; auto with frame
    | |- framed (forEach _ _) => apply framed_forEach; intros ?
    | |- framed (if _ then _ else _) => apply framed_if
    | |- framed _ => known
    end.

Lemma framed_renderReadonlyTable t : framed (renderReadonlyTable t).
Proof. unfold renderReadonlyTable. frame_steps fail. Qed.

Lemma framed_renderTableBlock c t : framed (renderTableBlock c t).
Proof.
  unfold renderTableBlock. frame_steps ltac:(apply framed_renderReadonlyTable).
Qed.

Lemma framed_renderTables tables : framed (renderTables tables).
Proof.
  unfold renderTables. frame_steps ltac:(apply framed_renderTableBlock).
Qed.

(** * What a handler does to the page *)

Section Handlers.
Implicit Types (w : world) (h : heap).

(** After [try ... catch ... finally] only the finally block has touched
    [disabled]. *)
Lemma finally_last body handler b f1 f2 h :
  framed body -> (forall e, framed (handler e)) ->
  exists h2,
    keeps h h2 /\
    fst (try_catch_finally body handler (bind (update b f1) (fun _ => update b f2)) h)
    = alter f2 b (alter f1 b h2).
Proof.
  intros Hbody Hhandler. unfold try_catch_finally.
  specialize (Hbody h). destruct (body h) as [h1 [a|e]]; simpl in Hbody.
  - exists h1. split; [exact Hbody|reflexivity].
  - specialize (Hhandler e h1). destruct (handler e h1) as [h2 [a|e2]]; simpl in Hhandler.
    + exists h2. split; [eapply keeps_trans; eauto|reflexivity].
    + exists h2. split; [eapply keeps_trans; eauto|reflexivity].
Qed.

Lemma page_resume who r w :
  exists h2,
    keeps (page w) h2 /\
    page (resume who r w)
    = alter (with_textContent (idle_label who)) (requester_button who)
        (alter (with_disabled false) (requester_button who) h2).
Proof.
  destruct who as [btn outEl|btn]; simpl;
    unfold resume_process_article, resume_parse_tables; rewrite page_run;
    apply finally_last.
  - frame_steps fail.
  - intros e. frame_steps fail.
  - frame_steps ltac:(apply framed_renderTables).
  - intros e. frame_steps fail.
Qed.

Lemma run_handler_effect f w : handler_effect f w (run_handler f w).
Proof.
  destruct f; simpl.
  - unfold click_process_article.
    destruct (find_id "article-input" (page w)) as [i|]; simpl;
      [|eapply he_rejected; reflexivity].
    destruct (find_id "process-article-btn" (page w)) as [b|] eqn:Hb; simpl;
      [|eapply he_rejected; reflexivity].
    eapply (he_request _ _ _ b (Condense b _)); try reflexivity. exact Hb.
  - unfold click_copy_article.
    destruct (find_id "article-output" (page w)) as [o|]; simpl;
      [|eapply he_rejected; reflexivity].
    eapply he_copy; reflexivity.
  - unfold click_parse_tables.
    destruct (find_id "gpt-input" (page w)) as [i|]; simpl;
      [|eapply he_rejected; reflexivity].
    destruct (find_id "parse-tables-btn" (page w)) as [b|] eqn:Hb; simpl;
      [|eapply he_rejected; reflexivity].
    eapply (he_request _ _ _ b (ParseTables b)); try reflexivity. exact Hb.
  - eapply he_copy; reflexivity.
Qed.

Lemma run_handler_same_wiring f w : same_wiring (page w) (page (run_handler f w)).
Proof.
  destruct (run_handler_effect f w) as [e ->|text btn idle _ ->|b who label _ _ _ -> _].
  - apply same_wiring_refl.
  - apply same_wiring_refl.
  - eapply same_wiring_trans; apply same_wiring_alter.
    + apply harmless_disabled.
    + apply benign_textContent.
Qed.

Lemma click_same_wiring r w : same_wiring (page w) (page (click r w)).
Proof.
  unfold click. destruct (page w !! r) as [e|]; [|apply same_wiring_refl].
  destruct (disabled e); [apply same_wiring_refl|].
  generalize (listeners e) as fs. intros fs. revert w.
  induction fs as [|f fs IH]; intros w; simpl; [apply same_wiring_refl|].
  eapply same_wiring_trans; [apply run_handler_same_wiring|apply IH].
Qed.

Lemma fire_all_keeps tms h : keeps h (fold_left fire tms h).
Proof.
  revert h; induction tms as [|tm tms IH]; intros h; simpl; [apply keeps_refl|].
  eapply keeps_trans; [|apply IH]. apply keeps_alter. apply benign_textContent.
Qed.

Lemma settle_same_wiring t o w : same_wiring (page w) (page (settle t o w)).
Proof.
  unfold settle. destruct (tasks w !! t) as [[k|]|]; try apply same_wiring_refl.
  assert (Hres : forall who r w0, page w0 = page w ->
                   same_wiring (page w) (page (resume who r w0))).
  { intros who r w0 E. destruct (page_resume who r w0) as (h2 & [Hk _] & ->).
    rewrite E in Hk.
    eapply same_wiring_trans; [exact Hk|].
    eapply same_wiring_trans; apply same_wiring_alter.
    - apply harmless_disabled.
    - apply benign_textContent. }
  destruct k, o; cbn [postJSON_resume]; try apply same_wiring_refl;
    try (apply Hres; reflexivity).
  unfold copied. destruct btn as [b|]; simpl; [|apply same_wiring_refl].
  apply same_wiring_alter. apply benign_textContent.
Qed.

Lemma step_same_wiring w ev : same_wiring (page w) (page (step w ev)).
Proof.
  destruct ev as [r|t o|ms]; simpl.
  - apply click_same_wiring.
  - apply settle_same_wiring.
  - apply fire_all_keeps.
Qed.

Lemma steps_same_wiring evs w : same_wiring (page w) (page (steps w evs)).
Proof.
  revert w; induction evs as [|ev evs IH]; intros w; [apply same_wiring_refl|].
  change (steps w (ev :: evs)) with (steps (step w ev) evs).
  eapply same_wiring_trans; [apply step_same_wiring|apply IH].
Qed.

End Handlers.

(** * The kind of an element never changes

    Every update of the script keeps the tag of the element it touches, and
    new elements are added at the end of the store. *)

Section Kinds.
Implicit Types (w : world) (h : heap).

Lemma same_tags_refl h : same_tags h h.
Proof. split; auto. Qed.

Lemma same_tags_trans h1 h2 h3 :
  same_tags h1 h2 -> same_tags h2 h3 -> same_tags h1 h3.
Proof.
  intros [L1 T1] [L2 T2]. split; [lia|].
  intros r Hr. rewrite T2 by lia. apply T1. exact Hr.
Qed.

Lemma same_tags_alter f r h :
  (forall e, tagName (f e) = tagName e) -> same_tags h (alter f r h).
Proof.
  intros Hf. split; [rewrite length_alter; lia|].
  intros r' _. unfold tag_at.
  destruct (Nat.eq_dec r r') as [<-|Hne].
  - rewrite list_lookup_alter_eq. destruct (h !! r); simpl; [apply Hf|reflexivity].
  - rewrite list_lookup_alter_ne by exact Hne. reflexivity.
Qed.

Lemma same_tags_create tag h : same_tags h (h ++ [blank tag]).
Proof.
  split; [rewrite length_app; lia|].
  intros r Hr. unfold tag_at. rewrite lookup_app_l by exact Hr. reflexivity.
Qed.

Lemma kinded_ret {A} (a : A) : kinded (ret a).
Proof. intros h. apply same_tags_refl. Qed.

Lemma kinded_lift {A} (x : result A) : kinded (lift x).
Proof. intros h. apply same_tags_refl. Qed.

Lemma kinded_getElementById i : kinded (getElementById i).
Proof. intros h. apply same_tags_refl. Qed.

Lemma kinded_create tag : kinded (createElement tag).
Proof. intros h. apply same_tags_create. Qed.

Lemma kinded_update r f :
  (forall e, tagName (f e) = tagName e) -> kinded (update r f).
Proof. intros Hf h. apply same_tags_alter. exact Hf. Qed.

Lemma kinded_bind {A B} (m : dom A) (k : A -> dom B) :
  kinded m -> (forall a, kinded (k a)) -> kinded (bind m k).
Proof.
  intros Hm Hk h. unfold bind. specialize (Hm h).
  destruct (m h) as [h1 [a|e]]; simpl in *; [|exact Hm].
  eapply same_tags_trans; [exact Hm|apply Hk].
Qed.

Lemma kinded_forEach {A} (l : list A) (f : A -> dom unit) :
  (forall x, kinded (f x)) -> kinded (forEach l f).
Proof.
  intros Hf. induction l as [|x l IH]; simpl.
  - apply kinded_ret.
  - apply kinded_bind; [apply Hf|intros _; exact IH].
Qed.

Lemma kinded_if {A} (b : bool) (m1 m2 : dom A) :
  kinded m1 -> kinded m2 -> kinded (if b then m1 else m2).
Proof. destruct b; auto. Qed.

Lemma kinded_finally body handler final :
  kinded body -> (forall e, kinded (handler e)) -> kinded final ->
  kinded (try_catch_finally body handler final).
Proof.
  intros Hb Hh Hf h. unfold try_catch_finally.
  specialize (Hb h). destruct (body h) as [h1 [a|e]]; simpl in Hb.
  - eapply same_tags_trans; [exact Hb|apply Hf].
  - specialize (Hh e h1). destruct (handler e h1) as [h2 [a|e2]]; simpl in Hh.
    + eapply same_tags_trans; [exact Hb|].
      eapply same_tags_trans; [exact Hh|apply Hf].
    + specialize (Hf h2). destruct (final h2) as [h3 [a|e3]]; simpl in *;
        (eapply same_tags_trans; [exact Hb|]);
        (eapply same_tags_trans; [exact Hh|exact Hf]).
Qed.

End Kinds.

(** Splits a computation into its statements; [known] closes the calls. *)
Ltac kind_steps known :=
  repeat lazymatch goal with
    | |- kinded (bind _ _) => apply kinded_bind; [|intros ?]
    | |- kinded (ret _) => apply kinded_ret
    | |- kinded (lift _) => apply kinded_lift
    | |- kinded (getElementById _) => apply kinded_getElementById
    | |- kinded (createElement _) => apply kinded_create
    | |- kinded (update _ _) => apply kinded_update; intros ?; reflexivity
    | |- kinded (forEach _ _) => apply kinded_forEach; intros ?
    | |- kinded (if _ then _ else _) => apply kinded_if
    | |- kinded (try_catch_finally _ _ _) => apply kinded_finally; [|intros ?|]
    | |- kinded _ => known
    end.

Lemma kinded_renderReadonlyTable t : kinded (renderReadonlyTable t).
Proof. unfold renderReadonlyTable. kind_steps fail. Qed.

Lemma kinded_renderTableBlock c t : kinded (renderTableBlock c t).
Proof.
  unfold renderTableBlock. kind_steps ltac:(apply kinded_renderReadonlyTable).
Qed.

Lemma kinded_renderTables tables : kinded (renderTables tables).
Proof.
  unfold renderTables. kind_steps ltac:(apply kinded_renderTableBlock).
Qed.

Lemma resume_same_tags who r w : same_tags (page w) (page (resume who r w)).
Proof.
  destruct who as [btn outEl|btn]; simpl;
    unfold resume_process_article, resume_parse_tables; rewrite page_run.
  - assert (H : kinded
              (try_catch_finally
                 (v <- lift r ;;
                  condensed <- lift (get v "condensed") ;;
                  o <- lift (non_null "value" outEl) ;;
                  s <- lift (value_of condensed) ;;
                  update o (with_value s))
                 (fun e =>
                  o <- lift (non_null "value" outEl) ;;
                  update o (with_value (lit "Error: " ++ message w e)))
                 (update btn (with_disabled false) ;;;
                  update btn (with_textContent (lit "Process"))))%dom)
      by kind_steps fail.
    apply H.
  - assert (H : kinded
              (try_catch_finally
                 (v <- lift r ;;
                  tables <- lift (get v "tables") ;;
                  renderTables tables)
                 (fun e =>
                  mount <- getElementById "tables-output" ;;
                  mount <- lift (non_null "innerHTML" mount) ;;
                  update mount (with_innerHTML (error_markup (message w e))))
                 (update btn (with_disabled false) ;;;
                  update btn (with_textContent (lit "Parse tables"))))%dom)
      by kind_steps ltac:(apply kinded_renderTables).
    apply H.
Qed.

Lemma run_handler_same_tags f w : same_tags (page w) (page (run_handler f w)).
Proof.
  destruct (run_handler_effect f w) as [e ->|text btn idle _ ->|b who label _ _ _ -> _].
  - apply same_tags_refl.
  - apply same_tags_refl.
  - eapply same_tags_trans; apply same_tags_alter; intros e; reflexivity.
Qed.

Lemma click_same_tags r w : same_tags (page w) (page (click r w)).
Proof.
  unfold click. destruct (page w !! r) as [e|]; [|apply same_tags_refl].
  destruct (disabled e); [apply same_tags_refl|].
  generalize (listeners e) as fs. intros fs. revert w.
  induction fs as [|f fs IH]; intros w; simpl; [apply same_tags_refl|].
  eapply same_tags_trans; [apply run_handler_same_tags|apply IH].
Qed.

Lemma fire_all_same_tags tms (h : heap) : same_tags h (fold_left fire tms h).
Proof.
  revert h; induction tms as [|tm tms IH]; intros h; simpl; [apply same_tags_refl|].
  eapply same_tags_trans; [|apply IH]. apply same_tags_alter. intros e; reflexivity.
Qed.

Lemma settle_same_tags t o w : same_tags (page w) (page (settle t o w)).
Proof.
  unfold settle. destruct (tasks w !! t) as [[k|]|]; try apply same_tags_refl.
  destruct k, o; cbn [postJSON_resume]; try apply same_tags_refl;
    try (apply (resume_same_tags _ _ (finish t w))).
  unfold copied. destruct btn as [b|]; simpl; [|apply same_tags_refl].
  apply same_tags_alter. intros e; reflexivity.
Qed.

Lemma step_same_tags w ev : same_tags (page w) (page (step w ev)).
Proof.
  destruct ev as [r|t o|ms]; simpl.
  - apply click_same_tags.
  - apply settle_same_tags.
  - apply fire_all_same_tags.
Qed.

(** Whatever happens on the page, an element stays of the kind it was. *)
Lemma steps_same_tags evs w : same_tags (page w) (page (steps w evs)).
Proof.
  revert w; induction evs as [|ev evs IH]; intros w; [apply same_tags_refl|].
  change (steps w (ev :: evs)) with (steps (step w ev) evs).
  eapply same_tags_trans; [apply step_same_tags|apply IH].
Qed.

(** * The sample worlds *)

Lemma rendered_world_eq :
  rendered_world
  = steps sample_world
      [Click 5; Settle 0 (Response 200);
       Settle 0 (BodyJson (VObj [(lit "tables", VArr [table_T])]))].
Proof. vm_compute. reflexivity. Qed.

Lemma filled_world_eq :
  filled_world
  = steps sample_world
      [Click 1; Settle 0 (Response 200);
       Settle 0 (BodyJson (VObj [(lit "condensed", VStr (lit "short"))]))].
Proof. vm_compute. reflexivity. Qed.

(** * The condense request *)

Lemma steps_app w evs1 evs2 : steps w (evs1 ++ evs2) = steps (steps w evs1) evs2.
Proof. apply fold_left_app. Qed.

Lemma value_at_alter f r h r' :
  (forall e, value (f e) = value e) -> value_at (alter f r h) r' = value_at h r'.
Proof.
  intros Hf. unfold value_at.
  destruct (Nat.eq_dec r r') as [<-|Hne].
  - rewrite list_lookup_alter_eq. destruct (h !! r); simpl; [apply Hf|reflexivity].
  - rewrite list_lookup_alter_ne by exact Hne. reflexivity.
Qed.

(** Text without a carriage return passes through a textarea unchanged. *)
Lemma normalize_no_cr s : no_cr s = true -> normalize_newlines s = s.
Proof.
  induction s as [|c s IH]; [reflexivity|]. cbn [no_cr forallb]. fold (no_cr s).
  intros H. apply andb_prop in H as [Hc Hs]. cbn [normalize_newlines].
  destruct (c =? 13)%N; [discriminate|]. rewrite (IH Hs). reflexivity.
Qed.

Lemma no_cr_app a b : no_cr (a ++ b) = no_cr a && no_cr b.
Proof. apply forallb_app. Qed.

Lemma no_cr_lit_cons a s :
  no_cr (lit (String a s)) = negb (N_of_ascii a =? 13)%N && no_cr (lit s).
Proof. reflexivity. Qed.

Lemma no_cr_dec n : no_cr (dec n) = true.
Proof.
  unfold dec. generalize (N.to_uint n). intros u.
  induction u as [|u IH|u IH|u IH|u IH|u IH|u IH|u IH|u IH|u IH|u IH];
    [reflexivity|..];
    cbn [NilEmpty.string_of_uint]; rewrite no_cr_lit_cons, IH; reflexivity.
Qed.

Lemma no_cr_dec_Z z : no_cr (dec_Z z) = true.
Proof.
  destruct z as [|p|p]; unfold dec_Z.
  - apply no_cr_dec.
  - apply no_cr_dec.
  - rewrite no_cr_app, no_cr_dec. reflexivity.
Qed.

(** [JSON.stringify] writes a carriage return as an escape, so its text
    passes through a textarea unchanged. *)
Lemma hex_digit_no_cr n : (hex_digit n =? 13)%N = false.
Proof. unfold hex_digit. destruct (n <? 10)%N; apply N.eqb_neq; lia. Qed.

Lemma no_cr_unicode_escape c : no_cr (unicode_escape c) = true.
Proof.
  unfold unicode_escape. rewrite no_cr_app. cbn [no_cr forallb].
  rewrite !hex_digit_no_cr. reflexivity.
Qed.

Lemma no_cr_quote_unit c : no_cr (quote_unit c) = true.
Proof.
  unfold quote_unit.
  destruct (c =? 8)%N; [reflexivity|]. destruct (c =? 9)%N; [reflexivity|].
  destruct (c =? 10)%N; [reflexivity|]. destruct (c =? 12)%N; [reflexivity|].
  destruct (c =? 13)%N eqn:E13; [reflexivity|].
  destruct (c =? 34)%N; [reflexivity|]. destruct (c =? 92)%N; [reflexivity|].
  destruct ((c <? 32)%N || is_high_surrogate c || is_low_surrogate c);
    [apply no_cr_unicode_escape|].
  cbn [no_cr forallb]. rewrite E13. reflexivity.
Qed.

Lemma surrogate_no_cr c :
  is_high_surrogate c || is_low_surrogate c = true -> (c =? 13)%N = false.
Proof.
  unfold is_high_surrogate, is_low_surrogate. intros H. apply N.eqb_neq.
  apply orb_prop in H as [H|H]; apply andb_prop in H as [H _]; apply N.leb_le in H; lia.
Qed.

Lemma no_cr_quote_body s : no_cr (quote_body s) = true.
Proof.
  assert (H : forall n s, length s <= n -> no_cr (quote_body s) = true).
  { clear s. induction n as [|n IH]; intros [|c rest] Hlen; try reflexivity;
      cbn [length] in Hlen; [lia|].
    cbn [quote_body]. destruct (is_high_surrogate c) eqn:Eh.
    - destruct rest as [|d rest']; [apply no_cr_quote_unit|].
      destruct (is_low_surrogate d) eqn:El.
      + cbn [no_cr forallb]. fold (no_cr (quote_body rest')).
        rewrite (surrogate_no_cr c) by (rewrite Eh; reflexivity).
        rewrite (surrogate_no_cr d) by (rewrite El; apply orb_true_r).
        cbn [length] in Hlen. rewrite IH by lia. reflexivity.
      + rewrite no_cr_app, no_cr_quote_unit, IH by lia. reflexivity.
    - rewrite no_cr_app, no_cr_quote_unit, IH by lia. reflexivity. }
  apply (H (length s)). lia.
Qed.

Lemma no_cr_quote s : no_cr (quote s) = true.
Proof. unfold quote. rewrite !no_cr_app, no_cr_quote_body. reflexivity. Qed.

Lemma no_cr_join sep parts :
  no_cr sep = true -> forallb no_cr parts = true -> no_cr (join sep parts) = true.
Proof.
  intros Hsep. induction parts as [|p rest IH]; [reflexivity|].
  cbn [forallb]. intros H. apply andb_prop in H as [Hp Hrest].
  destruct rest as [|q rest]; [exact Hp|].
  change (join sep (p :: q :: rest)) with (p ++ sep ++ join sep (q :: rest)).
  rewrite !no_cr_app, Hp, Hsep, (IH Hrest). reflexivity.
Qed.

Lemma no_cr_wrap opening closing gap stepback indent partial :
  no_cr opening = true -> no_cr closing = true ->
  no_cr stepback = true -> no_cr indent = true ->
  forallb no_cr partial = true ->
  no_cr (wrap opening closing gap stepback indent partial) = true.
Proof.
  intros Ho Hc Hs Hi Hp. unfold wrap.
  destruct partial as [|p rest]; [rewrite no_cr_app, Ho, Hc; reflexivity|].
  destruct (is_empty gap).
  - rewrite !no_cr_app, Ho, Hc, no_cr_join; auto.
  - rewrite !no_cr_app, Ho, Hc, Hs, Hi, no_cr_join; auto;
      rewrite !no_cr_app, Hi; reflexivity.
Qed.

Lemma no_cr_serialize :
  forall v gap indent,
    no_cr gap = true -> no_cr indent = true ->
    no_cr (match serialize gap indent v with Some s => s | None => [] end) = true.
Proof.
  fix IH 1. intros v gap indent Hg Hi.
  assert (Hinner : no_cr (indent ++ gap) = true)
    by (rewrite no_cr_app, Hi, Hg; reflexivity).
  destruct v as [| |[|]|z|str|l|fs]; cbn [serialize]; try reflexivity.
  - apply no_cr_dec_Z.
  - apply no_cr_quote.
  - apply no_cr_wrap; try reflexivity; try assumption.
    induction l as [|x l IHl]; [reflexivity|].
    cbn [map forallb]. apply andb_true_intro. split; [|exact IHl].
    specialize (IH x gap (indent ++ gap) Hg Hinner).
    destruct (serialize gap (indent ++ gap) x) as [sx|]; [exact IH|reflexivity].
  - apply no_cr_wrap; try reflexivity; try assumption.
    induction fs as [|[k x] fs IHfs]; [reflexivity|].
    match goal with
    | |- context [flat_map ?f ((k, x) :: fs)] =>
        change (flat_map f ((k, x) :: fs)) with (f (k, x) ++ flat_map f fs)
    end.
    rewrite forallb_app. apply andb_true_intro. split; [|exact IHfs].
    cbv beta. cbn [snd fst].
    specialize (IH x gap (indent ++ gap) Hg Hinner).
    destruct (serialize gap (indent ++ gap) x) as [sx|]; [|reflexivity].
    cbn [forallb]. rewrite andb_true_r, !no_cr_app, no_cr_quote, IH.
    destruct (is_empty gap); reflexivity.
Qed.

Lemma no_cr_json_text t : no_cr (json_text t) = true.
Proof.
  unfold json_text, stringify_indent.
  pose proof (no_cr_serialize t (repeat 32%N (Nat.min 2 10)) [] eq_refl eq_refl) as H.
  destruct (serialize (repeat 32%N (Nat.min 2 10)) [] t) as [s|]; [exact H|reflexivity].
Qed.

(** Assigning the JSON of a table leaves exactly that text in the field. *)
Lemma with_value_json_text t e : with_value (json_text t) e = set_value (json_text t) e.
Proof.
  unfold with_value. destruct (is_textarea e); [|reflexivity].
  rewrite normalize_no_cr by apply no_cr_json_text. reflexivity.
Qed.

Lemma value_at_set s r (h : heap) e :
  h !! r = Some e ->
  value_at (alter (with_value s) r h) r
  = if is_textarea e then normalize_newlines s else s.
Proof.
  intros He. unfold value_at. rewrite list_lookup_alter_eq, He. reflexivity.
Qed.

Lemma is_textarea_tag_at h r e :
  h !! r = Some e -> is_textarea e = String.eqb (tag_at h r) "textarea".
Proof. intros He. unfold tag_at. rewrite He. reflexivity. Qed.

(** What a textarea reads after an assignment. *)
Lemma value_at_set_textarea s r (h : heap) :
  tag_at h r = "textarea"%string ->
  value_at (alter (with_value s) r h) r = normalize_newlines s.
Proof.
  intros Ht. unfold tag_at in Ht.
  destruct (h !! r) as [e|] eqn:He; [|discriminate].
  rewrite (value_at_set s r h e He). unfold is_textarea. rewrite Ht. reflexivity.
Qed.

(** A click on the enabled button whose only listener is the condense
    handler. *)
Lemma click_process_article_starts w b e i :
  find_id "process-article-btn" (page w) = Some b ->
  page w !! b = Some e -> disabled e = false -> listeners e = [OnProcessArticle] ->
  find_id "article-input" (page w) = Some i ->
  tasks (step w (Click b))
  = tasks w ++ [Some (AwaitFetch (Condense b (find_id "article-output" (page w))))]
  /\ page (step w (Click b))
     = alter (with_textContent (lit "Processing...")) b
         (alter (with_disabled true) b (page w))
  /\ unhandled (step w (Click b)) = unhandled w.
Proof.
  intros Hb He Hd Hl Hi. simpl. unfold click. rewrite He, Hd, Hl. simpl.
  unfold click_process_article. rewrite Hi, Hb. simpl. auto.
Qed.

Lemma settle_response w t who status :
  tasks w !! t = Some (Some (AwaitFetch who)) ->
  step w (Settle t (Response status))
  = repark t (if ok status then AwaitJson who else AwaitText who status) w.
Proof. intros Ht. simpl. unfold settle. rewrite Ht. reflexivity. Qed.

Lemma tasks_repark_same w t k k' :
  tasks w !! t = Some k' -> tasks (repark t k w) !! t = Some (Some k).
Proof.
  intros Ht. simpl. apply list_lookup_insert_eq. eapply lookup_lt_Some. exact Ht.
Qed.

(** The last step of a successful condense request. *)
Lemma condense_json_page w t b o v X :
  tasks w !! t = Some (Some (AwaitJson (Condense b (Some o)))) ->
  get v "condensed" = Ok (VStr X) ->
  page (step w (Settle t (BodyJson v)))
  = alter (with_textContent (lit "Process")) b
      (alter (with_disabled false) b (alter (with_value X) o (page w)))
  /\ unhandled (step w (Settle t (BodyJson v))) = unhandled w.
Proof.
  intros Ht Hv. simpl. unfold settle. rewrite Ht. cbn [postJSON_resume].
  unfold resume, resume_process_article, run, try_catch_finally.
  cbn [page finish with_tasks].
  rewrite bind_lift_ok, Hv, bind_lift_ok. cbn [non_null value_of to_string].
  rewrite bind_lift_ok, bind_lift_ok. unfold update, bind. simpl. auto.
Qed.

(** C1.  A click on the condense button, then a successful response whose
    JSON body has [condensed: "X"], on a page whose article-output field is
    a textarea: whatever other events reach the page between the click and
    the two settlements of the request, the field then reads "X" with its
    newlines normalised (every CR LF pair and every other CR as one LF),
    which is "X" itself when "X" holds no carriage return. *)
Theorem condense_success_fills_output w b e i o X status v evs1 evs2 :
  find_id "process-article-btn" (page w) = Some b ->
  page w !! b = Some e -> disabled e = false -> listeners e = [OnProcessArticle] ->
  find_id "article-input" (page w) = Some i ->
  find_id "article-output" (page w) = Some o ->
  tag_at (page w) o = "textarea"%string ->
  ok status = true ->
  get v "condensed" = Ok (VStr X) ->
  forallb (fun ev => negb (settles (length (tasks w)) ev)) (evs1 ++ evs2) = true ->
  let t := length (tasks w) in
  let w' := steps w ([Click b] ++ evs1 ++ [Settle t (Response status)]
                       ++ evs2 ++ [Settle t (BodyJson v)]) in
  find_id "article-output" (page w') = Some o
  /\ value_at (page w') o = normalize_newlines X
  /\ (no_cr X = true -> value_at (page w') o = X).
Proof.
  intros Hb He Hd Hl Hi Ho Hta Hok Hv Hevs t w'.
  rewrite forallb_app in Hevs. apply andb_prop in Hevs as [Hevs1 Hevs2].
  split.
  { eapply find_id_same_wiring; [apply steps_same_wiring|exact Ho]. }
  enough (Hval : value_at (page w') o = normalize_newlines X).
  { split; [exact Hval|]. intros Hcr. rewrite Hval. apply normalize_no_cr. exact Hcr. }
  subst w'. rewrite !steps_app.
  destruct (click_process_article_starts w b e i Hb He Hd Hl Hi) as (Ht1 & _ & _).
  rewrite Ho in Ht1.
  set (w1 := steps w [Click b]) in *. change (step w (Click b)) with w1 in Ht1.
  assert (Hp1 : tasks w1 !! t = Some (Some (AwaitFetch (Condense b (Some o))))).
  { rewrite Ht1. apply list_lookup_middle. reflexivity. }
  set (w2 := steps w1 evs1).
  assert (Hp2 : tasks w2 !! t = Some (Some (AwaitFetch (Condense b (Some o))))).
  { unfold w2. rewrite steps_other_task; [exact Hp1|exact Hevs1|].
    eapply lookup_lt_Some; exact Hp1. }
  set (w3 := steps w2 [Settle t (Response status)]).
  assert (Hp3 : tasks w3 !! t = Some (Some (AwaitJson (Condense b (Some o))))).
  { unfold w3. change (steps w2 [Settle t (Response status)])
      with (step w2 (Settle t (Response status))).
    rewrite (settle_response _ _ _ _ Hp2), Hok.
    eapply tasks_repark_same. exact Hp2. }
  set (w4 := steps w3 evs2).
  assert (Hp4 : tasks w4 !! t = Some (Some (AwaitJson (Condense b (Some o))))).
  { unfold w4. rewrite steps_other_task; [exact Hp3|exact Hevs2|].
    eapply lookup_lt_Some; exact Hp3. }
  change (steps w4 [Settle t (BodyJson v)]) with (step w4 (Settle t (BodyJson v))).
  destruct (condense_json_page w4 t b o v X Hp4 Hv) as (-> & _).
  rewrite !value_at_alter by reflexivity.
  apply value_at_set_textarea.
  assert (Hk : same_tags (page w) (page w4)).
  { unfold w4, w3, w2, w1. rewrite <- !steps_app. apply steps_same_tags. }
  destruct Hk as [_ Hk]. rewrite Hk; [exact Hta|].
  eapply find_id_lt. exact Ho.
Qed.

(** C1, on the sample page: other events may come in between. *)
Lemma condense_success_fills_output_sample :
  value_at
    (page (steps sample_world
             [Click 1; Elapse 10; Settle 0 (Response 200); Click 3;
              Settle 0 (BodyJson (VObj [(lit "condensed", VStr (lit "X"))]))]))
    2 = lit "X".
Proof.
  refine (proj2 (proj2 (condense_success_fills_output sample_world 1 _ 0 2 (lit "X") 200%N
                   (VObj [(lit "condensed", VStr (lit "X"))]) [Elapse 10] [Click 3]
                   _ _ _ _ _ _ _ _ _ _)) _); reflexivity.
Defined.

(** C1 as the claim words it fails: a condensed text with a Windows line
    break does not come back from the output field as it was sent. *)
Lemma condense_output_drops_carriage_return :
  let X := lit "a" ++ [13%N; 10%N] ++ lit "b" in
  let w := steps sample_world
             [Click 1; Settle 0 (Response 200);
              Settle 0 (BodyJson (VObj [(lit "condensed", VStr X)]))] in
  value_at (page w) 2 = lit "a" ++ [10%N] ++ lit "b"
  /\ value_at (page w) 2 <> X.
Proof.
  split; [vm_compute; reflexivity|].
  intros H. vm_compute in H. discriminate.
Qed.

(** * Failed requests *)

Lemma click_request_starts f w b e i :
  is_request f = true ->
  find_id (button_id f) (page w) = Some b ->
  page w !! b = Some e -> disabled e = false -> listeners e = [f] ->
  find_id (input_id f) (page w) = Some i ->
  tasks (step w (Click b))
  = tasks w ++ [Some (AwaitFetch (requester_of f b (page w)))]
  /\ disabled_at (page (step w (Click b))) b = true.
Proof.
  intros Hf Hb He Hd Hl Hi. simpl. unfold click. rewrite He, Hd, Hl.
  assert (Hdis : forall s, disabled_at
            (alter (with_textContent s) b (alter (with_disabled true) b (page w))) b = true).
  { intros s. unfold disabled_at. rewrite !list_lookup_alter_eq, He. reflexivity. }
  destruct f; try discriminate; simpl in *.
  - unfold click_process_article. rewrite Hi, Hb. simpl. split; [reflexivity|apply Hdis].
  - unfold click_parse_tables. rewrite Hi, Hb. simpl. split; [reflexivity|apply Hdis].
Qed.

Lemma label_at_alter_ne f r (h : heap) r' :
  r <> r' -> label_at (alter f r h) r' = label_at h r'.
Proof. intros Hne. unfold label_at. rewrite list_lookup_alter_ne by exact Hne. reflexivity. Qed.

Lemma label_at_innerHTML s r (h : heap) :
  r < length h -> is_empty s = false ->
  label_at (alter (with_innerHTML s) r h) r = [CMarkup s].
Proof.
  intros Hr Hs. unfold label_at. rewrite list_lookup_alter_eq.
  destruct (lookup_lt_is_Some_2 h r Hr) as [e ->]. simpl. rewrite Hs. reflexivity.
Qed.

Lemma find_id_distinct i j (h : heap) r r' :
  i <> j -> find_id i h = Some r -> find_id j h = Some r' -> r <> r'.
Proof.
  intros Hij Hi Hj ->.
  destruct (find_id_lookup _ _ _ Hi) as (e & He & Hid).
  destruct (find_id_lookup _ _ _ Hj) as (e' & He' & Hid').
  congruence.
Qed.


(** From the click to the moment the response has arrived, whatever else
    happens on the page in between. *)
Lemma request_in_flight f w b e i status evs1 evs2 :
  is_request f = true ->
  find_id (button_id f) (page w) = Some b ->
  page w !! b = Some e -> disabled e = false -> listeners e = [f] ->
  find_id (input_id f) (page w) = Some i ->
  forallb (fun ev => negb (settles (length (tasks w)) ev)) (evs1 ++ evs2) = true ->
  let t := length (tasks w) in
  let who := requester_of f b (page w) in
  tasks (steps w ([Click b] ++ evs1 ++ [Settle t (Response status)] ++ evs2)) !! t
  = Some (Some (if ok status then AwaitJson who else AwaitText who status)).
Proof.
  intros Hf Hb He Hd Hl Hi Hevs t who.
  rewrite forallb_app in Hevs. apply andb_prop in Hevs as [Hevs1 Hevs2].
  rewrite !steps_app.
  destruct (click_request_starts f w b e i Hf Hb He Hd Hl Hi) as (Ht1 & _).
  set (w1 := steps w [Click b]) in *. change (step w (Click b)) with w1 in Ht1.
  assert (Hp1 : tasks w1 !! t = Some (Some (AwaitFetch who))).
  { rewrite Ht1. apply list_lookup_middle. reflexivity. }
  set (w2 := steps w1 evs1).
  assert (Hp2 : tasks w2 !! t = Some (Some (AwaitFetch who))).
  { unfold w2. rewrite steps_other_task; [exact Hp1|exact Hevs1|].
    eapply lookup_lt_Some; exact Hp1. }
  set (w3 := steps w2 [Settle t (Response status)]).
  assert (Hp3 : tasks w3 !! t
                = Some (Some (if ok status then AwaitJson who else AwaitText who status))).
  { unfold w3. change (steps w2 [Settle t (Response status)])
      with (step w2 (Settle t (Response status))).
    rewrite (settle_response _ _ _ _ Hp2).
    eapply tasks_repark_same. exact Hp2. }
  rewrite steps_other_task; [exact Hp3|exact Hevs2|].
  eapply lookup_lt_Some; exact Hp3.
Qed.




(** * A parse result without tables *)

Lemma hint_shown_intro (H : heap) m n em :
  H !! m = Some em -> children em = [CNode n] -> H !! n = Some no_tables_hint ->
  hint_shown H m.
Proof.
  intros Hm Hc Hn. unfold hint_shown, content. rewrite Hm, Hc. simpl. rewrite Hn.
  reflexivity.
Qed.

Lemma renderTables_none_shown tables h m :
  find_id "tables-output" h = Some m ->
  no_tables tables = true ->
  exists h', renderTables tables h = (h', Ok tt) /\ hint_shown h' m
             /\ length h' = S (length h).
Proof.
  intros Hm Hnone. pose proof (find_id_lt _ _ _ Hm) as Hlt.
  destruct (find_id_lookup _ _ _ Hm) as (e & He & _).
  eexists. split; [exact (renderTables_none _ _ _ Hm Hnone)|]. split.
  - eapply (hint_shown_intro _ m (length h)).
    + rewrite lookup_app_l by (rewrite !length_alter; exact Hlt).
      rewrite !list_lookup_alter_eq, He. reflexivity.
    + reflexivity.
    + rewrite lookup_app_r by (rewrite !length_alter; lia).
      rewrite !length_alter, Nat.sub_diag. reflexivity.
  - rewrite length_app, !length_alter. simpl. lia.
Qed.

(** The last step of a parse request whose result has no tables. *)
Lemma parse_none_shown w t b v tables m :
  tasks w !! t = Some (Some (AwaitJson (ParseTables b))) ->
  get v "tables" = Ok tables ->
  no_tables tables = true ->
  find_id "tables-output" (page w) = Some m ->
  find_id "parse-tables-btn" (page w) = Some b ->
  let w' := step w (Settle t (BodyJson v)) in
  hint_shown (page w') m /\ unhandled w' = unhandled w.
Proof.
  intros Ht Hv Hnone Hm Hb w'. subst w'. simpl. unfold settle. rewrite Ht. cbn [postJSON_resume].
  pose proof (find_id_lt _ _ _ Hm) as Hlt.
  pose proof (find_id_lt _ _ _ Hb) as Hblt.
  destruct (find_id_lookup _ _ _ Hm) as (e & He & _).
  assert (Hne : b <> m) by (eapply find_id_distinct; [|exact Hb|exact Hm]; discriminate).
  unfold resume, resume_parse_tables, run, try_catch_finally.
  cbn [page finish with_tasks].
  rewrite bind_lift_ok, Hv, bind_lift_ok.
  rewrite (renderTables_none _ _ _ Hm Hnone).
  unfold update, bind. cbn [page unhandled with_page]. split; [|reflexivity].
  eapply (hint_shown_intro _ m (length (page w))).
  - rewrite !list_lookup_alter_ne by exact Hne.
    rewrite lookup_app_l by (rewrite !length_alter; exact Hlt).
    rewrite !list_lookup_alter_eq, He. reflexivity.
  - reflexivity.
  - rewrite !list_lookup_alter_ne by lia.
    rewrite lookup_app_r by (rewrite !length_alter; lia).
    rewrite !length_alter, Nat.sub_diag. reflexivity.
Qed.

Lemma parse_none_trace w b e i m status v tables evs1 evs2 :
  find_id "parse-tables-btn" (page w) = Some b ->
  page w !! b = Some e -> disabled e = false -> listeners e = [OnParseTables] ->
  find_id "gpt-input" (page w) = Some i ->
  find_id "tables-output" (page w) = Some m ->
  ok status = true ->
  get v "tables" = Ok tables ->
  no_tables tables = true ->
  forallb (fun ev => negb (settles (length (tasks w)) ev)) (evs1 ++ evs2) = true ->
  let t := length (tasks w) in
  let before := steps w ([Click b] ++ evs1 ++ [Settle t (Response status)] ++ evs2) in
  let w' := step before (Settle t (BodyJson v)) in
  hint_shown (page w') m /\ unhandled w' = unhandled before.
Proof.
  intros Hb He Hd Hl Hi Hm Hok Hv Hnone Hevs t before w'.
  pose proof (request_in_flight OnParseTables w b e i status evs1 evs2
                eq_refl Hb He Hd Hl Hi Hevs) as Hp.
  cbv zeta in Hp. fold t in Hp. fold before in Hp. rewrite Hok in Hp. simpl in Hp.
  assert (Hw : same_wiring (page w) (page before)) by apply steps_same_wiring.
  apply (parse_none_shown before t b v tables m Hp Hv Hnone).
  - eapply find_id_same_wiring; eauto.
  - eapply find_id_same_wiring; eauto.
Qed.

(** C4.  A click on the parse button, then a successful response whose
    body is [{tables: []}], leaves the tables area with exactly one child:
    the paragraph of class hint reading "No tables found.".  Whatever the
    area held before is gone, and no block is in it. *)
Theorem empty_table_list_shows_hint w b e i m status evs1 evs2 :
  find_id "parse-tables-btn" (page w) = Some b ->
  page w !! b = Some e -> disabled e = false -> listeners e = [OnParseTables] ->
  find_id "gpt-input" (page w) = Some i ->
  find_id "tables-output" (page w) = Some m ->
  ok status = true ->
  forallb (fun ev => negb (settles (length (tasks w)) ev)) (evs1 ++ evs2) = true ->
  let t := length (tasks w) in
  let w' := steps w ([Click b] ++ evs1 ++ [Settle t (Response status)] ++ evs2
                       ++ [Settle t (BodyJson (VObj [(lit "tables", VArr [])]))]) in
  content 2 (page w') m = [leaf "p" "hint" "No tables found."].
Proof.
  intros Hb He Hd Hl Hi Hm Hok Hevs t w'.
  destruct (parse_none_trace w b e i m status (VObj [(lit "tables", VArr [])]) (VArr [])
              evs1 evs2 Hb He Hd Hl Hi Hm Hok eq_refl eq_refl Hevs) as [H _].
  subst w'. rewrite !app_assoc, steps_app, <- !app_assoc. exact H.
Qed.

(** C4, on the sample page, after a table had been rendered there. *)
Lemma empty_table_list_shows_hint_sample :
  content 6 (page rendered_world) 6 = [block_T]
  /\ content 2
       (page (steps rendered_world
                [Click 5; Settle 1 (Response 200);
                 Settle 1 (BodyJson (VObj [(lit "tables", VArr [])]))])) 6
     = [leaf "p" "hint" "No tables found."].
Proof.
  split; [vm_compute; reflexivity|].
  refine (empty_table_list_shows_hint rendered_world 5 _ 4 6 200%N [] [] _ _ _ _ _ _ _ _);
    reflexivity.
Defined.

(** C10.  [renderTables(null)] and [renderTables(undefined)] do what
    [renderTables([])] does: they return normally and leave the single
    "No tables found." paragraph in the tables area. *)
Theorem missing_tables_shows_hint h m tables :
  find_id "tables-output" h = Some m ->
  tables = VNull \/ tables = VUndefined ->
  renderTables tables h = renderTables (VArr []) h
  /\ exists h', renderTables tables h = (h', Ok tt)
                /\ content 2 h' m = [leaf "p" "hint" "No tables found."].
Proof.
  intros Hm Htables.
  assert (Hnone : no_tables tables = true) by (destruct Htables as [-> | ->]; reflexivity).
  split.
  - rewrite (renderTables_none _ _ _ Hm Hnone).
    rewrite (renderTables_none (VArr []) _ _ Hm eq_refl). reflexivity.
  - destruct (renderTables_none_shown tables h m Hm Hnone) as (h' & E & Hs & _).
    exists h'. split; assumption.
Qed.

(** C10, on the sample page: a [null] and a missing [tables] field. *)
Lemma missing_tables_shows_hint_sample :
  renderTables VNull (page sample_world) = renderTables (VArr []) (page sample_world)
  /\ renderTables VUndefined (page sample_world) = renderTables (VArr []) (page sample_world).
Proof.
  split.
  - refine (proj1 (missing_tables_shows_hint (page sample_world) 6 VNull _ _));
      [reflexivity|left; reflexivity].
  - refine (proj1 (missing_tables_shows_hint (page sample_world) 6 VUndefined _ _));
      [reflexivity|right; reflexivity].
Defined.

(** * Copying to the clipboard *)

Lemma click_copy_starts f w b e src :
  is_request f = false ->
  copy_button f (page w) = Some b ->
  page w !! b = Some e -> disabled e = false -> listeners e = [f] ->
  copy_source f (page w) = Some src ->
  step w (Click b)
  = park (AwaitClipboard (value_at (page w) src) (Some b) (copy_idle f)) w.
Proof.
  intros Hf Hb He Hd Hl Hsrc. simpl. unfold click. rewrite He, Hd, Hl.
  destruct f; try discriminate; simpl in *.
  - unfold click_copy_article. rewrite Hsrc, Hb. reflexivity.
  - injection Hb as ->. injection Hsrc as ->. reflexivity.
Qed.

Lemma settle_written w t text b idle :
  tasks w !! t = Some (Some (AwaitClipboard text (Some b) idle)) ->
  step w (Settle t Written)
  = with_timers (timers w ++ [Timer (clock w + 1200) b idle])
      (with_page (alter (with_textContent (lit "Copied!")) b (page w))
         (with_clipboard text (finish t w))).
Proof. intros Ht. simpl. unfold settle. rewrite Ht. reflexivity. Qed.

Lemma settle_denied w t text btn idle m :
  tasks w !! t = Some (Some (AwaitClipboard text btn idle)) ->
  step w (Settle t (Rejected m)) = reject (JsError m) (finish t w).
Proof. intros Ht. simpl. unfold settle. rewrite Ht. reflexivity. Qed.

Lemma label_at_textContent a s r (h : heap) :
  r < length h ->
  label_at (alter (with_textContent (lit (String a s))) r h) r = [CText (lit (String a s))].
Proof.
  intros Hr. unfold label_at. rewrite list_lookup_alter_eq.
  destruct (lookup_lt_is_Some_2 h r Hr) as [e ->]. reflexivity.
Qed.

Lemma length_fire_all tms (h : heap) : length (fold_left fire tms h) = length h.
Proof.
  revert h; induction tms as [|tm tms IH]; intros h; simpl; [reflexivity|].
  rewrite IH. apply length_alter.
Qed.

Lemma label_at_fire_others tms (h : heap) b :
  Forall (fun tm => timer_btn tm <> b) tms ->
  label_at (fold_left fire tms h) b = label_at h b.
Proof.
  intros Hall. revert h. induction Hall as [|tm tms Hne _ IH]; intros h; simpl; [reflexivity|].
  rewrite IH. apply label_at_alter_ne. exact Hne.
Qed.

Lemma Forall_filter {A} (P : A -> Prop) p (l : list A) :
  Forall P l -> Forall P (List.filter p l).
Proof.
  induction 1 as [|x l Hx _ IH]; simpl; [constructor|].
  destruct (p x); [constructor; assumption|assumption].
Qed.

(** What the timer of a finished copy does when time passes. *)
Lemma elapse_after_copy (h : heap) tms c b a s ms :
  b < length h ->
  ((1200 <= ms)%N ->
     label_at (fold_left fire
                 (List.filter (fun tm => (due tm <=? c + ms)%N)
                    (tms ++ [Timer (c + 1200) b (lit (String a s))])) h) b
     = [CText (lit (String a s))])
  /\ ((ms < 1200)%N -> Forall (fun tm => timer_btn tm <> b) tms ->
      label_at (fold_left fire
                  (List.filter (fun tm => (due tm <=? c + ms)%N)
                     (tms ++ [Timer (c + 1200) b (lit (String a s))])) h) b
      = label_at h b).
Proof.
  intros Hb. rewrite List.filter_app. cbn [List.filter due].
  split.
  - intros Hms. replace (c + 1200 <=? c + ms)%N with true
      by (symmetry; apply N.leb_le; lia).
    rewrite fold_left_app. cbn [fold_left fire timer_btn timer_label].
    apply label_at_textContent. rewrite length_fire_all. exact Hb.
  - intros Hms Hall. replace (c + 1200 <=? c + ms)%N with false
      by (symmetry; apply N.leb_gt; lia).
    rewrite app_nil_r. apply label_at_fire_others.
    apply Forall_filter. exact Hall.
Qed.

(** From the click on a copy button to the moment the clipboard write
    settles, whatever else happens in between. *)
Lemma copy_in_flight f w b e src evs :
  is_request f = false ->
  copy_button f (page w) = Some b ->
  page w !! b = Some e -> disabled e = false -> listeners e = [f] ->
  copy_source f (page w) = Some src ->
  forallb (fun ev => negb (settles (length (tasks w)) ev)) evs = true ->
  let before := steps w ([Click b] ++ evs) in
  tasks before !! length (tasks w)
  = Some (Some (AwaitClipboard (value_at (page w) src) (Some b) (copy_idle f)))
  /\ b < length (page before).
Proof.
  intros Hf Hb He Hd Hl Hsrc Hevs before. subst before.
  split.
  - rewrite steps_app.
    change (steps w [Click b]) with (step w (Click b)).
    rewrite (click_copy_starts f w b e src Hf Hb He Hd Hl Hsrc).
    rewrite steps_other_task.
    + simpl. apply list_lookup_middle. reflexivity.
    + exact Hevs.
    + simpl. rewrite length_app. simpl. lia.
  - destruct (steps_same_wiring ([Click b] ++ evs) w) as [Hlen _].
    apply lookup_lt_Some in He. lia.
Qed.

(** The button [renderTableBlock] creates is a copy button: enabled,
    labelled "Copy JSON", with one listener, which reads the block's
    textarea holding the table's JSON. *)
Lemma rendered_copy_button t h c :
  is_table t = true ->
  c < length h ->
  exists h' jsonOut btn e,
    renderTableBlock c t h = (h', Ok tt)
    /\ h' !! btn = Some e
    /\ listeners e = [OnCopyJson jsonOut btn]
    /\ disabled e = false
    /\ label_at h' btn = [CText (lit "Copy JSON")]
    /\ value_at h' jsonOut = json_text t.
Proof.
  intros Ht Hc.
  destruct (renderTableBlock_closed t h c Ht Hc) as (title & tbl & _ & E).
  remember (length h) as n eqn:Hn. symmetry in Hn.
  set (H' := alter (with_child n) c h ++ block_elements n title tbl t) in *.
  assert (HL : forall k, H' !! (n + (4 + length tbl + k))
                         = [ with_className "label"
                               (with_textContent (lit "Table JSON") (blank "label"));
                             with_value (json_text t)
                               (with_readOnly true
                                  (with_rows 8
                                     (with_className "textarea condensed-output"
                                        (blank "textarea"))));
                             with_listener
                               (OnCopyJson (n + 4 + length tbl + 1) (n + 4 + length tbl + 2))
                               (with_textContent (lit "Copy JSON")
                                  (with_className "btn secondary" (blank "button")));
                             with_child (n + 4 + length tbl + 2)
                               (with_className "actions" (blank "div")) ] !! k).
  { intros k. unfold H'. rewrite (lookup_new _ _ n) by (rewrite length_alter; exact Hn).
    unfold block_elements.
    rewrite lookup_app_r by (simpl; lia). rewrite lookup_app_r by (simpl; lia).
    f_equal. simpl. lia. }
  pose proof (HL 1) as Hj. pose proof (HL 2) as Hb. cbn [lookup list_lookup] in Hj, Hb.
  replace (n + (4 + length tbl + 1)) with (n + 4 + length tbl + 1) in Hj by lia.
  replace (n + (4 + length tbl + 2)) with (n + 4 + length tbl + 2) in Hb by lia.
  rewrite with_value_json_text in Hj.
  exists H', (n + 4 + length tbl + 1), (n + 4 + length tbl + 2). eexists.
  split; [exact E|]. split; [exact Hb|].
  unfold label_at, value_at. rewrite Hj, Hb. repeat split.
Qed.

(** C8.  When the clipboard write of either copy handler is rejected,
    nothing on the page changes (no "Copied!", no message), the clipboard
    and the timers stay as they were, and the error ends as an unhandled
    rejection: no handler catches it. *)
Theorem clipboard_failure_is_silent f w b e src evs m :
  is_request f = false ->
  copy_button f (page w) = Some b ->
  page w !! b = Some e -> disabled e = false -> listeners e = [f] ->
  copy_source f (page w) = Some src ->
  forallb (fun ev => negb (settles (length (tasks w)) ev)) evs = true ->
  let t := length (tasks w) in
  let before := steps w ([Click b] ++ evs) in
  let w' := step before (Settle t (Rejected m)) in
  page w' = page before
  /\ clipboard w' = clipboard before
  /\ timers w' = timers before
  /\ unhandled w' = unhandled before ++ [JsError m]
  /\ tasks w' !! t = Some None.
Proof.
  intros Hf Hb He Hd Hl Hsrc Hevs t before w'.
  destruct (copy_in_flight f w b e src evs Hf Hb He Hd Hl Hsrc Hevs) as [Hp _].
  fold before in Hp. fold t in Hp.
  unfold w'. rewrite (settle_denied before t _ _ _ m Hp). simpl.
  repeat split. apply list_lookup_insert_eq. eapply lookup_lt_Some. exact Hp.
Qed.

(** C8, on the sample page: both kinds of copy button. *)
Lemma clipboard_failure_is_silent_sample :
  (let w' := steps rendered_world [Click 3; Settle 1 (Rejected (lit "denied"))] in
   page w' = page rendered_world /\ unhandled w' = [JsError (lit "denied")])
  /\ (let w' := steps rendered_world [Click 22; Settle 1 (Rejected (lit "denied"))] in
      page w' = page rendered_world /\ unhandled w' = [JsError (lit "denied")]).
Proof.
  split.
  - pose proof (clipboard_failure_is_silent OnCopyArticle rendered_world 3 _ 2 []
                  (lit "denied") eq_refl eq_refl eq_refl eq_refl eq_refl eq_refl eq_refl) as H.
    cbv zeta in H. destruct H as (Hpage & _ & _ & Hun & _).
    split; [exact Hpage|exact Hun].
  - pose proof (clipboard_failure_is_silent (OnCopyJson 21 22) rendered_world 22 _ 21 []
                  (lit "denied") eq_refl eq_refl eq_refl eq_refl eq_refl eq_refl eq_refl) as H.
    cbv zeta in H. destruct H as (Hpage & _ & _ & Hun & _).
    split; [exact Hpage|exact Hun].
Defined.

(** * Tables with missing fields and ragged rows *)

Lemma missing_seq_is_empty k fs :
  has_field (lit k) fs = false ->
  or_else (lookup_field (lit k) fs) (VArr [])
  = or_else (lookup_field (lit k) ((lit k, VArr []) :: fs)) (VArr []).
Proof.
  intros Habs. rewrite (lookup_absent _ _ Habs). simpl.
  assert (E : forall s, jseqb s s = true).
  { induction s as [|c s IH]; simpl; [reflexivity|]. rewrite N.eqb_refl. exact IH. }
  rewrite E. reflexivity.
Qed.

(** C7.  For every table of the data model, every field optional and rows
    of any length: [renderReadonlyTable] and [renderTableBlock] return
    normally, a missing [headers] renders like [headers: []] and a missing
    [rows] like [rows: []]. *)
Theorem renderer_is_defensive t c h :
  is_table t = true ->
  (exists h' tbl, renderReadonlyTable t h = (h', Ok tbl))
  /\ (exists h', renderTableBlock c t h = (h', Ok tt))
  /\ (forall fs, t = VObj fs -> has_field (lit "headers") fs = false ->
      renderReadonlyTable t h
      = renderReadonlyTable (VObj ((lit "headers", VArr []) :: fs)) h)
  /\ (forall fs, t = VObj fs -> has_field (lit "rows") fs = false ->
      renderReadonlyTable t h
      = renderReadonlyTable (VObj ((lit "rows", VArr []) :: fs)) h).
Proof.
  intros Ht. split; [|split; [|split]].
  - destruct (renderReadonlyTable_succeeds t Ht h) as (h' & tbl & E). eauto.
  - destruct (renderTableBlock_succeeds c t Ht h) as (h' & [] & E). eauto.
  - intros fs -> Habs.
    assert (Erows : lookup_field (lit "rows") ((lit "headers", VArr []) :: fs)
                    = lookup_field (lit "rows") fs) by reflexivity.
    unfold renderReadonlyTable, get, bind, lift, createElement, update.
    cbn beta iota. rewrite Erows, (missing_seq_is_empty "headers" fs Habs). reflexivity.
  - intros fs -> Habs.
    assert (Eheaders : lookup_field (lit "headers") ((lit "rows", VArr []) :: fs)
                       = lookup_field (lit "headers") fs) by reflexivity.
    unfold renderReadonlyTable, get, bind, lift, createElement, update.
    cbn beta iota. rewrite Eheaders, (missing_seq_is_empty "rows" fs Habs). reflexivity.
Qed.

(** C7, on the sample page: a ragged table renders, and a table without
    headers renders like one with an empty header sequence. *)
Lemma renderer_is_defensive_sample :
  (exists h', renderTableBlock 6 ragged_table sample_page = (h', Ok tt))
  /\ renderReadonlyTable bare_table sample_page
     = renderReadonlyTable
         (VObj [(lit "headers", VArr []); (lit "title", VStr (lit "bare"))]) sample_page.
Proof.
  split.
  - exact (proj1 (proj2 (renderer_is_defensive ragged_table 6 sample_page eq_refl))).
  - exact (proj1 (proj2 (proj2 (renderer_is_defensive bare_table 6 sample_page eq_refl)))
             _ eq_refl eq_refl).
Defined.

(** Outside the data model the renderer does throw: a row that is not a
    sequence has no [forEach], a title that is a number has no [trim]. *)
Example row_must_be_a_sequence :
  snd (renderReadonlyTable (VObj [(lit "rows", VArr [VStr (lit "x")])]) sample_page)
  = Throw (EngineTypeError (NotAFunction "forEach")).
Proof. reflexivity. Qed.

Example title_must_be_text :
  snd (renderTableBlock 6 (VObj [(lit "title", VNum 5)]) sample_page)
  = Throw (EngineTypeError (NotAFunction "trim")).
Proof. reflexivity. Qed.

(** * The title of a block *)

Section Trim.

Lemma trimStart_spec s :
  exists pre, s = pre ++ trimStart s /\ forallb is_ws pre = true
              /\ (forall c, head (trimStart s) = Some c -> is_ws c = false).
Proof.
  induction s as [|c s (pre & E & Hpre & Hhd)]; simpl.
  - exists []. repeat split. discriminate.
  - destruct (is_ws c) eqn:Hc.
    + exists (c :: pre). simpl. rewrite Hc, Hpre. repeat split; [congruence|exact Hhd].
    + exists []. repeat split. simpl. congruence.
Qed.

Lemma trimStart_all_ws s : forallb is_ws s = true -> trimStart s = [].
Proof.
  induction s as [|c s IH]; simpl; [reflexivity|].
  intros H. apply andb_prop in H as [-> H]. exact (IH H).
Qed.

Lemma trimStart_some s : forallb is_ws s = false -> trimStart s <> [].
Proof.
  induction s as [|c s IH]; simpl; [discriminate|].
  destruct (is_ws c); simpl; [exact IH|discriminate].
Qed.

Lemma forallb_rev (p : N -> bool) s : forallb p (rev s) = forallb p s.
Proof.
  induction s as [|c s IH]; simpl; [reflexivity|].
  rewrite forallb_app, IH. simpl. rewrite andb_true_r, andb_comm. reflexivity.
Qed.

Lemma head_rev (s : jsstring) : head (rev s) = last s.
Proof.
  induction s as [|c s IH] using rev_ind; [reflexivity|].
  rewrite rev_app_distr, last_snoc. reflexivity.
Qed.

Lemma trim_spec s : is_trim_of s (trim s).
Proof.
  unfold trim, trimEnd.
  destruct (trimStart_spec s) as (pre & E & Hpre & Hhd).
  set (u := trimStart s) in *.
  destruct (trimStart_spec (rev u)) as (erp & E' & Herp & Hhd').
  set (v := trimStart (rev u)) in *.
  assert (Eu : u = rev v ++ rev erp).
  { rewrite <- rev_app_distr, <- E', rev_involutive. reflexivity. }
  exists pre, (rev erp). split; [rewrite <- Eu; exact E|].
  split; [exact Hpre|]. split; [rewrite forallb_rev; exact Herp|]. split.
  - intros c Hc. apply Hhd. rewrite Eu.
    destruct (rev v); [discriminate|exact Hc].
  - intros c Hc. apply Hhd'. rewrite <- head_rev, rev_involutive in Hc. exact Hc.
Qed.

Lemma trim_all_ws s : forallb is_ws s = true -> trim s = [].
Proof.
  intros H. unfold trim. rewrite (trimStart_all_ws _ H). reflexivity.
Qed.

Lemma trim_some s : forallb is_ws s = false -> is_empty (trim s) = false.
Proof.
  intros H. destruct (trim_spec s) as (pre & post & E & Hpre & Hpost & _).
  destruct (trim s); [|reflexivity].
  simpl in E. rewrite E, forallb_app, Hpre, Hpost in H. discriminate.
Qed.

End Trim.

Lemma title_text_cases fs title :
  field_ok "title" is_text fs = true ->
  title_text (VObj fs) = Ok title ->
  (has_field (lit "title") fs = false -> title = lit "(untitled)")
  /\ (forall s, lookup_field (lit "title") fs = VStr s ->
      title = if forallb is_ws s then lit "(untitled)" else trim s).
Proof.
  unfold field_ok, title_text, get. intros Hok Et. split.
  - intros Habs. rewrite (lookup_absent _ _ Habs) in Et. injection Et as <-. reflexivity.
  - intros s Es. rewrite Es in Et.
    assert (Etrim : call_trim (or_else (VStr s) (VStr [])) = Ok (trim s)).
    { destruct s; reflexivity. }
    rewrite Etrim in Et. injection Et as <-.
    destruct (forallb is_ws s) eqn:Hws.
    + rewrite (trim_all_ws _ Hws). reflexivity.
    + rewrite (trim_some _ Hws). reflexivity.
Qed.

(** C9.  The block rendered for a table becomes the last child of the
    container, and its title line shows "(untitled)" when the table has no
    [title], an empty one or one made of whitespace only; otherwise it shows
    [title.trim()], which is the title without the whitespace at its two
    ends. *)
Theorem title_is_trimmed_or_placeholder fs c h :
  is_table (VObj fs) = true ->
  c < length h ->
  exists h' shown,
    renderTableBlock c (VObj fs) h = (h', Ok tt)
    /\ last (label_at h' c) = Some (CNode (length h))
    /\ block_title h' (length h) = Some shown
    /\ (has_field (lit "title") fs = false -> shown = lit "(untitled)")
    /\ (forall s, lookup_field (lit "title") fs = VStr s ->
        forallb is_ws s = true -> shown = lit "(untitled)")
    /\ (forall s, lookup_field (lit "title") fs = VStr s ->
        forallb is_ws s = false -> shown = trim s /\ is_trim_of s shown).
Proof.
  intros Ht Hc.
  destruct (renderTableBlock_closed (VObj fs) h c Ht Hc) as (title & tbl & Et & E).
  simpl in Ht. apply andb_prop in Ht as [Ht _]. apply andb_prop in Ht as [Htitle _].
  destruct (title_text_cases fs title Htitle Et) as [Habsent Htext].
  destruct (lookup_lt_is_Some_2 h c Hc) as [ec Hec].
  remember (length h) as n eqn:Hn. symmetry in Hn.
  set (H' := alter (with_child n) c h ++ block_elements n title tbl (VObj fs)) in *.
  assert (HL : forall j, H' !! (n + j) = block_elements n title tbl (VObj fs) !! j).
  { intros j. apply lookup_new. rewrite length_alter. exact Hn. }
  assert (Hc' : H' !! c = Some (with_child n ec)).
  { unfold H'. rewrite lookup_app_l by (rewrite length_alter; lia).
    rewrite list_lookup_alter_eq, Hec. reflexivity. }
  exists H', title. split; [exact E|]. clearbody H'.
  split; [|split; [|split; [|split]]].
  - unfold label_at. rewrite Hc'. simpl. apply last_snoc.
  - pose proof (HL 0) as HL0. rewrite Nat.add_0_r in HL0.
    unfold block_title, label_at.
    rewrite HL0. cbn [block_elements lookup list_lookup app].
    cbn [children with_child with_children with_className blank app].
    rewrite HL. cbn [block_elements lookup list_lookup app].
    cbn [children with_child with_children with_className blank app].
    rewrite HL. cbn [block_elements lookup list_lookup app].
    cbn [children with_textContent with_children blank].
    destruct title; reflexivity.
  - exact Habsent.
  - intros s Es Hws. rewrite (Htext s Es), Hws. reflexivity.
  - intros s Es Hws. rewrite (Htext s Es), Hws. split; [reflexivity|apply trim_spec].
Qed.

(** C9, on the sample page: a padded title, a blank one and none. *)
Lemma title_is_trimmed_or_placeholder_sample :
  (exists h', renderTableBlock 6 (VObj [(lit "title", VStr (lit "  T 1 "))]) sample_page
              = (h', Ok tt)
              /\ block_title h' 7 = Some (lit "T 1"))
  /\ (exists h', renderTableBlock 6 (VObj [(lit "title", VStr (lit "   "))]) sample_page
                 = (h', Ok tt)
                 /\ block_title h' 7 = Some (lit "(untitled)"))
  /\ (exists h', renderTableBlock 6 (VObj []) sample_page = (h', Ok tt)
                 /\ block_title h' 7 = Some (lit "(untitled)")).
Proof.
  split; [|split].
  - destruct (title_is_trimmed_or_placeholder
                [(lit "title", VStr (lit "  T 1 "))] 6 sample_page eq_refl
                ltac:(simpl; lia))
      as (h' & shown & E & _ & Hb & _ & _ & Hsome).
    exists h'. split; [exact E|].
    destruct (Hsome (lit "  T 1 ") eq_refl eq_refl) as [-> _]. exact Hb.
  - destruct (title_is_trimmed_or_placeholder
                [(lit "title", VStr (lit "   "))] 6 sample_page eq_refl
                ltac:(simpl; lia))
      as (h' & shown & E & _ & Hb & _ & Hblank & _).
    exists h'. split; [exact E|].
    rewrite (Hblank (lit "   ") eq_refl eq_refl) in Hb. exact Hb.
  - destruct (title_is_trimmed_or_placeholder [] 6 sample_page eq_refl ltac:(simpl; lia))
      as (h' & shown & E & _ & Hb & Habs & _).
    exists h'. split; [exact E|]. rewrite (Habs eq_refl) in Hb. exact Hb.
Defined.

(** * One request per button

    The invariant behind the disabled button: a request handler hangs on
    the button it looks up, a button with a pending request is disabled,
    and no button has two pending requests. *)

Section Invariant.
Implicit Types (w : world) (h : heap).

Lemma wired_same_wiring h h' : same_wiring h h' -> wired h -> wired h'.
Proof.
  intros Hsw Hwired r f Hin. destruct Hsw as [Hlen Hw].
  rewrite Hw in Hin. rewrite Hw. destruct (Hwired r f Hin) as [Hfind Heq].
  split; [|exact Heq].
  eapply find_id_same_wiring; [split; eassumption|exact Hfind].
Qed.

(** Page changes that keep wiring and [disabled], and task changes that
    keep the button of every pending request, keep the invariant. *)
Lemma consistent_frame w w' :
  consistent w ->
  keeps (page w) (page w') ->
  (forall t k b, tasks w' !! t = Some (Some k) -> button_of k = Some b ->
     exists k0, tasks w !! t = Some (Some k0) /\ button_of k0 = Some b) ->
  consistent w'.
Proof.
  intros [Hw Hd Hu] [Hsw Hdis] Hback. split.
  - eapply wired_same_wiring; eauto.
  - intros t k b Ht Hb. destruct (Hback t k b Ht Hb) as (k0 & Ht0 & Hb0).
    rewrite Hdis. eapply Hd; eauto.
  - intros t t' k k' b Ht Ht' Hb Hb'.
    destruct (Hback t k b Ht Hb) as (k0 & Ht0 & Hb0).
    destruct (Hback t' k' b Ht' Hb') as (k0' & Ht0' & Hb0').
    eapply Hu; eauto.
Qed.

Lemma lookup_insert_pending (ts : list (option task)) t t' x k :
  <[t := x]> ts !! t' = Some (Some k) ->
  (t' = t /\ x = Some k) \/ (t' <> t /\ ts !! t' = Some (Some k)).
Proof.
  intros H. destruct (Nat.eq_dec t t') as [<-|Hne].
  - left. split; [reflexivity|].
    destruct (Nat.lt_ge_cases t (length ts)) as [Hlt|Hge].
    + rewrite list_lookup_insert_eq in H by exact Hlt. congruence.
    + rewrite list_insert_ge in H by exact Hge.
      apply lookup_lt_Some in H. lia.
  - right. rewrite list_lookup_insert_ne in H by exact Hne. auto.
Qed.

Lemma lookup_snoc_pending (ts : list (option task)) x t k :
  (ts ++ [x]) !! t = Some (Some k) ->
  (t = length ts /\ x = Some k) \/ (t < length ts /\ ts !! t = Some (Some k)).
Proof.
  intros H. destruct (Nat.lt_ge_cases t (length ts)) as [Hlt|Hge].
  - right. rewrite lookup_app_l in H by exact Hlt. auto.
  - left. rewrite lookup_app_r in H by exact Hge.
    destruct (t - length ts) as [|n] eqn:E; simpl in H; [|destruct n; discriminate].
    split; [lia|congruence].
Qed.

Lemma consistent_reject e w : consistent w -> consistent (reject e w).
Proof.
  intros H. apply (consistent_frame w); [exact H|apply keeps_refl|].
  intros t k b Ht Hb. eauto.
Qed.

Lemma consistent_park_copy text btn idle w :
  consistent w -> consistent (park (AwaitClipboard text btn idle) w).
Proof.
  intros H. apply (consistent_frame w); [exact H|apply keeps_refl|].
  intros t k b Ht Hb. simpl in Ht.
  apply lookup_snoc_pending in Ht as [[_ [= <-]]|[_ Ht]]; [discriminate|eauto].
Qed.

Lemma disabled_at_set r r' h :
  r < length h ->
  disabled_at h r' = true \/ r' = r ->
  disabled_at (alter (with_disabled true) r h) r' = true.
Proof.
  intros Hr H. unfold disabled_at in *.
  destruct (Nat.eq_dec r r') as [<-|Hne].
  - rewrite list_lookup_alter_eq.
    destruct (lookup_lt_is_Some_2 h r Hr) as [e ->]. reflexivity.
  - rewrite list_lookup_alter_ne by exact Hne.
    destruct H as [H|H]; [exact H|congruence].
Qed.

(** A request handler that runs while its button is enabled. *)
Lemma consistent_request_start w w' b who label :
  consistent w ->
  b < length (page w) ->
  disabled_at (page w) b = false ->
  requester_button who = b ->
  page w' = alter (with_textContent label) b (alter (with_disabled true) b (page w)) ->
  tasks w' = tasks w ++ [Some (AwaitFetch who)] ->
  consistent w'.
Proof.
  intros [Hw Hd Hu] Hb Hen Hwho Hpage Htasks. split.
  - rewrite Hpage. eapply wired_same_wiring; [|exact Hw].
    eapply same_wiring_trans; apply same_wiring_alter.
    + apply harmless_disabled.
    + apply benign_textContent.
  - intros t k b' Ht Hb'. rewrite Hpage, Htasks in *.
    rewrite disabled_at_alter by reflexivity.
    apply disabled_at_set; [exact Hb|].
    apply lookup_snoc_pending in Ht as [[_ [= <-]]|[_ Ht]].
    + right. change (Some (requester_button who) = Some b') in Hb'. congruence.
    + left. eapply Hd; eauto.
  - intros t t' k k' b' Ht Ht' Hk Hk'. rewrite Htasks in *.
    apply lookup_snoc_pending in Ht as [[-> [= <-]]|[Hlt Ht]];
      apply lookup_snoc_pending in Ht' as [[-> [= <-]]|[Hlt' Ht']].
    + reflexivity.
    + change (Some (requester_button who) = Some b') in Hk.
      assert (b' = b) as -> by congruence.
      rewrite (Hd _ _ _ Ht' Hk') in Hen. discriminate.
    + change (Some (requester_button who) = Some b') in Hk'.
      assert (b' = b) as -> by congruence.
      rewrite (Hd _ _ _ Ht Hk) in Hen. discriminate.
    + eapply Hu; eauto.
Qed.

Lemma run_handlers_consistent fs w r :
  consistent w ->
  List.filter is_request fs = []
  \/ (exists f, List.filter is_request fs = [f]
                /\ find_id (button_id f) (page w) = Some r
                /\ disabled_at (page w) r = false) ->
  consistent (fold_left (fun w f => run_handler f w) fs w).
Proof.
  revert w. induction fs as [|f fs IH]; intros w Hc Hfs; simpl; [exact Hc|].
  simpl in Hfs. destruct (is_request f) eqn:Hreq.
  - destruct Hfs as [Hnil|(f' & Hone & Hfind & Hen)]; [discriminate|].
    injection Hone as <- Hrest.
    destruct (run_handler_effect f w) as [e E|text btn idle Hf E|b who label _ Hb Hwho Hpage Htasks].
    + apply IH; [rewrite E; apply consistent_reject; exact Hc|left; exact Hrest].
    + congruence.
    + apply IH; [|left; exact Hrest].
      assert (b = r) as -> by congruence.
      eapply consistent_request_start; eauto.
      eapply find_id_lt; eauto.
  - destruct (run_handler_effect f w) as [e E|text btn idle Hf E|b who label Hf _ _ _ _].
    + apply IH; [rewrite E; apply consistent_reject; exact Hc|].
      rewrite E. exact Hfs.
    + apply IH; [rewrite E; apply consistent_park_copy; exact Hc|].
      rewrite E. exact Hfs.
    + congruence.
Qed.

Lemma consistent_click r w : consistent w -> consistent (click r w).
Proof.
  intros Hc. unfold click. destruct (page w !! r) as [e|] eqn:He; [|exact Hc].
  destruct (disabled e) eqn:Hd; [exact Hc|].
  apply (run_handlers_consistent _ _ r); [exact Hc|].
  pose proof (inv_wired w Hc r) as Hw. unfold wiring_at in Hw. rewrite He in Hw.
  simpl in Hw.
  destruct (List.filter is_request (listeners e)) as [|f rest] eqn:Hfs; [left; reflexivity|].
  right. destruct (Hw f (or_introl eq_refl)) as [Hfind Hone].
  exists f. split; [exact Hone|]. split; [exact Hfind|].
  unfold disabled_at. rewrite He. exact Hd.
Qed.

(** A request that finishes: the finally block enables its button. *)
Lemma consistent_request_finish w t k who r :
  consistent w ->
  tasks w !! t = Some (Some k) ->
  button_of k = Some (requester_button who) ->
  consistent (resume who r (finish t w)).
Proof.
  intros [Hw Hd Hu] Ht Hk.
  destruct (page_resume who r (finish t w)) as (h2 & [Hsw Hdis] & Hpage).
  change (page (finish t w)) with (page w) in *.
  set (b := requester_button who) in *.
  assert (Hpending : forall t' k', tasks (resume who r (finish t w)) !! t' = Some (Some k') ->
                       t' <> t /\ tasks w !! t' = Some (Some k')).
  { intros t' k' H. rewrite tasks_resume in H. simpl in H.
    apply lookup_insert_pending in H as [[_ [=]]|H]. exact H. }
  split.
  - rewrite Hpage. eapply wired_same_wiring; [|exact Hw].
    eapply same_wiring_trans; [exact Hsw|].
    eapply same_wiring_trans; apply same_wiring_alter.
    + apply harmless_disabled.
    + apply benign_textContent.
  - intros t' k' b' Ht' Hb'. destruct (Hpending _ _ Ht') as [Hne Ht0].
    assert (b <> b').
    { intros <-. apply Hne. eapply Hu; eauto. }
    rewrite Hpage, !disabled_at_alter_ne by assumption.
    rewrite Hdis. eapply Hd; eauto.
  - intros t1 t2 k1 k2 b' H1 H2 Hb1 Hb2.
    destruct (Hpending _ _ H1) as [_ H1']. destruct (Hpending _ _ H2) as [_ H2'].
    eapply Hu; eauto.
Qed.

Lemma consistent_settle t o w : consistent w -> consistent (settle t o w).
Proof.
  intros Hc. unfold settle. destruct (tasks w !! t) as [[k|]|] eqn:Ht; try exact Hc.
  assert (Hrepark : forall k', button_of k' = button_of k -> consistent (repark t k' w)).
  { intros k' Hk'. apply (consistent_frame w); [exact Hc|apply keeps_refl|].
    intros t' k0 b H Hb. simpl in H.
    apply lookup_insert_pending in H as [[-> [= <-]]|[_ H]].
    - exists k. split; [exact Ht|congruence].
    - eauto. }
  assert (Hdone : forall w', keeps (page w) (page w') ->
                    tasks w' = <[t := None]> (tasks w) -> consistent w').
  { intros w' Hk Htasks. apply (consistent_frame w); [exact Hc|exact Hk|].
    intros t' k0 b H Hb. rewrite Htasks in H.
    apply lookup_insert_pending in H as [[_ [=]]|[_ H]]. eauto. }
  destruct k, o; cbn [postJSON_resume]; try exact Hc;
    try (eapply consistent_request_finish; [exact Hc|exact Ht|reflexivity]).
  - apply Hrepark. destruct (ok status); reflexivity.
  - unfold copied. destruct btn as [b|]; simpl.
    + apply Hdone; [|reflexivity]. simpl. apply keeps_alter. apply benign_textContent.
    + apply Hdone; [apply keeps_refl|reflexivity].
  - apply Hdone; [apply keeps_refl|reflexivity].
Qed.

Lemma consistent_step w ev : consistent w -> consistent (step w ev).
Proof.
  intros Hc. destruct ev as [r|t o|ms]; simpl.
  - apply consistent_click. exact Hc.
  - apply consistent_settle. exact Hc.
  - apply (consistent_frame w); [exact Hc|apply fire_all_keeps|].
    intros t k b Ht Hb. eauto.
Qed.

Lemma consistent_steps evs w : consistent w -> consistent (steps w evs).
Proof.
  revert w. induction evs as [|ev evs IH]; intros w Hc; [exact Hc|].
  change (steps w (ev :: evs)) with (steps (step w ev) evs).
  apply IH. apply consistent_step. exact Hc.
Qed.

End Invariant.

(** * The script's top level establishes the invariant *)

Section Main.
Implicit Types (w : world) (h : heap).

Lemma bind_update {B} r f (k : unit -> dom B) h :
  bind (update r f) k h = k tt (alter f r h).
Proof. reflexivity. Qed.

Lemma harmless_copy_listener f : is_request f = false -> harmless (with_listener f).
Proof.
  intros Hf e. unfold wiring. simpl. rewrite List.filter_app. simpl.
  rewrite Hf, app_nil_r. reflexivity.
Qed.

Lemma elem_id_with_listener f e : elem_id (with_listener f e) = elem_id e.
Proof. reflexivity. Qed.

Lemma wiring_at_alter_ne f r h r' : r <> r' -> wiring_at (alter f r h) r' = wiring_at h r'.
Proof. intros Hne. unfold wiring_at. rewrite list_lookup_alter_ne by exact Hne. reflexivity. Qed.

Lemma wired_add_request h r f :
  wired h -> is_request f = true ->
  find_id (button_id f) h = Some r -> snd (wiring_at h r) = [] ->
  wired (alter (with_listener f) r h).
Proof.
  intros Hw Hf Hfind Hnone r' f' Hin.
  rewrite !find_id_alter by apply elem_id_with_listener.
  destruct (Nat.eq_dec r r') as [<-|Hne].
  - assert (E : snd (wiring_at (alter (with_listener f) r h) r) = [f]).
    { unfold wiring_at in *. rewrite list_lookup_alter_eq.
      destruct (find_id_lookup _ _ _ Hfind) as (e & He & _). rewrite He in *.
      simpl in *. rewrite List.filter_app, Hnone. simpl. rewrite Hf. reflexivity. }
    rewrite E in Hin. destruct Hin as [<-|[]]. split; [exact Hfind|exact E].
  - rewrite wiring_at_alter_ne in * by exact Hne. apply Hw. exact Hin.
Qed.

Lemma wired_add_copy h r f :
  wired h -> is_request f = false -> wired (alter (with_listener f) r h).
Proof.
  intros Hw Hf. eapply wired_same_wiring; [|exact Hw].
  apply same_wiring_alter. apply harmless_copy_listener. exact Hf.
Qed.

Lemma main_wired w : (forall r, snd (wiring_at (page w) r) = []) -> wired (page (main w)).
Proof.
  intros Hnone. unfold main. rewrite page_run.
  set (h := page w) in *.
  assert (Hw0 : wired h). { intros r f Hin. rewrite Hnone in Hin. destruct Hin. }
  rewrite bind_getElementById.
  destruct (find_id "process-article-btn" h) as [p|] eqn:Hp; cbn [non_null];
    [rewrite bind_lift_ok|exact Hw0].
  rewrite bind_update.
  assert (Hw1 : wired (alter (with_listener OnProcessArticle) p h))
    by (apply wired_add_request; auto).
  rewrite bind_getElementById, find_id_alter by apply elem_id_with_listener.
  destruct (find_id "copy-article-btn" h) as [c|] eqn:Hcp; cbn [non_null];
    [rewrite bind_lift_ok|exact Hw1].
  rewrite bind_update.
  assert (Hw2 : wired (alter (with_listener OnCopyArticle) c
                         (alter (with_listener OnProcessArticle) p h)))
    by (apply wired_add_copy; auto).
  rewrite bind_getElementById, !find_id_alter by apply elem_id_with_listener.
  destruct (find_id "parse-tables-btn" h) as [q|] eqn:Hq; cbn [non_null];
    [rewrite bind_lift_ok|exact Hw2].
  unfold update. cbn [fst].
  apply wired_add_request; [exact Hw2|reflexivity| |].
  - rewrite !find_id_alter by apply elem_id_with_listener. exact Hq.
  - rewrite wiring_at_alter by (apply harmless_copy_listener; reflexivity).
    rewrite wiring_at_alter_ne; [apply Hnone|].
    eapply find_id_distinct; [|exact Hp|exact Hq]. discriminate.
Qed.

Lemma main_consistent w : fresh w -> consistent (main w).
Proof.
  intros (Htasks & _ & Hbare).
  assert (Hnone : forall r, snd (wiring_at (page w) r) = []).
  { intros r. unfold wiring_at. destruct (page w !! r) as [e|] eqn:He; [|reflexivity].
    simpl. rewrite (Hbare r e He). reflexivity. }
  split.
  - apply main_wired. exact Hnone.
  - intros t k b Ht. unfold main in Ht. rewrite tasks_run, Htasks in Ht. discriminate.
  - intros t t' k k' b Ht. unfold main in Ht. rewrite tasks_run, Htasks in Ht. discriminate.
Qed.

End Main.

(** C5.  In every state the page can reach after the script has loaded:
    a click on an enabled request button parks a request and disables the
    button; while a request is pending its button is disabled; and the
    settlement that ends the request, whatever its outcome, leaves the
    button enabled. *)
Theorem button_disabled_during_request w0 evs :
  fresh w0 ->
  let w := steps (main w0) evs in
  (forall f b e i,
     is_request f = true ->
     find_id (button_id f) (page w) = Some b ->
     page w !! b = Some e -> disabled e = false -> listeners e = [f] ->
     find_id (input_id f) (page w) = Some i ->
     tasks (step w (Click b)) = tasks w ++ [Some (AwaitFetch (requester_of f b (page w)))]
     /\ disabled_at (page (step w (Click b))) b = true)
  /\ (forall t k b,
        tasks w !! t = Some (Some k) -> button_of k = Some b ->
        disabled_at (page w) b = true)
  /\ (forall t k b o,
        tasks w !! t = Some (Some k) -> button_of k = Some b ->
        tasks (step w (Settle t o)) !! t = Some None ->
        disabled_at (page (step w (Settle t o))) b = false).
Proof.
  intros Hfresh w.
  assert (Hc : consistent w) by (apply consistent_steps, main_consistent; exact Hfresh).
  split; [|split].
  - intros f b e i. apply click_request_starts.
  - apply (inv_disabled w Hc).
  - intros t k b o Ht Hb Hdone.
    pose proof (inv_disabled w Hc t k b Ht Hb) as Hdis.
    assert (Hvalid : b < length (page w)).
    { unfold disabled_at in Hdis. destruct (page w !! b) eqn:E; [|discriminate].
      eapply lookup_lt_Some; eauto. }
    assert (Hfin : forall who r, button_of k = Some (requester_button who) ->
              disabled_at (page (resume who r (finish t w))) b = false).
    { intros who r Hk. assert (requester_button who = b) as Hwho by congruence.
      destruct (page_resume who r (finish t w)) as (h2 & [[Hlen _] _] & ->).
      change (page (finish t w)) with (page w) in Hlen. rewrite Hwho.
      rewrite disabled_at_alter by reflexivity.
      unfold disabled_at. rewrite list_lookup_alter_eq.
      destruct (lookup_lt_is_Some_2 h2 b ltac:(lia)) as [e2 ->]. reflexivity. }
    simpl in *. unfold settle in *. rewrite Ht in *.
    destruct k, o; cbn [postJSON_resume] in *; simpl in Hb; try discriminate;
      try (rewrite Ht in Hdone; discriminate);
      try (apply Hfin; reflexivity).
    simpl in Hdone.
    rewrite list_lookup_insert_eq in Hdone by (eapply lookup_lt_Some; eauto).
    discriminate.
Qed.

Lemma sample_blank_fresh : fresh sample_blank.
Proof.
  split; [reflexivity|]. split; [reflexivity|]. intros r e.
  do 7 (destruct r as [|r]; [intros [= <-]; reflexivity|]). discriminate.
Defined.

(** C5, on the sample page: the button is disabled while the failing
    request is under way and enabled again once it has failed. *)
Lemma button_disabled_during_request_sample :
  let w := steps sample_world [Click 1; Settle 0 (Response 500)] in
  disabled_at (page w) 1 = true
  /\ disabled_at (page (step w (Settle 0 (BodyText (lit "err"))))) 1 = false.
Proof.
  intros w.
  destruct (button_disabled_during_request sample_blank
              [Click 1; Settle 0 (Response 500)] sample_blank_fresh)
    as (_ & Hduring & Hafter).
  split.
  - apply (Hduring 0 (AwaitText (Condense 1 (Some 2)) 500) 1); reflexivity.
  - apply (Hafter 0 (AwaitText (Condense 1 (Some 2)) 500) 1); reflexivity.
Defined.

(** * The labels of the copy buttons *)

Local Open Scope dom_scope.

Section Scripted.
Implicit Types (h : heap) (f : element -> element).

Lemma elem_id_at_alter f r h b :
  (forall e, elem_id (f e) = elem_id e) ->
  elem_id_at (alter f r h) b = elem_id_at h b.
Proof.
  intros Hf. unfold elem_id_at, wiring_at.
  destruct (Nat.eq_dec r b) as [<-|Hne].
  - rewrite list_lookup_alter_eq. destruct (h !! r); simpl; [apply Hf|reflexivity].
  - rewrite list_lookup_alter_ne by exact Hne. reflexivity.
Qed.

Lemma elem_id_at_same_wiring h h' b : same_wiring h h' -> elem_id_at h' b = elem_id_at h b.
Proof. intros [_ Hw]. unfold elem_id_at. rewrite Hw. reflexivity. Qed.

Lemma idle_of_same_wiring h h' b : same_wiring h h' -> idle_of h' b = idle_of h b.
Proof. intros Hw. unfold idle_of. rewrite (elem_id_at_same_wiring _ _ _ Hw). reflexivity. Qed.

Lemma scripted_alter f r h : plain f -> scripted h -> scripted (alter f r h).
Proof.
  intros Hf Hs r' e' j b Hlook Hin.
  rewrite elem_id_at_alter by (intros e; apply Hf).
  destruct (Nat.eq_dec r r') as [<-|Hne].
  - rewrite list_lookup_alter_eq in Hlook.
    destruct (h !! r) as [e|] eqn:He; [|discriminate]. injection Hlook as <-.
    eapply Hs; [exact He|]. apply Hf. exact Hin.
  - rewrite list_lookup_alter_ne in Hlook by exact Hne. eapply Hs; eauto.
Qed.

Lemma elem_id_at_create tag h b : elem_id_at (h ++ [blank tag]) b = elem_id_at h b.
Proof. apply elem_id_at_same_wiring. apply keeps_create. Qed.

Lemma scripted_create tag h : scripted h -> scripted (h ++ [blank tag]).
Proof.
  intros Hs r e j b Hlook Hin. rewrite elem_id_at_create.
  apply lookup_app_Some in Hlook as [Hlook|[_ Hlook]].
  - eapply Hs; eauto.
  - destruct (r - length h) as [|n]; simpl in Hlook; [|destruct n; discriminate].
    injection Hlook as <-. destruct Hin.
Qed.

Lemma copy_safe_ret {A} (a : A) : copy_safe (ret a).
Proof. intros h Hs. exact Hs. Qed.

Lemma copy_safe_lift {A} (x : result A) : copy_safe (lift x).
Proof. intros h Hs. exact Hs. Qed.

Lemma copy_safe_getElementById i : copy_safe (getElementById i).
Proof. intros h Hs. exact Hs. Qed.

Lemma copy_safe_create tag : copy_safe (createElement tag).
Proof. intros h Hs. apply scripted_create. exact Hs. Qed.

Lemma copy_safe_update r f : plain f -> copy_safe (update r f).
Proof. intros Hf h Hs. apply scripted_alter; assumption. Qed.

Lemma copy_safe_bind {A B} (m : dom A) (k : A -> dom B) :
  copy_safe m -> (forall a, copy_safe (k a)) -> copy_safe (bind m k).
Proof.
  intros Hm Hk h Hs. unfold bind. specialize (Hm h Hs).
  destruct (m h) as [h1 [a|e]]; simpl in *; [|exact Hm]. apply Hk. exact Hm.
Qed.

Lemma copy_safe_forEach {A} (l : list A) (f : A -> dom unit) :
  (forall x, copy_safe (f x)) -> copy_safe (forEach l f).
Proof.
  intros Hf. induction l as [|x l IH]; simpl.
  - apply copy_safe_ret.
  - apply copy_safe_bind; [apply Hf|intros _; exact IH].
Qed.

Lemma copy_safe_if {A} (b : bool) (m1 m2 : dom A) :
  copy_safe m1 -> copy_safe m2 -> copy_safe (if b then m1 else m2).
Proof. destruct b; auto. Qed.

Lemma copy_safe_finally body handler final :
  copy_safe body -> (forall e, copy_safe (handler e)) -> copy_safe final ->
  copy_safe (try_catch_finally body handler final).
Proof.
  intros Hb Hh Hf h Hs. unfold try_catch_finally.
  specialize (Hb h Hs). destruct (body h) as [h1 [a|e]]; simpl in Hb.
  - apply Hf. exact Hb.
  - specialize (Hh e h1 Hb). destruct (handler e h1) as [h2 [a|e2]]; simpl in Hh.
    + apply Hf. exact Hh.
    + specialize (Hf h2 Hh). destruct (final h2) as [h3 [a|e3]]; exact Hf.
Qed.

(** The one place where a "Copy JSON" listener is added: on the button
    created three statements before (lines 79-86). *)
Lemma copy_safe_button {B} f1 f2 (jsonOut : ref) (rest : ref -> dom B) :
  plain f1 -> plain f2 -> (forall b, copy_safe (rest b)) ->
  copy_safe (b <- createElement "button" ;;
             update b f1 ;;;
             update b f2 ;;;
             update b (with_listener (OnCopyJson jsonOut b)) ;;;
             rest b).
Proof.
  intros H1 H2 Hrest h Hs.
  unfold bind at 1. unfold createElement.
  rewrite !bind_update. apply Hrest.
  set (b := length h).
  assert (Hs2 : scripted (alter f2 b (alter f1 b (h ++ [blank "button"])))).
  { apply scripted_alter; [exact H2|]. apply scripted_alter; [exact H1|].
    apply scripted_create. exact Hs. }
  assert (Hid : elem_id_at (alter f2 b (alter f1 b (h ++ [blank "button"]))) b = ""%string).
  { rewrite !elem_id_at_alter by (intros e; first [apply H2|apply H1]).
    unfold elem_id_at, wiring_at. unfold b.
    rewrite lookup_app_r by lia. rewrite Nat.sub_diag. reflexivity. }
  intros r e j b' Hlook Hin.
  rewrite elem_id_at_alter by reflexivity.
  destruct (Nat.eq_dec b r) as [<-|Hne].
  - rewrite list_lookup_alter_eq in Hlook.
    destruct (alter f2 b (alter f1 b (h ++ [blank "button"])) !! b) as [e0|] eqn:He0;
      [|discriminate].
    injection Hlook as <-. simpl in Hin. apply in_app_or in Hin as [Hin|[Heq|[]]].
    + eapply Hs2; eauto.
    + injection Heq as <- <-. exact Hid.
  - rewrite list_lookup_alter_ne in Hlook by exact Hne. eapply Hs2; eauto.
Qed.

Lemma plain_className c : plain (with_className c).
Proof. intros e; split; auto. Qed.
Lemma plain_textContent s : plain (with_textContent s).
Proof. intros e; split; auto. Qed.
Lemma plain_innerHTML s : plain (with_innerHTML s).
Proof. intros e; split; auto. Qed.
Lemma plain_child c : plain (with_child c).
Proof. intros e; split; auto. Qed.
Lemma plain_value s : plain (with_value s).
Proof. intros e; split; auto. Qed.
Lemma plain_rows n : plain (with_rows n).
Proof. intros e; split; auto. Qed.
Lemma plain_readOnly b : plain (with_readOnly b).
Proof. intros e; split; auto. Qed.
Lemma plain_disabled b : plain (with_disabled b).
Proof. intros e; split; auto. Qed.
Lemma plain_listener (g : handler) :
  (forall j b, g <> OnCopyJson j b) -> plain (with_listener g).
Proof.
  intros Hg e; split; [reflexivity|]. intros j b Hin. simpl in Hin.
  apply in_app_or in Hin as [Hin|[Heq|[]]]; [exact Hin|]. exfalso. eapply Hg; eauto.
Qed.

End Scripted.

Create HintDb plain.
#[local] Hint Resolve plain_className plain_textContent plain_innerHTML plain_child
  plain_value plain_rows plain_readOnly plain_disabled : plain.

Ltac copy_safe_steps known :=
  repeat lazymatch goal with
    | |- copy_safe (bind (createElement "button") _) =>
        apply copy_safe_button; [auto with plain|auto with plain|intros ?]
    | |- copy_safe (bind _ _) => apply copy_safe_bind; [|intros ?]
    | |- copy_safe (ret _) => apply copy_safe_ret
    | |- copy_safe (lift _) => apply copy_safe_lift
    | |- copy_safe (getElementById _) => apply copy_safe_getElementById
    | |- copy_safe (createElement _) => apply copy_safe_create
    | |- copy_safe (update _ _) => apply copy_safe_update; auto with plain
    | |- copy_safe (forEach _ _) => apply copy_safe_forEach; intros ?
    | |- copy_safe (if _ then _ else _) => apply copy_safe_if
    | |- copy_safe (try_catch_finally _ _ _) =>
        apply copy_safe_finally; [|intros ?|]
    | |- copy_safe _ => known
    end.

Lemma copy_safe_renderReadonlyTable t : copy_safe (renderReadonlyTable t).
Proof. unfold renderReadonlyTable. copy_safe_steps fail. Qed.

Lemma copy_safe_renderTableBlock c t : copy_safe (renderTableBlock c t).
Proof.
  unfold renderTableBlock. copy_safe_steps ltac:(apply copy_safe_renderReadonlyTable).
Qed.

Lemma copy_safe_renderTables tables : copy_safe (renderTables tables).
Proof.
  unfold renderTables. copy_safe_steps ltac:(apply copy_safe_renderTableBlock).
Qed.

Section TidyWorld.
Implicit Types (w : world) (h : heap).

Lemma timers_run m w : timers (run m w) = timers w.
Proof. unfold run. destruct (m (page w)) as [h [a|e]]; reflexivity. Qed.

Lemma clock_run m w : clock (run m w) = clock w.
Proof. unfold run. destruct (m (page w)) as [h [a|e]]; reflexivity. Qed.

Lemma timers_resume who r w : timers (resume who r w) = timers w.
Proof. destruct who; apply timers_run. Qed.

Lemma clock_resume who r w : clock (resume who r w) = clock w.
Proof. destruct who; apply clock_run. Qed.

Lemma tidy_frame w w' :
  tidy w ->
  same_wiring (page w) (page w') ->
  scripted (page w') ->
  (forall t text b idle,
     tasks w' !! t = Some (Some (AwaitClipboard text (Some b) idle)) ->
     idle = idle_of (page w) b) ->
  (forall tm, In tm (timers w') -> timer_label tm = idle_of (page w) (timer_btn tm)) ->
  tidy w'.
Proof.
  intros Ht Hw Hs Htasks Htimers. split.
  - exact Hs.
  - intros t text b idle H. rewrite (idle_of_same_wiring _ _ _ Hw). eapply Htasks; eauto.
  - intros tm H. rewrite (idle_of_same_wiring _ _ _ Hw). apply Htimers. exact H.
Qed.

Lemma copy_safe_resume who r w : scripted (page w) -> scripted (page (resume who r w)).
Proof.
  intros Hs. destruct who as [btn outEl|btn]; simpl;
    unfold resume_process_article, resume_parse_tables; rewrite page_run;
    (apply copy_safe_finally; [ |intros e| |exact Hs]);
    copy_safe_steps ltac:(apply copy_safe_renderTables).
Qed.

Lemma listeners_alter (f : element -> element) r h r' :
  (forall e, listeners (f e) = listeners e) ->
  listeners <$> alter f r h !! r' = listeners <$> h !! r'.
Proof.
  intros Hf. destruct (Nat.eq_dec r r') as [<-|Hne].
  - rewrite list_lookup_alter_eq. destruct (h !! r); simpl; [rewrite Hf|]; reflexivity.
  - rewrite list_lookup_alter_ne by exact Hne. reflexivity.
Qed.

Lemma run_handler_listeners f w r :
  listeners <$> page (run_handler f w) !! r = listeners <$> page w !! r.
Proof.
  destruct f; simpl;
    unfold click_process_article, click_parse_tables, click_copy_article, click_copy_json;
    repeat (destruct (non_null _ _); simpl; [|reflexivity]);
    rewrite ?listeners_alter by reflexivity; reflexivity.
Qed.

Lemma timers_run_handler f w : timers (run_handler f w) = timers w.
Proof.
  destruct f; simpl;
    unfold click_process_article, click_parse_tables, click_copy_article, click_copy_json;
    repeat (destruct (non_null _ _); simpl; [|reflexivity]); reflexivity.
Qed.

Lemma clock_run_handler f w : clock (run_handler f w) = clock w.
Proof.
  destruct f; simpl;
    unfold click_process_article, click_parse_tables, click_copy_article, click_copy_json;
    repeat (destruct (non_null _ _); simpl; [|reflexivity]); reflexivity.
Qed.

Lemma idle_of_article h b :
  find_id "copy-article-btn" h = Some b -> idle_of h b = lit "Copy condensed".
Proof.
  intros Hb. destruct (find_id_lookup _ _ _ Hb) as (e & He & Hid).
  unfold idle_of, elem_id_at, wiring_at. rewrite He. simpl. rewrite Hid. reflexivity.
Qed.

Lemma idle_of_scripted h b : elem_id_at h b = ""%string -> idle_of h b = lit "Copy JSON".
Proof. intros Hb. unfold idle_of. rewrite Hb. reflexivity. Qed.

(** A listener that is on the page keeps the invariant when it runs. *)
Lemma tidy_run_handler f w r e :
  tidy w -> page w !! r = Some e -> In f (listeners e) -> tidy (run_handler f w).
Proof.
  intros Ht He Hin. apply (tidy_frame w); [exact Ht|apply run_handler_same_wiring| | |].
  - destruct Ht as [Hs _ _].
    destruct f; simpl;
      unfold click_process_article, click_parse_tables, click_copy_article, click_copy_json;
      repeat (destruct (non_null _ _); simpl; [|exact Hs]);
      try exact Hs;
      repeat (apply scripted_alter; [auto with plain|]); exact Hs.
  - intros t text b idle Hp.
    destruct Ht as [Hs Htasks _].
    destruct f; simpl in Hp;
      unfold click_process_article, click_parse_tables, click_copy_article, click_copy_json in Hp.
    + destruct (non_null _ _); simpl in Hp; [|eapply Htasks; exact Hp].
      destruct (non_null _ _); simpl in Hp; [|eapply Htasks; exact Hp].
      apply lookup_snoc_pending in Hp as [[_ [=]]|[_ Hp]]. eapply Htasks; exact Hp.
    + destruct (find_id "article-output" (page w)); simpl in Hp; [|eapply Htasks; exact Hp].
      apply lookup_snoc_pending in Hp as [[_ Heq]|[_ Hp]]; [|eapply Htasks; exact Hp].
      injection Heq as _ Hb <-. symmetry. apply idle_of_article. exact Hb.
    + destruct (non_null _ _); simpl in Hp; [|eapply Htasks; exact Hp].
      destruct (non_null _ _); simpl in Hp; [|eapply Htasks; exact Hp].
      apply lookup_snoc_pending in Hp as [[_ [=]]|[_ Hp]]. eapply Htasks; exact Hp.
    + apply lookup_snoc_pending in Hp as [[_ Heq]|[_ Hp]]; [|eapply Htasks; exact Hp].
      injection Heq as _ <- <-. symmetry. apply idle_of_scripted.
      eapply Hs; eauto.
  - intros tm Htm. rewrite timers_run_handler in Htm.
    apply (tidy_timers w Ht). exact Htm.
Qed.

Lemma run_handlers_tidy fs w r :
  tidy w ->
  (forall f, In f fs -> exists e, page w !! r = Some e /\ In f (listeners e)) ->
  tidy (fold_left (fun w f => run_handler f w) fs w).
Proof.
  revert w. induction fs as [|f fs IH]; intros w Ht Hfs; simpl; [exact Ht|].
  destruct (Hfs f (or_introl eq_refl)) as (e & He & Hin).
  apply IH; [eapply tidy_run_handler; eauto|].
  intros f' Hf'. destruct (Hfs f' (or_intror Hf')) as (e' & He' & Hin').
  pose proof (run_handler_listeners f w r) as Hl. rewrite He' in Hl. simpl in Hl.
  destruct (page (run_handler f w) !! r) as [e''|]; [|discriminate].
  injection Hl as Hl. exists e''. split; [reflexivity|]. rewrite Hl. exact Hin'.
Qed.

Lemma tidy_click r w : tidy w -> tidy (click r w).
Proof.
  intros Ht. unfold click. destruct (page w !! r) as [e|] eqn:He; [|exact Ht].
  destruct (disabled e); [exact Ht|].
  apply (run_handlers_tidy _ _ r); [exact Ht|]. intros f Hf. eauto.
Qed.

End TidyWorld.

Section TidySteps.
Implicit Types (w : world) (h : heap).

Lemma scripted_fire_all tms h : scripted h -> scripted (fold_left fire tms h).
Proof.
  revert h. induction tms as [|tm tms IH]; intros h Hs; simpl; [exact Hs|].
  apply IH. apply scripted_alter; [apply plain_textContent|exact Hs].
Qed.

Lemma tidy_settle t o w : tidy w -> tidy (settle t o w).
Proof.
  intros Ht. pose proof (settle_same_wiring t o w) as Hw. revert Hw.
  unfold settle. destruct (tasks w !! t) as [[k|]|] eqn:Hk; try (intros _; exact Ht).
  assert (Hdrop : forall t' text b idle,
            <[t := None]> (tasks w) !! t' = Some (Some (AwaitClipboard text (Some b) idle)) ->
            idle = idle_of (page w) b).
  { intros t' text b idle H. apply lookup_insert_pending in H as [[_ [=]]|[_ H]].
    eapply (tidy_tasks w Ht); exact H. }
  assert (Hfinish : forall who r,
            same_wiring (page w) (page (resume who r (finish t w))) ->
            tidy (resume who r (finish t w))).
  { intros who r Hw. apply (tidy_frame w); [exact Ht|exact Hw| | |].
    - apply copy_safe_resume. apply (tidy_scripted w Ht).
    - intros t' text b idle H. rewrite tasks_resume in H. eapply Hdrop; exact H.
    - intros tm H. rewrite timers_resume in H. apply (tidy_timers w Ht). exact H. }
  destruct k as [who|who status|who|text btn idle].
  1-3: destruct o; cbn [postJSON_resume]; intros Hw; try exact Ht; try (apply Hfinish; exact Hw).
  - apply (tidy_frame w); [exact Ht|exact Hw|apply (tidy_scripted w Ht)| |].
    + intros t' text b idle H. simpl in H.
      apply lookup_insert_pending in H as [[_ Heq]|[_ H]].
      * destruct (ok status); discriminate.
      * eapply (tidy_tasks w Ht); exact H.
    + intros tm H. apply (tidy_timers w Ht). exact H.
  - destruct o; intros Hw; try exact Ht.
    + unfold copied. destruct btn as [b|]; simpl.
      * apply (tidy_frame w); [exact Ht|exact Hw| | |].
        -- simpl. apply scripted_alter; [apply plain_textContent|apply (tidy_scripted w Ht)].
        -- intros t' text' b' idle' H. eapply Hdrop; exact H.
        -- intros tm H. simpl in H. apply in_app_or in H as [H|[<-|[]]].
           ++ apply (tidy_timers w Ht). exact H.
           ++ simpl. eapply (tidy_tasks w Ht). exact Hk.
      * apply (tidy_frame w); [exact Ht|exact Hw|apply (tidy_scripted w Ht)| |].
        -- intros t' text' b' idle' H. eapply Hdrop; exact H.
        -- intros tm H. apply (tidy_timers w Ht). exact H.
    + apply (tidy_frame w); [exact Ht|exact Hw|apply (tidy_scripted w Ht)| |].
      * intros t' text' b' idle' H. eapply Hdrop; exact H.
      * intros tm H. apply (tidy_timers w Ht). exact H.
Qed.

Lemma tidy_step w ev : tidy w -> tidy (step w ev).
Proof.
  intros Ht. destruct ev as [r|t o|ms]; simpl.
  - apply tidy_click. exact Ht.
  - apply tidy_settle. exact Ht.
  - apply (tidy_frame w); [exact Ht|apply fire_all_keeps| | |].
    + simpl. apply scripted_fire_all. apply (tidy_scripted w Ht).
    + intros t text b idle H. eapply (tidy_tasks w Ht); exact H.
    + intros tm H. simpl in H. apply filter_In in H as [H _].
      apply (tidy_timers w Ht). exact H.
Qed.

Lemma tidy_steps evs w : tidy w -> tidy (steps w evs).
Proof.
  revert w. induction evs as [|ev evs IH]; intros w Ht; [exact Ht|].
  change (steps w (ev :: evs)) with (steps (step w ev) evs).
  apply IH. apply tidy_step. exact Ht.
Qed.

Lemma main_tidy w : fresh w -> tidy (main w).
Proof.
  intros (Htasks & Htimers & Hnone).
  assert (Hs : scripted (page w)).
  { intros r e j b He Hin. rewrite (Hnone r e He) in Hin. destruct Hin. }
  split.
  - unfold main. rewrite page_run. revert Hs. generalize (page w).
    change (copy_safe
      (b <- getElementById "process-article-btn" ;;
       b <- lift (non_null "addEventListener" b) ;;
       update b (with_listener OnProcessArticle) ;;;
       b <- getElementById "copy-article-btn" ;;
       b <- lift (non_null "addEventListener" b) ;;
       update b (with_listener OnCopyArticle) ;;;
       b <- getElementById "parse-tables-btn" ;;
       b <- lift (non_null "addEventListener" b) ;;
       update b (with_listener OnParseTables))).
    repeat lazymatch goal with
      | |- copy_safe (bind _ _) => apply copy_safe_bind; [|intros ?]
      | |- copy_safe (lift _) => apply copy_safe_lift
      | |- copy_safe (getElementById _) => apply copy_safe_getElementById
      | |- copy_safe (update _ _) =>
          apply copy_safe_update; apply plain_listener; discriminate
      end.
  - intros t text b idle H. unfold main in H. rewrite tasks_run, Htasks in H. discriminate.
  - intros tm H. unfold main in H. rewrite timers_run, Htimers in H. destruct H.
Qed.

(** ** Timers *)

Lemma clock_step w ev : (clock w <= clock (step w ev))%N.
Proof.
  destruct ev as [r|t o|ms]; simpl.
  - unfold click. destruct (page w !! r) as [e|]; [|lia].
    destruct (disabled e); [lia|].
    generalize (listeners e). intros fs. revert w.
    induction fs as [|f fs IH]; intros w; simpl; [lia|].
    specialize (IH (run_handler f w)). rewrite clock_run_handler in IH. exact IH.
  - unfold settle. destruct (tasks w !! t) as [[k|]|]; try lia.
    destruct k, o; cbn [postJSON_resume]; try lia;
      rewrite ?clock_resume; unfold copied; try (destruct btn); simpl; lia.
  - lia.
Qed.

Lemma clock_steps evs w : (clock w <= clock (steps w evs))%N.
Proof.
  revert w. induction evs as [|ev evs IH]; intros w; [simpl; lia|].
  change (steps w (ev :: evs)) with (steps (step w ev) evs).
  pose proof (clock_step w ev). specialize (IH (step w ev)). lia.
Qed.

(** A timer stays pending until its time has come. *)
Lemma timer_pending_step w ev tm :
  In tm (timers w) -> (clock (step w ev) < due tm)%N -> In tm (timers (step w ev)).
Proof.
  intros Hin Hdue. destruct ev as [r|t o|ms]; simpl in *.
  - unfold click. destruct (page w !! r) as [e|]; [|exact Hin].
    destruct (disabled e); [exact Hin|].
    clear Hdue. generalize (listeners e). intros fs. revert w Hin.
    induction fs as [|f fs IH]; intros w Hin; simpl; [exact Hin|].
    apply IH. rewrite timers_run_handler. exact Hin.
  - unfold settle. destruct (tasks w !! t) as [[k|]|]; try exact Hin.
    destruct k, o; cbn [postJSON_resume]; try exact Hin;
      rewrite ?timers_resume; unfold copied; try (destruct btn); simpl;
      try exact Hin; try (destruct (ok status); exact Hin).
    apply in_or_app. left. exact Hin.
  - apply filter_In. split; [exact Hin|].
    apply negb_true_iff, N.leb_gt. exact Hdue.
Qed.

Lemma timer_pending_steps evs w tm :
  In tm (timers w) -> (clock (steps w evs) < due tm)%N -> In tm (timers (steps w evs)).
Proof.
  revert w. induction evs as [|ev evs IH]; intros w Hin Hdue; [exact Hin|].
  change (steps w (ev :: evs)) with (steps (step w ev) evs) in *.
  apply IH; [|exact Hdue]. apply timer_pending_step; [exact Hin|].
  pose proof (clock_steps evs (step w ev)). lia.
Qed.

(** When the timers that run agree on the label of a button, and one of
    them is for that button, that is its label afterwards. *)
Lemma fire_all_label tms h b a s :
  b < length h ->
  (exists tm, In tm tms /\ timer_btn tm = b) ->
  (forall tm, In tm tms -> timer_btn tm = b -> timer_label tm = lit (String a s)) ->
  label_at (fold_left fire tms h) b = [CText (lit (String a s))].
Proof.
  intros Hb. induction tms as [|x tms IH] using rev_ind; intros (tm & Hin & Htm) Hall.
  - destruct Hin.
  - rewrite fold_left_app. simpl. unfold fire at 1.
    destruct (Nat.eq_dec (timer_btn x) b) as [Hx|Hx].
    + rewrite (Hall x) by (try apply in_or_app; auto; right; left; reflexivity).
      rewrite Hx. apply label_at_textContent. rewrite length_fire_all. exact Hb.
    + rewrite label_at_alter_ne by exact Hx. apply IH.
      * apply in_app_or in Hin as [Hin|[<-|[]]]; [eauto|contradiction].
      * intros tm' Hin' Hb'. apply Hall; [apply in_or_app; left; exact Hin'|exact Hb'].
Qed.

End TidySteps.

(** * Copying, with other events in between *)

(** C6.  In every state the page can reach after the script has loaded, a
    click on a copy button (the condensed-text one, or the one of a table
    block) whose clipboard write succeeds puts the value the associated
    field had at the click on the clipboard and labels the button
    "Copied!".  Whatever else happens meanwhile, when the clock passes
    1200 ms after the write the label is the button's idle text ("Copy
    condensed" or "Copy JSON"), which is the label the button had before the
    click if it was idle then.  When less than 1200 ms pass right after the
    write the label stays "Copied!", unless an older timer of the same
    button is still pending. *)
Theorem copy_writes_value_and_flashes w0 evs0 f b e src evs1 evs2 ms :
  fresh w0 ->
  let w := steps (main w0) evs0 in
  is_request f = false ->
  copy_button f (page w) = Some b ->
  page w !! b = Some e -> disabled e = false -> listeners e = [f] ->
  copy_source f (page w) = Some src ->
  forallb (fun ev => negb (settles (length (tasks w)) ev)) evs1 = true ->
  let t := length (tasks w) in
  let before := steps w ([Click b] ++ evs1) in
  let copied := step before (Settle t Written) in
  let later := steps copied evs2 in
  clipboard copied = value_at (page w) src
  /\ label_at (page copied) b = [CText (lit "Copied!")]
  /\ ((clock later < clock copied + 1200)%N ->
      (clock copied + 1200 <= clock later + ms)%N ->
      label_at (page (step later (Elapse ms))) b = [CText (copy_idle f)])
  /\ ((clock later < clock copied + 1200)%N ->
      (clock copied + 1200 <= clock later + ms)%N ->
      label_at (page w) b = [CText (copy_idle f)] ->
      label_at (page (step later (Elapse ms))) b = label_at (page w) b)
  /\ ((ms < 1200)%N -> Forall (fun tm => timer_btn tm <> b) (timers before) ->
      label_at (page (step copied (Elapse ms))) b = [CText (lit "Copied!")]).
Proof.
  intros Hload w Hf Hb He Hd Hl Hsrc Hevs t before copied later.
  destruct (copy_in_flight f w b e src evs1 Hf Hb He Hd Hl Hsrc Hevs) as [Hp Hlt].
  fold before in Hp, Hlt. fold t in Hp.
  assert (Ecopied : copied = _) by exact (settle_written before t _ b _ Hp).
  assert (Hlabel : label_at (page copied) b = [CText (lit "Copied!")]).
  { rewrite Ecopied. simpl. apply label_at_textContent. exact Hlt. }
  assert (Hidle : exists a s, copy_idle f = lit (String a s))
    by (destruct f; eexists _, _; reflexivity).
  destruct Hidle as (a & s & Hidle).
  assert (Htidy : tidy before).
  { unfold before, w. rewrite <- steps_app. apply tidy_steps, main_tidy. exact Hload. }
  assert (Hown : idle_of (page before) b = copy_idle f).
  { symmetry. eapply (tidy_tasks before Htidy). exact Hp. }
  assert (Hclock : clock copied = clock before) by (rewrite Ecopied; reflexivity).
  assert (Hrevert : (clock later < clock copied + 1200)%N ->
                    (clock copied + 1200 <= clock later + ms)%N ->
                    label_at (page (step later (Elapse ms))) b = [CText (copy_idle f)]).
  { intros Hearly Hdue.
    assert (Htl : tidy later) by (apply tidy_steps, tidy_step; exact Htidy).
    assert (Hwire : same_wiring (page before) (page later)).
    { eapply same_wiring_trans; [apply (step_same_wiring before (Settle t Written))|].
      apply steps_same_wiring. }
    set (tm := Timer (clock before + 1200) b (copy_idle f)).
    assert (Hin : In tm (timers later)).
    { apply timer_pending_steps.
      - rewrite Ecopied. simpl. apply in_or_app. right. left. reflexivity.
      - change (clock later < clock before + 1200)%N. rewrite <- Hclock. exact Hearly. }
    simpl. rewrite Hidle. apply fire_all_label.
    - destruct Hwire as [Hlen _]. lia.
    - exists tm. split; [|reflexivity].
      apply filter_In. split; [exact Hin|]. apply N.leb_le. simpl. lia.
    - intros tm' Hin' Hb'. apply filter_In in Hin' as [Hin' _].
      rewrite (tidy_timers later Htl tm' Hin'), Hb'.
      rewrite (idle_of_same_wiring _ _ _ Hwire), Hown. exact Hidle. }
  split; [rewrite Ecopied; reflexivity|]. split; [exact Hlabel|].
  split; [exact Hrevert|]. split.
  - intros Hearly Hdue ->. apply Hrevert; assumption.
  - intros Hms Hall.
    assert (Hlt' : b < length (page copied)).
    { rewrite Ecopied. simpl. rewrite length_alter. exact Hlt. }
    destruct (elapse_after_copy (page copied) (timers before) (clock before) b a s ms Hlt')
      as [_ Hshort].
    transitivity (label_at (page copied) b); [|exact Hlabel].
    rewrite <- Hshort by assumption.
    rewrite Ecopied, Hidle. reflexivity.
Qed.

(** C6, on the sample page: the condensed text is copied after a request
    has filled the output field, with a parse request started during the
    flash; and a table's JSON is copied from its block. *)
Lemma copy_writes_value_and_flashes_sample :
  (let copied := steps filled_world [Click 3; Settle 1 Written] in
   clipboard copied = lit "short"
   /\ label_at (page copied) 3 = [CText (lit "Copied!")]
   /\ label_at (page (step copied (Elapse 1199))) 3 = [CText (lit "Copied!")]
   /\ label_at (page (step (steps copied [Elapse 700; Click 5]) (Elapse 500))) 3
      = label_at (page filled_world) 3)
  /\ (let copied := steps rendered_world [Click 22; Settle 1 Written] in
      clipboard copied = json_T
      /\ label_at (page copied) 22 = [CText (lit "Copied!")]
      /\ label_at (page (step copied (Elapse 1200))) 22
         = label_at (page rendered_world) 22).
Proof.
  split.
  - intros copied.
    epose proof (copy_writes_value_and_flashes sample_blank _ OnCopyArticle 3 _ 2 []
                   [Elapse 700; Click 5] 500%N sample_blank_fresh) as H1.
    epose proof (copy_writes_value_and_flashes sample_blank _ OnCopyArticle 3 _ 2 []
                   [] 1199%N sample_blank_fresh) as H2.
    cbv zeta in H1, H2. fold sample_world in H1, H2.
    rewrite <- filled_world_eq in H1, H2.
    specialize (H1 eq_refl eq_refl eq_refl eq_refl eq_refl eq_refl eq_refl).
    specialize (H2 eq_refl eq_refl eq_refl eq_refl eq_refl eq_refl eq_refl).
    destruct H1 as (Hclip & Hlab & _ & Hlong & _).
    destruct H2 as (_ & _ & _ & _ & Hshort).
    split; [exact Hclip|]. split; [exact Hlab|]. split.
    + apply Hshort; [reflexivity|constructor].
    + apply Hlong; [vm_compute; reflexivity|vm_compute; discriminate|reflexivity].
  - intros copied.
    epose proof (copy_writes_value_and_flashes sample_blank _ (OnCopyJson 21 22) 22 _ 21 []
                   [] 1200%N sample_blank_fresh) as H.
    cbv zeta in H. fold sample_world in H. rewrite <- rendered_world_eq in H.
    specialize (H eq_refl eq_refl eq_refl eq_refl eq_refl eq_refl eq_refl).
    destruct H as (Hclip & Hlab & _ & Hlong & _).
    split; [exact Hclip|]. split; [exact Hlab|].
    apply Hlong; [vm_compute; reflexivity|vm_compute; discriminate|reflexivity].
Defined.

(** * Beyond the listed claims *)

Section Layout.
Implicit Types (B x : heap) (N j : nat).

Lemma with_kids_nil e : with_kids [] e = e.
Proof. destruct e. unfold with_kids, with_children. simpl. rewrite app_nil_r. reflexivity. Qed.

Lemma with_kids_child rs c e : with_kids rs (with_child c e) = with_kids (c :: rs) e.
Proof.
  unfold with_kids, with_child, with_children. simpl. rewrite <- app_assoc. reflexivity.
Qed.

Lemma alter_twice {A} (f g : A -> A) i (l : list A) :
  alter f i (alter g i l) = alter (fun a => f (g a)) i l.
Proof.
  revert i. induction l as [|a l IH]; intros [|i]; cbn; try reflexivity.
  f_equal. apply IH.
Qed.

Lemma alter_snoc {A} (f : A -> A) (l : list A) a :
  alter f (length l) (l ++ [a]) = l ++ [f a].
Proof. induction l as [|b l IH]; cbn; [reflexivity|]. f_equal. apply IH. Qed.

Lemma alter_same {A} (f g : A -> A) i (l : list A) :
  (forall a, f a = g a) -> alter f i l = alter g i l.
Proof. intros H. apply list_alter_ext; [intros a _; apply H|reflexivity]. Qed.

Lemma length_cell_elements tag cells : length (cell_elements tag cells) = length cells.
Proof. apply length_map. Qed.

(** The loops over the cells of a row: every cell becomes an element with
    the cell's text, appended to the row element at [N + j]. *)
Lemma cells_layout tag cells B N j :
  length B = N ->
  forallb is_text cells = true ->
  forall x, j < length x ->
    forEach cells
      (fun c => (e <- createElement tag ;;
                 s <- lift (text_of c) ;;
                 update e (with_textContent s) ;;;
                 update (N + j) (with_child e))%dom) (B ++ x)
    = (B ++ alter (with_kids (seq (N + length x) (length cells))) j x
         ++ cell_elements tag cells, Ok tt).
Proof.
  intros HN. induction cells as [|c cells IH]; intros Hc x Hj.
  - simpl. unfold ret. rewrite app_nil_r.
    rewrite list_alter_id by apply with_kids_nil. reflexivity.
  - simpl in Hc. apply andb_prop in Hc as [Hc Hcs].
    destruct c; try discriminate.
    cbn [forEach text_of to_string].
    rewrite bind_assoc, (bind_create _ _ _ _ N) by exact HN.
    rewrite bind_assoc, bind_lift_ok, bind_assoc.
    rewrite (bind_update_new _ _ _ _ N) by exact HN.
    rewrite alter_snoc.
    rewrite (bind_update_new _ _ _ _ N) by exact HN.
    rewrite alter_app_l by exact Hj.
    rewrite IH by (try exact Hcs; rewrite length_app, length_alter; simpl; lia).
    f_equal. f_equal.
    rewrite alter_app_l by (rewrite length_alter; exact Hj).
    rewrite alter_twice.
    rewrite length_app, length_alter. cbn [length cell_elements map str_of].
    rewrite <- app_assoc. f_equal.
    apply alter_same. intros e.
    rewrite with_kids_child. f_equal. simpl. f_equal. f_equal. lia.
Qed.

Lemma alter_cells_snoc f tag cells a :
  alter f (length cells) (cell_elements tag cells ++ [a]) = cell_elements tag cells ++ [f a].
Proof. rewrite <- (length_cell_elements tag cells). apply alter_snoc. Qed.

(** The loop over the rows: every row becomes a row element followed by
    its cells, appended to the body element at [N + j]. *)
Lemma rows_layout rs B N j :
  length B = N ->
  forallb is_text_seq rs = true ->
  forall x, j < length x ->
    forEach rs
      (fun row => (tr <- createElement "tr" ;;
                   cells <- lift (as_array row) ;;
                   forEach cells (fun cell =>
                     td <- createElement "td" ;;
                     s <- lift (text_of cell) ;;
                     update td (with_textContent s) ;;;
                     update tr (with_child td)) ;;;
                   update (N + j) (with_child tr))%dom) (B ++ x)
    = (B ++ alter (with_kids (row_refs (N + length x) rs)) j x
         ++ row_elements (N + length x) rs, Ok tt).
Proof.
  intros HN. induction rs as [|row rs IH]; intros Hr x Hj.
  - simpl. unfold ret. rewrite app_nil_r.
    rewrite list_alter_id by apply with_kids_nil. reflexivity.
  - simpl in Hr. apply andb_prop in Hr as [Hrow Hrs].
    destruct row as [| | | | |cells|]; try discriminate. simpl in Hrow.
    cbn [forEach as_array].
    rewrite bind_assoc, (bind_create _ _ _ _ N) by exact HN.
    rewrite bind_assoc, bind_lift_ok, bind_assoc.
    rewrite (bind_ok _ _ _ _ _
               (cells_layout "td" cells B N (length x) HN Hrow (x ++ [blank "tr"])
                  ltac:(rewrite length_app; simpl; lia))).
    rewrite alter_snoc, length_app. cbn [length].
    rewrite (bind_update_new _ _ _ _ N) by exact HN.
    rewrite !alter_app_l by (rewrite ?length_app; simpl; lia).
    rewrite IH by (try exact Hrs; rewrite !length_app, length_alter; simpl; lia).
    f_equal. f_equal.
    rewrite !alter_app_l by (rewrite ?length_app, ?length_alter; simpl; lia).
    rewrite alter_twice.
    rewrite !length_app, length_alter, length_cell_elements. cbn [length].
    cbn [row_elements row_refs items_of].
    replace (N + (length x + 1 + length cells)) with (N + length x + 1 + length cells) by lia.
    replace (N + (length x + 1)) with (N + length x + 1) by lia.
    rewrite <- !app_assoc. cbn [app]. f_equal.
    apply alter_same. intros e. apply with_kids_child.
Qed.

Lemma field_of_optional k p fs :
  field_ok k (fun v => match v with VArr l => forallb p l | _ => false end) fs = true ->
  as_array (or_else (lookup_field (lit k) fs) (VArr [])) = Ok (items_of (field_of (VObj fs) k))
  /\ forallb p (items_of (field_of (VObj fs) k)) = true.
Proof.
  unfold field_ok, field_of. intros H.
  destruct (has_field (lit k) fs) eqn:Hhas; simpl in H.
  - destruct (lookup_field (lit k) fs) as [| | | | |l|]; try discriminate.
    split; [reflexivity|exact H].
  - rewrite (lookup_absent _ _ Hhas). split; reflexivity.
Qed.

(** [renderReadonlyTable] appends exactly [table_elements] and returns the
    first of them. *)
Lemma renderReadonlyTable_layout t B :
  is_table t = true ->
  renderReadonlyTable t B = (B ++ table_elements (length B) t, Ok (length B)).
Proof.
  destruct t as [| | | | | |fs]; try discriminate. simpl.
  intros H. apply andb_prop in H as [H Hrows]. apply andb_prop in H as [_ Hheaders].
  destruct (field_of_optional _ _ _ Hheaders) as (Ehs & Hhs).
  destruct (field_of_optional "rows" is_text_seq _ Hrows) as (Ers & Hrs).
  remember (length B) as N eqn:HN. symmetry in HN.
  unfold table_elements.
  set (hs := items_of (field_of (VObj fs) "headers")) in *.
  set (rs := items_of (field_of (VObj fs) "rows")) in *.
  rewrite <- (app_nil_r B) at 1.
  unfold renderReadonlyTable, get.
  repeat dom_step N. rewrite Ehs.
  repeat dom_step N.
  match goal with
  | |- context [bind (forEach hs _) _ (B ++ ?y)] =>
      rewrite (bind_ok _ _ _ _ _
                 (cells_layout "th" hs B N 2 HN Hhs y ltac:(simpl; lia)))
  end.
  cbn [length alter list_alter app Nat.add].
  repeat dom_step N. rewrite Ers.
  repeat dom_step N.
  rewrite length_cell_elements.
  match goal with
  | |- context [bind (forEach rs _) _ (B ++ ?y)] =>
      rewrite (bind_ok _ _ _ _ _
                 (rows_layout rs B N (S (S (S (length hs)))) HN Hrs y
                    ltac:(simpl; rewrite length_app, length_cell_elements; simpl; lia)))
  end.
  cbn [alter list_alter length].
  rewrite alter_cells_snoc, length_app, length_cell_elements. cbn [length].
  rewrite (bind_update_new _ _ _ _ N) by exact HN.
  rewrite (bind_update_new _ _ _ _ N) by exact HN.
  cbn [alter list_alter app]. unfold ret.
  rewrite Nat.add_0_r.
  replace (N + S (S (S (length hs + 1)))) with (N + 4 + length hs) by lia.
  replace (N + S (S (S (length hs)))) with (N + 3 + length hs) by lia.
  rewrite <- !app_assoc. reflexivity.
Qed.

End Layout.

Section Views.
Implicit Types (H : heap) (p : ref) (l : list element).

Lemma holds_app H p l1 l2 :
  holds H p (l1 ++ l2) -> holds H p l1 /\ holds H (p + length l1) l2.
Proof.
  intros Hh. split; intros i e Hi.
  - apply Hh. apply lookup_app_l_Some. exact Hi.
  - rewrite <- Nat.add_assoc. apply Hh.
    rewrite lookup_app_r by lia. rewrite <- Hi. f_equal. lia.
Qed.

Lemma holds_cons H p e l : holds H p (e :: l) -> H !! p = Some e /\ holds H (S p) l.
Proof.
  intros Hh. split.
  - rewrite <- (Nat.add_0_r p). apply Hh. reflexivity.
  - intros i e' Hi. replace (S p + i) with (p + S i) by lia. apply Hh. exact Hi.
Qed.

Lemma holds_new B l n : length B = n -> holds (B ++ l) n l.
Proof. intros Hn i e Hi. rewrite (lookup_new _ _ n) by exact Hn. exact Hi. Qed.

Lemma view_text k H s : view k H (CText s) = Text s.
Proof. destruct k; reflexivity. Qed.

Lemma view_cells k H tag cells : forall p,
  holds H p (cell_elements tag cells) ->
  map (view (S k) H) (map CNode (seq p (length cells))) = map (cell_tree tag) cells.
Proof.
  induction cells as [|c cells IH]; intros p Hh; [reflexivity|].
  cbn [cell_elements map] in Hh. apply holds_cons in Hh as [Hp Hrest].
  cbn [length seq map]. f_equal.
  - cbn [view]. rewrite Hp. unfold cell_tree, text_kids. simpl.
    destruct (is_empty (str_of c)); simpl; rewrite ?view_text; reflexivity.
  - apply IH. exact Hrest.
Qed.

Lemma view_rows k H rs : forall p,
  holds H p (row_elements p rs) ->
  map (view (S (S k)) H) (map CNode (row_refs p rs)) = map row_tree rs.
Proof.
  induction rs as [|row rs IH]; intros p Hh; [reflexivity|].
  cbn [row_elements] in Hh. apply holds_cons in Hh as [Hp Hrest].
  apply holds_app in Hrest as [Hcells Hrest].
  rewrite length_cell_elements in Hrest.
  cbn [row_refs map]. f_equal.
  - cbn [view]. rewrite Hp. unfold row_tree. cbn. f_equal.
    apply view_cells. replace (p + 1) with (S p) by lia. exact Hcells.
  - apply IH.
    replace (S p + length (items_of row)) with (p + 1 + length (items_of row)) in Hrest by lia.
    exact Hrest.
Qed.

Lemma view_node k H r e :
  H !! r = Some e ->
  view (S k) H (CNode r)
  = Node (tagName e) (className e) (value e) (map (view k H) (children e)).
Proof. intros E. simpl. rewrite E. reflexivity. Qed.

(** The tree below the first of the [table_elements]. *)
Lemma view_table k H n t :
  holds H n (table_elements n t) ->
  view (S (S (S (S k)))) H (CNode n) = table_tree t.
Proof.
  unfold table_elements. intros Hh.
  apply holds_cons in Hh as [Htbl Hh].
  apply holds_cons in Hh as [Hthead Hh].
  apply holds_cons in Hh as [Hthr Hh].
  apply holds_app in Hh as [Hths Hh]. rewrite length_cell_elements in Hh.
  apply holds_cons in Hh as [Htbody Hrows].
  set (hs := items_of (field_of t "headers")) in *.
  set (rs := items_of (field_of t "rows")) in *.
  replace (S n) with (n + 1) in Hthead by lia.
  replace (S (S n)) with (n + 2) in Hthr by lia.
  replace (S (S (S n)) + length hs) with (n + 3 + length hs) in Htbody by lia.
  replace (S (S (S n))) with (n + 3) in Hths by lia.
  replace (S (S (S (S n)) + length hs)) with (n + 4 + length hs) in Hrows by lia.
  unfold table_tree. fold hs rs.
  rewrite (view_node _ _ _ _ Htbl).
  cbn [tagName className value children with_child with_children with_className blank app map].
  rewrite (view_node _ _ _ _ Hthead), (view_node _ _ _ _ Htbody).
  cbn [tagName className value children with_child with_kids with_children blank app map].
  rewrite (view_node _ _ _ _ Hthr).
  cbn [tagName className value children with_child with_kids with_children blank app map].
  rewrite (view_cells _ _ _ _ _ Hths), (view_rows _ _ _ _ Hrows).
  reflexivity.
Qed.

End Views.

Section Blocks.
Implicit Types (H h : heap) (t : jsval).

Lemma shown_title_ok t s : title_text t = Ok s -> shown_title t = s.
Proof. unfold shown_title. intros ->. reflexivity. Qed.

(** [renderTableBlock] appends exactly the elements of one block and hangs
    the block below the container. *)
Lemma renderTableBlock_layout t h c :
  is_table t = true ->
  c < length h ->
  renderTableBlock c t h =
    (alter (with_child (length h)) c h
       ++ block_elements (length h) (shown_title t) (table_elements (length h + 4) t) t,
     Ok tt).
Proof.
  intros Ht Hc.
  assert (exists title, title_text t = Ok title) as (title & Et).
  { destruct t; try discriminate. simpl in Ht.
    apply andb_prop in Ht as [Ht _]. apply andb_prop in Ht as [Ht _].
    apply title_text_total. exact Ht. }
  rewrite (shown_title_ok _ _ Et).
  remember (length h) as n eqn:Hn. symmetry in Hn.
  rewrite <- (app_nil_r h) at 1.
  unfold renderTableBlock. rewrite Et.
  repeat dom_step n.
  match goal with
  | |- context [bind (renderReadonlyTable t) _ ?B] =>
      rewrite (bind_ok _ _ _ _ _ (renderReadonlyTable_layout t B Ht));
      replace (length B) with (n + 4) by (rewrite length_app, Hn; reflexivity)
  end.
  set (tbl := table_elements (n + 4) t).
  match goal with
  | |- context [(h ++ ?pre) ++ tbl] =>
      remember ((h ++ pre) ++ tbl) as B2 eqn:HB2;
      assert (HN2 : length B2 = n + 4 + length tbl)
        by (subst B2; rewrite !length_app; cbn [length]; lia)
  end.
  remember (n + 4 + length tbl) as N2 eqn:HeqN2.
  rewrite <- (app_nil_r B2).
  repeat dom_step N2.
  subst B2 N2. rewrite <- !app_assoc. cbn [app].
  rewrite !(alter_new _ _ _ n) by base_len.
  rewrite alter_old by base_len.
  cbn [alter list_alter]. unfold block_elements.
  rewrite <- !app_assoc, !Nat.add_0_r. reflexivity.
Qed.

Lemma is_empty_text_kids k H s :
  map (view k H) (children (with_textContent s (blank "div"))) = text_kids s.
Proof.
  unfold text_kids. simpl. destruct (is_empty s); simpl; rewrite ?view_text; reflexivity.
Qed.

(** The tree below the first element of a block. *)
Lemma view_block k H n t :
  holds H n (block_elements n (shown_title t) (table_elements (n + 4) t) t) ->
  view (S (S (S (S (S (S k)))))) H (CNode n) = block_tree t.
Proof.
  unfold block_elements. intros Hh.
  set (tbl := table_elements (n + 4) t) in *.
  apply holds_app in Hh as [Hpre Hh]. cbn [length] in Hh.
  apply holds_app in Hh as [Htbl Hpost].
  apply holds_cons in Hpre as [Hblock Hpre].
  apply holds_cons in Hpre as [Hwrap Hpre].
  apply holds_cons in Hpre as [Hlabel Hpre].
  apply holds_cons in Hpre as [Hvalue _].
  apply holds_cons in Hpost as [Hjl Hpost].
  apply holds_cons in Hpost as [Hjo Hpost].
  apply holds_cons in Hpost as [Hbtn Hpost].
  apply holds_cons in Hpost as [Hact _].
  replace (S n) with (n + 1) in Hwrap by lia.
  replace (S (S n)) with (n + 2) in Hlabel by lia.
  replace (S (S (S n))) with (n + 3) in Hvalue by lia.
  replace (S (n + 4 + length tbl)) with (n + 4 + length tbl + 1) in Hjo by lia.
  replace (S (S (n + 4 + length tbl))) with (n + 4 + length tbl + 2) in Hbtn by lia.
  replace (S (S (S (n + 4 + length tbl)))) with (n + 4 + length tbl + 3) in Hact by lia.
  rewrite Nat.add_0_r in Hblock.
  rewrite with_value_json_text in Hjo.
  unfold block_tree.
  rewrite (view_node _ _ _ _ Hblock).
  cbn [tagName className value children with_child with_children with_className blank app map].
  rewrite (view_node _ _ _ _ Hwrap), (view_node _ _ _ _ Hjo), (view_node _ _ _ _ Hact).
  rewrite (view_table _ _ _ _ Htbl).
  rewrite (view_node _ _ _ _ Hjl).
  cbn [tagName className value children with_child with_children with_className
       set_value with_readOnly with_rows with_textContent is_empty lit
       list_ascii_of_string blank app map].
  rewrite (view_node _ _ _ _ Hlabel), (view_node _ _ _ _ Hvalue), (view_node _ _ _ _ Hbtn).
  rewrite is_empty_text_kids.
  cbn [tagName className value children with_child with_children with_className
       with_listener with_textContent is_empty lit list_ascii_of_string blank app map].
  rewrite !view_text. reflexivity.
Qed.

End Blocks.

Lemma holds_same H H' p l :
  holds H p l -> (forall i, i < length l -> H' !! (p + i) = H !! (p + i)) -> holds H' p l.
Proof.
  intros Hh Hsame i e Hi. rewrite Hsame by (eapply lookup_lt_Some; exact Hi).
  apply Hh. exact Hi.
Qed.

(** X1.  For every table of the data model and on every page,
    [renderReadonlyTable] returns a new table element of class
    "editable-table" with one header row holding one cell per header and one
    body row per row holding one cell per item, in order and with the item's
    text, whatever the lengths of the rows; a missing field gives no cells.
    The elements the page had before are left as they were. *)
Theorem table_shows_every_cell t h :
  is_table t = true ->
  exists h',
    renderReadonlyTable t h = (h', Ok (length h))
    /\ view 4 h' (CNode (length h)) = table_tree t
    /\ (forall r, r < length h -> h' !! r = h !! r).
Proof.
  intros Ht. eexists. split; [apply renderReadonlyTable_layout; exact Ht|]. split.
  - apply (view_table 0). apply holds_new. reflexivity.
  - intros r Hr. apply lookup_app_l. exact Hr.
Qed.

Lemma table_shows_every_cell_sample :
  exists h',
    renderReadonlyTable ragged_table sample_page = (h', Ok 7)
    /\ view 4 h' (CNode 7)
       = Node "table" "editable-table" []
           [ Node "thead" "" [] [ Node "tr" "" [] [ leaf "th" "" "a"; leaf "th" "" "b" ] ];
             Node "tbody" "" []
               [ Node "tr" "" [] [ leaf "td" "" "1"; leaf "td" "" "2"; leaf "td" "" "3" ];
                 Node "tr" "" [] [];
                 Node "tr" "" [] [ leaf "td" "" "4" ] ] ]
    /\ (forall r, r < 7 -> h' !! r = sample_page !! r).
Proof. exact (table_shows_every_cell ragged_table sample_page eq_refl). Defined.

(** X2.  For every table of the data model, [renderTableBlock] appends
    exactly one child to the container, after the children it already had,
    and changes no other element of the page.  The new block shows the title
    line, the read-only table, the "Table JSON" label, the textarea with the
    table's JSON and the "Copy JSON" button. *)
Theorem block_is_appended t h c :
  is_table t = true ->
  c < length h ->
  exists h',
    renderTableBlock c t h = (h', Ok tt)
    /\ label_at h' c = label_at h c ++ [CNode (length h)]
    /\ view 6 h' (CNode (length h)) = block_tree t
    /\ (forall r, r < length h -> r <> c -> h' !! r = h !! r).
Proof.
  intros Ht Hc. eexists. split; [apply renderTableBlock_layout; assumption|].
  split; [|split].
  - unfold label_at. rewrite lookup_app_l by (rewrite length_alter; exact Hc).
    rewrite list_lookup_alter_eq.
    destruct (lookup_lt_is_Some_2 h c Hc) as [e ->]. reflexivity.
  - apply (view_block 0). apply holds_new. apply length_alter.
  - intros r Hr Hne. rewrite lookup_app_l by (rewrite length_alter; exact Hr).
    apply list_lookup_alter_ne. congruence.
Qed.

Lemma block_is_appended_sample :
  exists h',
    renderTableBlock 6 table_T sample_page = (h', Ok tt)
    /\ label_at h' 6 = label_at sample_page 6 ++ [CNode 7]
    /\ view 6 h' (CNode 7) = block_T
    /\ (forall r, r < 7 -> r <> 6 -> h' !! r = sample_page !! r).
Proof.
  exact (block_is_appended table_T sample_page 6 eq_refl ltac:(simpl; lia)).
Defined.

(** The loop of [renderTables]: one block per table, hung below the mount
    in order; nothing else of the store changes. *)
Lemma blocks_loop m ts : forall h,
  m < length h ->
  forallb is_table ts = true ->
  exists h' refs,
    forEach ts (fun t => renderTableBlock m t) h = (h', Ok tt)
    /\ label_at h' m = label_at h m ++ map CNode refs
    /\ Forall2 (block_at h') refs ts
    /\ Forall (fun r => length h <= r) refs
    /\ (forall r, r < length h -> r <> m -> h' !! r = h !! r)
    /\ length h <= length h'.
Proof.
  induction ts as [|t ts IH]; intros h Hm Hts.
  - exists h, []. simpl. rewrite app_nil_r. repeat split; auto.
  - simpl in Hts. apply andb_prop in Hts as [Ht Hts].
    pose proof (renderTableBlock_layout t h m Ht Hm) as E.
    set (blk := block_elements (length h) (shown_title t)
                  (table_elements (length h + 4) t) t) in *.
    set (h1 := alter (with_child (length h)) m h ++ blk) in *.
    assert (Hlen1 : length h1 = length h + length blk)
      by (unfold h1; rewrite length_app, length_alter; reflexivity).
    assert (Hm1 : m < length h1) by (rewrite Hlen1; lia).
    destruct (IH h1 Hm1 Hts) as (h' & refs & Eloop & Hlab & Hblocks & Hrefs & Hsame & Hlen).
    exists h', (length h :: refs).
    split; [cbn [forEach]; rewrite (bind_ok _ _ _ _ _ E); exact Eloop|].
    split; [|split; [|split; [|split]]].
    + rewrite Hlab. unfold h1, label_at.
      rewrite lookup_app_l by (rewrite length_alter; exact Hm).
      rewrite list_lookup_alter_eq.
      destruct (lookup_lt_is_Some_2 h m Hm) as [e ->]. simpl.
      rewrite <- app_assoc. reflexivity.
    + constructor; [|exact Hblocks].
      apply (holds_same h1); [apply holds_new; apply length_alter|].
      intros i Hi. change (i < length blk) in Hi.
      apply Hsame; [rewrite Hlen1|]; lia.
    + constructor; [lia|].
      eapply Forall_impl; [exact Hrefs|]. intros r Hr. simpl in Hr. rewrite Hlen1 in Hr. lia.
    + intros r Hr Hne. rewrite Hsame by (try rewrite Hlen1; lia).
      unfold h1. rewrite lookup_app_l by (rewrite length_alter; exact Hr).
      apply list_lookup_alter_ne. congruence.
    + rewrite Hlen1 in Hlen. lia.
Qed.

Lemma views_of_blocks k h refs ts :
  Forall2 (block_at h) refs ts ->
  map (view (S (S (S (S (S (S k)))))) h) (map CNode refs) = map block_tree ts.
Proof.
  induction 1 as [|r t refs ts Hb _ IH]; [reflexivity|].
  cbn [map]. rewrite (view_block _ _ _ _ Hb), IH. reflexivity.
Qed.

(** What [renderTables] does with a list of tables that is not empty. *)
Lemma renderTables_blocks ts h m :
  find_id "tables-output" h = Some m ->
  forallb is_table ts = true ->
  ts <> [] ->
  exists h' refs,
    renderTables (VArr ts) h = (h', Ok tt)
    /\ label_at h' m = map CNode refs
    /\ Forall2 (block_at h') refs ts
    /\ Forall (fun r => length h <= r) refs
    /\ (forall r, r < length h -> r <> m -> h' !! r = h !! r)
    /\ length h <= length h'.
Proof.
  intros Hm Hts Hne. pose proof (find_id_lt _ _ _ Hm) as Hlt.
  assert (Hno : no_tables (VArr ts) = false) by (destruct ts; [contradiction|reflexivity]).
  assert (Hlt0 : m < length (alter (with_innerHTML []) m h))
    by (rewrite length_alter; exact Hlt).
  destruct (blocks_loop m ts (alter (with_innerHTML []) m h) Hlt0 Hts)
    as (h' & refs & Eloop & Hlab & Hblocks & Hrefs & Hsame & Hlen).
  rewrite length_alter in Hrefs, Hsame, Hlen.
  exists h', refs. split; [|split; [|split; [|split; [|split]]]]; try assumption.
  - unfold renderTables. rewrite bind_getElementById, Hm. cbn [non_null].
    rewrite bind_lift_ok, Hno, bind_update. cbn [as_array].
    rewrite bind_lift_ok. exact Eloop.
  - rewrite Hlab. unfold label_at. rewrite list_lookup_alter_eq.
    destruct (lookup_lt_is_Some_2 h m Hlt) as [e ->]. reflexivity.
  - intros r Hr Hrm. rewrite Hsame by assumption.
    apply list_lookup_alter_ne. congruence.
Qed.

(** X3.  For every list of tables of the data model that is not empty,
    [renderTables] leaves in the tables area exactly one block per table, in
    the order of the list, whatever the area showed before, and changes no
    other element the page had. *)
Theorem one_block_per_table ts h m :
  find_id "tables-output" h = Some m ->
  forallb is_table ts = true ->
  ts <> [] ->
  exists h',
    renderTables (VArr ts) h = (h', Ok tt)
    /\ content 6 h' m = map block_tree ts
    /\ (forall r, r < length h -> r <> m -> h' !! r = h !! r).
Proof.
  intros Hm Hts Hne.
  destruct (renderTables_blocks ts h m Hm Hts Hne)
    as (h' & refs & E & Hlab & Hblocks & _ & Hsame & Hlen).
  exists h'. split; [exact E|]. split; [|exact Hsame].
  unfold content. unfold label_at in Hlab.
  destruct (h' !! m) as [e'|].
  - rewrite Hlab. apply (views_of_blocks 0). exact Hblocks.
  - destruct refs; [|discriminate]. inversion Hblocks. reflexivity.
Qed.

Lemma one_block_per_table_sample :
  exists h',
    renderTables (VArr [table_T; ragged_table; bare_table]) sample_page = (h', Ok tt)
    /\ content 6 h' 6 = [block_T; block_tree ragged_table; block_tree bare_table]
    /\ (forall r, r < 7 -> r <> 6 -> h' !! r = sample_page !! r).
Proof.
  exact (one_block_per_table [table_T; ragged_table; bare_table] sample_page 6
           eq_refl eq_refl ltac:(discriminate)).
Defined.

(** * From a rendered table to the clipboard *)


Lemma block_at_same h h' r t :
  block_at h r t -> (forall x, r <= x -> h' !! x = h !! x) -> block_at h' r t.
Proof.
  intros Hb Hsame. apply (holds_same h); [exact Hb|]. intros i _. apply Hsame. lia.
Qed.

Lemma stringify_singleton k s :
  stringify (VObj [(k, VStr s)]) = Some (lit "{" ++ quote k ++ lit ":" ++ quote s ++ lit "}").
Proof.
  unfold stringify. cbn [serialize flat_map snd fst app is_empty wrap join].
  rewrite <- ?app_assoc. reflexivity.
Qed.

(** X6.  A click on an enabled request button sends exactly one request:
    to "/api/condense" with the body [{"text":<input>}] for the condense
    button, to "/api/parse_markdown_tables" with the body
    [{"markdown":<input>}] for the parse button, where <input> is the value
    the input field has at the click, quoted as [JSON.stringify] quotes a
    string. *)
Theorem request_carries_input f w b e i :
  is_request f = true ->
  find_id (button_id f) (page w) = Some b ->
  page w !! b = Some e -> disabled e = false -> listeners e = [f] ->
  find_id (input_id f) (page w) = Some i ->
  let body := lit "{" ++ quote (lit (payload_key f)) ++ lit ":"
                ++ quote (value_at (page w) i) ++ lit "}" in
  sent (step w (Click b)) = sent w ++ [Request (endpoint f) body]
  /\ stringify (VObj [(lit (payload_key f), VStr (value_at (page w) i))]) = Some body.
Proof.
  intros Hf Hb He Hd Hl Hi body. split; [|apply stringify_singleton].
  cbn [step]. unfold click. rewrite He, Hd, Hl. cbn [fold_left].
  destruct f; try discriminate; cbn [run_handler button_id input_id] in *.
  - unfold click_process_article, postJSON. rewrite Hi, Hb. cbn [non_null]. cbv zeta.
    rewrite stringify_singleton. reflexivity.
  - unfold click_parse_tables, postJSON. rewrite Hi, Hb. cbn [non_null]. cbv zeta.
    rewrite stringify_singleton. reflexivity.
Qed.

Lemma request_carries_input_sample :
  sent (step typed_world (Click 1))
  = [Request "/api/condense"
       (lit "{" ++ qt "text" ++ lit ":"
          ++ [34%N] ++ lit "say \" ++ [34%N] ++ lit "hi\" ++ [34%N] ++ [34%N] ++ lit "}")].
Proof.
  exact (proj1 (request_carries_input OnProcessArticle typed_world 1 _ 0
                  eq_refl eq_refl eq_refl eq_refl eq_refl eq_refl)).
Defined.

(** * How a request ends *)

Section Outcome.
Implicit Types (w : world) (h : heap).

Lemma settle_finishes w t k o who r :
  tasks w !! t = Some (Some k) ->
  postJSON_resume k o = Some (who, Settled r) ->
  step w (Settle t o) = resume who r (finish t w).
Proof.
  intros Ht Hk. simpl. unfold settle. rewrite Ht.
  destruct k; try discriminate; rewrite Hk; reflexivity.
Qed.

Lemma restored_button a s (h : heap) b :
  b < length h ->
  let h' := alter (with_textContent (lit (String a s))) b (alter (with_disabled false) b h) in
  disabled_at h' b = false /\ label_at h' b = [CText (lit (String a s))].
Proof.
  intros Hb h'. unfold h', disabled_at, label_at. rewrite !list_lookup_alter_eq.
  destruct (lookup_lt_is_Some_2 h b Hb) as [e ->]. split; reflexivity.
Qed.

(** What the condense handler leaves when [postJSON] has settled. *)
Lemma condense_outcome w b o r :
  b < length (page w) -> tag_at (page w) o = "textarea"%string -> b <> o ->
  let w' := resume_process_article b (Some o) r w in
  value_at (page w') o
  = normalize_newlines
      match condensed_text r with
      | Ok s => s
      | Throw e => lit "Error: " ++ message w e
      end
  /\ unhandled w' = unhandled w
  /\ disabled_at (page w') b = false
  /\ label_at (page w') b = [CText (lit "Process")].
Proof.
  intros Hb Ho Hne w'.
  assert (Hshape : exists s,
            w' = with_page (alter (with_textContent (lit "Process")) b
                              (alter (with_disabled false) b
                                 (alter (with_value s) o (page w)))) w
            /\ s = match condensed_text r with
                   | Ok s => s
                   | Throw e => lit "Error: " ++ message w e
                   end).
  { unfold w', resume_process_article, run, try_catch_finally, condensed_text.
    destruct r as [v|e];
      [destruct (get v "condensed") as [c|e] eqn:Eg;
       [destruct (value_of c) as [s|e] eqn:Ec|]|];
      repeat first [ rewrite bind_lift_ok | rewrite bind_lift_throw
                   | rewrite Eg | rewrite Ec | progress cbn [non_null] ];
      unfold update, bind; cbn [non_null lift]; eexists; split; reflexivity. }
  destruct Hshape as (s & -> & Hs). cbn [page unhandled with_page].
  split; [|split; [reflexivity|]].
  - rewrite !value_at_alter by reflexivity. rewrite <- Hs.
    apply value_at_set_textarea. exact Ho.
  - apply (restored_button "P" "rocess"). rewrite length_alter. exact Hb.
Qed.

(** An error thrown in the [try] block of either handler, on a page that
    has the element to show it. *)
Lemma thrown_is_shown f w b s e :
  is_request f = true ->
  find_id (button_id f) (page w) = Some b ->
  find_id (sink_id f) (page w) = Some s ->
  sink_fits f (page w) s ->
  let who := requester_of f b (page w) in
  let w' := resume who (Throw e) w in
  error_shown f (page w') s (message w e)
  /\ unhandled w' = unhandled w
  /\ disabled_at (page w') b = false
  /\ label_at (page w') b = [CText (idle_label who)].
Proof.
  intros Hf Hb Hs Hfit who w'.
  pose proof (find_id_lt _ _ _ Hs) as Hlt.
  pose proof (find_id_lt _ _ _ Hb) as Hblt.
  destruct f; try discriminate; cbn [button_id sink_id requester_of sink_fits] in *.
  - assert (Hne : b <> s) by (eapply find_id_distinct; [|exact Hb|exact Hs]; discriminate).
    subst who w'. rewrite Hs. cbn [resume idle_label error_shown].
    destruct (condense_outcome w b s (Throw e) Hblt Hfit Hne) as (Hv & Hu & Hd & Hl).
    auto.
  - subst who w'. cbn [resume idle_label error_shown].
    unfold resume_parse_tables, run, try_catch_finally.
    rewrite bind_lift_throw, bind_getElementById, Hs. cbn [non_null].
    rewrite bind_lift_ok. unfold update, bind. cbn [page unhandled with_page].
    assert (Hne : b <> s) by (eapply find_id_distinct; [|exact Hb|exact Hs]; discriminate).
    split; [|split; [reflexivity|]].
    + rewrite !label_at_alter_ne by exact Hne.
      apply label_at_innerHTML; [exact Hlt|reflexivity].
    + apply (restored_button "P" "arse tables"). rewrite length_alter. exact Hblt.
Qed.

End Outcome.

(** X7.  When the promise a request is waiting for rejects with an error
    of message [m], at any of the three awaits of [postJSON] (the fetch, the
    body text, the body JSON), the handler catches it: nothing is left
    unhandled, the task is over, and the button is enabled again with its
    idle label.  The condense handler assigns "Error: m" to the output
    field, which, a textarea, then reads as that text with its newlines
    normalised.  The parse handler assigns [<p class="error">Error: m</p>],
    with [m] unescaped, to the [innerHTML] of the tables area, as markup for
    the browser to parse. *)
Theorem rejection_is_shown f w t k b s m :
  is_request f = true ->
  tasks w !! t = Some (Some k) ->
  requester_at k = Some (requester_of f b (page w)) ->
  find_id (button_id f) (page w) = Some b ->
  find_id (sink_id f) (page w) = Some s ->
  sink_fits f (page w) s ->
  let w' := step w (Settle t (Rejected m)) in
  error_shown f (page w') s m
  /\ unhandled w' = unhandled w
  /\ tasks w' !! t = Some None
  /\ disabled_at (page w') b = false
  /\ label_at (page w') b = [CText (idle_label (requester_of f b (page w)))].
Proof.
  intros Hf Ht Hk Hb Hs Hfit w'.
  assert (E : w' = resume (requester_of f b (page w)) (Throw (JsError m)) (finish t w)).
  { unfold w'. apply (settle_finishes w t k).
    - exact Ht.
    - destruct k; simpl in Hk; try discriminate; injection Hk as ->; reflexivity. }
  destruct (thrown_is_shown f (finish t w) b s (JsError m) Hf Hb Hs Hfit)
    as (H1 & H2 & H3 & H4).
  change (page (finish t w)) with (page w) in *.
  rewrite E. split; [exact H1|]. split; [exact H2|]. split; [|split; assumption].
  rewrite tasks_resume. simpl. apply list_lookup_insert_eq.
  eapply lookup_lt_Some. exact Ht.
Qed.

Lemma rejection_is_shown_sample :
  (let w := steps sample_world [Click 1] in
   value_at (page (step w (Settle 0 (Rejected (lit "Failed to fetch"))))) 2
   = lit "Error: Failed to fetch")
  /\ (let w := steps sample_world [Click 5; Settle 0 (Response 200)] in
      label_at (page (step w (Settle 0 (Rejected (lit "Unexpected token"))))) 6
      = [CMarkup (error_markup (lit "Unexpected token"))]).
Proof.
  split.
  - exact (proj1 (rejection_is_shown OnProcessArticle (steps sample_world [Click 1]) 0
                    (AwaitFetch (Condense 1 (Some 2))) 1 2 (lit "Failed to fetch")
                    eq_refl eq_refl eq_refl eq_refl eq_refl eq_refl)).
  - exact (proj1 (rejection_is_shown OnParseTables
                    (steps sample_world [Click 5; Settle 0 (Response 200)]) 0
                    (AwaitJson (ParseTables 5)) 5 6 (lit "Unexpected token")
                    eq_refl eq_refl eq_refl eq_refl eq_refl I)).
Defined.

(** X8.  For a JSON body whose numbers are integers below 2^53 in size, on
    a page whose article-output field is a textarea: when the condense
    endpoint answers with that body, the handler ends without an unhandled
    rejection and with the button enabled.  The output field is assigned the
    string conversion of the body's [condensed] property and reads it with
    newlines normalised: the text "undefined" when the body has no such
    property, the empty text when it is null.  A body that is itself null
    cannot be destructured; the engine's TypeError is shown as
    "Error: ...". *)
Theorem condense_shows_any_body w t b o v :
  tasks w !! t = Some (Some (AwaitJson (Condense b (Some o)))) ->
  find_id "process-article-btn" (page w) = Some b ->
  find_id "article-output" (page w) = Some o ->
  tag_at (page w) o = "textarea"%string ->
  safe v = true ->
  let w' := step w (Settle t (BodyJson v)) in
  value_at (page w') o
  = normalize_newlines
      match condensed_text (Ok v) with
      | Ok s => s
      | Throw e => lit "Error: " ++ message w e
      end
  /\ unhandled w' = unhandled w
  /\ disabled_at (page w') b = false
  /\ (get v "condensed" = Ok VUndefined -> value_at (page w') o = lit "undefined")
  /\ (get v "condensed" = Ok VNull -> value_at (page w') o = [])
  /\ (v = VNull ->
      value_at (page w') o
      = normalize_newlines (lit "Error: " ++ wording w (ReadOfNullish "condensed"))).
Proof.
  intros Ht Hb Ho Hta _ w'.
  assert (Hne : b <> o) by (eapply find_id_distinct; [|exact Hb|exact Ho]; discriminate).
  assert (E : w' = resume_process_article b (Some o) (Ok v) (finish t w))
    by (exact (settle_finishes w t (AwaitJson (Condense b (Some o))) (BodyJson v)
                 (Condense b (Some o)) (Ok v) Ht eq_refl)).
  destruct (condense_outcome (finish t w) b o (Ok v)
              (find_id_lt _ _ _ Hb) Hta Hne) as (Hv & Hu & Hd & _).
  rewrite <- E in Hv, Hu, Hd.
  change (message (finish t w)) with (message w) in Hv.
  split; [exact Hv|]. split; [exact Hu|]. split; [exact Hd|].
  rewrite Hv. unfold condensed_text.
  split; [|split].
  - intros ->. reflexivity.
  - intros ->. reflexivity.
  - intros ->. reflexivity.
Qed.

Lemma condense_shows_any_body_sample :
  let w := steps sample_world [Click 1; Settle 0 (Response 200)] in
  value_at (page (step w (Settle 0 (BodyJson (VObj []))))) 2 = lit "undefined"
  /\ value_at (page (step w (Settle 0 (BodyJson (VObj [(lit "condensed", VNum 42)]))))) 2
     = lit "42"
  /\ value_at (page (step w (Settle 0 (BodyJson VNull)))) 2 = lit "Error: TypeError".
Proof.
  intros w. split; [|split].
  - exact (proj1 (proj2 (proj2 (proj2
             (condense_shows_any_body w 0 1 2 (VObj []) eq_refl eq_refl eq_refl
                eq_refl eq_refl)))) eq_refl).
  - exact (proj1 (condense_shows_any_body w 0 1 2 (VObj [(lit "condensed", VNum 42)])
                    eq_refl eq_refl eq_refl eq_refl eq_refl)).
  - exact (proj2 (proj2 (proj2 (proj2 (proj2
             (condense_shows_any_body w 0 1 2 VNull eq_refl eq_refl eq_refl
                eq_refl eq_refl))))) eq_refl).
Defined.

(** X9.  On a page that lacks the element showing a handler's outcome
    (article-output for condense, tables-output for parse), a request that
    ends, with whatever result, leaves an unhandled TypeError: the [catch]
    block fails on the same missing element.  The [finally] block still
    runs: the page changes only in that the button is enabled and carries
    its idle label. *)
Theorem missing_sink_goes_unhandled f w t k o b r :
  is_request f = true ->
  tasks w !! t = Some (Some k) ->
  postJSON_resume k o = Some (requester_of f b (page w), Settled r) ->
  find_id (sink_id f) (page w) = None ->
  let w' := step w (Settle t o) in
  unhandled w' = unhandled w ++ [EngineTypeError (ReadOfNullish (sink_prop f))]
  /\ page w'
     = alter (with_textContent (idle_label (requester_of f b (page w)))) b
         (alter (with_disabled false) b (page w)).
Proof.
  intros Hf Ht Hk Hs w'.
  unfold w'. rewrite (settle_finishes w t k o _ r Ht Hk).
  destruct f; try discriminate; cbn [sink_id requester_of sink_prop idle_label resume] in *.
  - rewrite Hs. unfold resume_process_article, run, try_catch_finally.
    cbn [page finish with_tasks].
    destruct r as [v|e]; [destruct (get v "condensed") as [c|e] eqn:Eg|];
      repeat first [ rewrite bind_lift_ok | rewrite bind_lift_throw
                   | rewrite Eg | progress cbn [non_null] ];
      unfold update, bind; split; reflexivity.
  - unfold resume_parse_tables, run, try_catch_finally.
    cbn [page finish with_tasks].
    assert (Hr : forall tables, renderTables tables (page w)
                 = (page w, Throw (EngineTypeError (ReadOfNullish "innerHTML")))).
    { intros tables. unfold renderTables. rewrite bind_getElementById, Hs.
      cbn [non_null]. rewrite bind_lift_throw. reflexivity. }
    destruct r as [v|e]; [destruct (get v "tables") as [c|e] eqn:Eg|];
      repeat first [ rewrite bind_lift_ok | rewrite bind_lift_throw
                   | rewrite Eg | rewrite Hr | rewrite bind_getElementById
                   | rewrite Hs | progress cbn [non_null] ];
      unfold update, bind; split; reflexivity.
Qed.

Lemma missing_sink_goes_unhandled_sample :
  let w := steps sinkless_world [Click 4; Settle 0 (Response 200)] in
  let w' := step w (Settle 0 (BodyJson (VObj [(lit "tables", VArr [table_T])]))) in
  unhandled w' = [EngineTypeError (ReadOfNullish "innerHTML")]
  /\ disabled_at (page w') 4 = false
  /\ length (page w') = length (page w).
Proof.
  intros w w'.
  destruct (missing_sink_goes_unhandled OnParseTables w 0 (AwaitJson (ParseTables 4))
              (BodyJson (VObj [(lit "tables", VArr [table_T])])) 4
              (Ok (VObj [(lit "tables", VArr [table_T])]))
              eq_refl eq_refl eq_refl eq_refl) as [Hu Hp].
  fold w' in Hu, Hp. split; [exact Hu|]. rewrite Hp. split; reflexivity.
Defined.

(** X10.  When [renderTables] throws while rendering the parse result
    (say, on an entry that is null after some tables were already
    rendered), the tables area ends up showing the error markup with the
    error's message and nothing else: no block rendered before the failure
    stays visible.  The error is handled and the button enabled again. *)
Theorem render_failure_leaves_only_the_error w t b m v tables e :
  tasks w !! t = Some (Some (AwaitJson (ParseTables b))) ->
  find_id "parse-tables-btn" (page w) = Some b ->
  find_id "tables-output" (page w) = Some m ->
  get v "tables" = Ok tables ->
  snd (renderTables tables (page w)) = Throw e ->
  let w' := step w (Settle t (BodyJson v)) in
  label_at (page w') m = [CMarkup (error_markup (message w e))]
  /\ unhandled w' = unhandled w
  /\ disabled_at (page w') b = false
  /\ label_at (page w') b = [CText (lit "Parse tables")].
Proof.
  intros Ht Hb Hm Hv He w'.
  assert (E : w' = resume_parse_tables b (Ok v) (finish t w))
    by (exact (settle_finishes w t (AwaitJson (ParseTables b)) (BodyJson v)
                 (ParseTables b) (Ok v) Ht eq_refl)).
  rewrite E. clear E w'.
  pose proof (framed_renderTables tables (page w)) as [Hsw _].
  destruct (renderTables tables (page w)) as [h1 r1] eqn:Er. simpl in He, Hsw. subst r1.
  pose proof (find_id_same_wiring _ _ _ _ Hsw Hm) as Hm1.
  pose proof (find_id_lt _ _ _ Hm1) as Hlt.
  assert (Hblt : b < length h1).
  { destruct Hsw as [Hlen _]. apply find_id_lt in Hb. lia. }
  assert (Hne : b <> m) by (eapply find_id_distinct; [|exact Hb|exact Hm]; discriminate).
  unfold resume_parse_tables, run, try_catch_finally.
  cbn [page finish with_tasks].
  rewrite bind_lift_ok, Hv, bind_lift_ok, Er.
  rewrite bind_getElementById, Hm1. cbn [non_null].
  rewrite bind_lift_ok. unfold update, bind. cbn [page unhandled with_page].
  split; [|split; [reflexivity|]].
  - rewrite !label_at_alter_ne by exact Hne.
    apply label_at_innerHTML; [exact Hlt|reflexivity].
  - apply (restored_button "P" "arse tables"). rewrite length_alter. exact Hblt.
Qed.

Lemma render_failure_leaves_only_the_error_sample :
  let w := steps rendered_world [Click 5; Settle 1 (Response 200)] in
  let w' := step w (Settle 1 (BodyJson (VObj [(lit "tables", VArr [table_T; VNull])]))) in
  label_at (page w') 6 = [CMarkup (error_markup (lit "TypeError"))]
  /\ unhandled w' = [].
Proof.
  intros w w'.
  destruct (render_failure_leaves_only_the_error w 1 5 6
              (VObj [(lit "tables", VArr [table_T; VNull])]) (VArr [table_T; VNull])
              (EngineTypeError (ReadOfNullish "title"))
              eq_refl eq_refl eq_refl eq_refl ltac:(vm_compute; reflexivity))
    as (Hl & Hu & _).
  split; [exact Hl|exact Hu].
Defined.

(** * Elements the page lacks *)

(** X11.  A listener first reads the value of a field it looks up by id
    (article-input, gpt-input, article-output).  On a page without that
    field a click ends right there as an unhandled TypeError: the page stays
    as it was (the button is not disabled), no request is sent and no
    clipboard write is started. *)
Theorem missing_field_stops_the_handler f i w b e :
  read_id f = Some i ->
  find_id i (page w) = None ->
  page w !! b = Some e -> disabled e = false -> listeners e = [f] ->
  step w (Click b) = reject (EngineTypeError (ReadOfNullish "value")) w.
Proof.
  intros Hf Hi He Hd Hl. simpl. unfold click. rewrite He, Hd, Hl. cbn [fold_left].
  destruct f; simpl in Hf; try discriminate; injection Hf as <-; cbn [run_handler].
  - unfold click_process_article. rewrite Hi. reflexivity.
  - unfold click_copy_article. rewrite Hi. reflexivity.
  - unfold click_parse_tables. rewrite Hi. reflexivity.
Qed.

Lemma missing_field_stops_the_handler_sample :
  let w' := step sinkless_world (Click 2) in
  unhandled w' = [EngineTypeError (ReadOfNullish "value")]
  /\ tasks w' = [] /\ page w' = page sinkless_world.
Proof.
  intros w'.
  pose proof (missing_field_stops_the_handler OnCopyArticle "article-output"
                sinkless_world 2 _ eq_refl eq_refl eq_refl eq_refl eq_refl) as E.
  fold w' in E. rewrite E. repeat split.
Defined.

(** X12.  The script wires its three buttons one after the other.  On a
    page without the copy-article-btn element it stops there with an
    unhandled TypeError: at most the condense button has got its listener,
    and a click on any other element, the parse button included, does
    nothing. *)
Theorem script_stops_at_missing_button w :
  fresh w ->
  find_id "copy-article-btn" (page w) = None ->
  unhandled (main w) = unhandled w ++ [EngineTypeError (ReadOfNullish "addEventListener")]
  /\ (forall r e, page (main w) !! r = Some e ->
        listeners e = [] \/ listeners e = [OnProcessArticle])
  /\ (forall r, find_id "process-article-btn" (page w) <> Some r ->
        step (main w) (Click r) = main w).
Proof.
  intros (_ & _ & Hbare) Hc.
  assert (Hmain : main w = reject (EngineTypeError (ReadOfNullish "addEventListener"))
                    (match find_id "process-article-btn" (page w) with
                     | Some p => with_page (alter (with_listener OnProcessArticle) p (page w)) w
                     | None => w
                     end)).
  { unfold main, run. rewrite bind_getElementById.
    destruct (find_id "process-article-btn" (page w)) as [p|] eqn:Hp; cbn [non_null].
    - rewrite bind_lift_ok, bind_update, bind_getElementById.
      rewrite find_id_alter by (intros; reflexivity). rewrite Hc. cbn [non_null].
      rewrite bind_lift_throw. reflexivity.
    - rewrite bind_lift_throw. destruct w; reflexivity. }
  assert (Hls : forall r e, page (main w) !! r = Some e ->
            (listeners e = [] /\ find_id "process-article-btn" (page w) <> Some r)
            \/ (listeners e = [OnProcessArticle]
                /\ find_id "process-article-btn" (page w) = Some r)).
  { intros r e. rewrite Hmain. cbn [page reject].
    destruct (find_id "process-article-btn" (page w)) as [p|] eqn:Hp; cbn [page with_page].
    - destruct (Nat.eq_dec p r) as [->|Hne].
      + rewrite list_lookup_alter_eq.
        destruct (page w !! r) as [e0|] eqn:He0; [|discriminate].
        intros [= <-]. right. simpl. rewrite (Hbare r e0 He0). auto.
      + rewrite list_lookup_alter_ne by exact Hne. intros He.
        left. split; [eapply Hbare; exact He|congruence].
    - intros He. left. split; [eapply Hbare; exact He|discriminate]. }
  split; [|split].
  - rewrite Hmain. cbn [unhandled reject].
    destruct (find_id "process-article-btn" (page w)); reflexivity.
  - intros r e He. destruct (Hls r e He) as [[H _]|[H _]]; auto.
  - intros r Hr. simpl. unfold click.
    destruct (page (main w) !! r) as [e|] eqn:He; [|reflexivity].
    destruct (Hls r e He) as [[H _]|[_ H]]; [|contradiction].
    rewrite H. destruct (disabled e); reflexivity.
Qed.

Lemma copyless_blank_fresh : fresh copyless_blank.
Proof.
  split; [reflexivity|]. split; [reflexivity|]. intros r e.
  do 6 (destruct r as [|r]; [intros [= <-]; reflexivity|]). discriminate.
Defined.

Lemma script_stops_at_missing_button_sample :
  unhandled (main copyless_blank) = [EngineTypeError (ReadOfNullish "addEventListener")]
  /\ step (main copyless_blank) (Click 4) = main copyless_blank.
Proof.
  destruct (script_stops_at_missing_button copyless_blank copyless_blank_fresh eq_refl)
    as (Hu & _ & Hdead).
  split; [exact Hu|]. apply Hdead. discriminate.
Defined.

(** X13.  In every state the page can reach after the script has loaded,
    a click on a button whose request is pending changes nothing (so no
    second request leaves), and no button has two pending requests. *)
Theorem no_second_request w0 evs t k b :
  fresh w0 ->
  let w := steps (main w0) evs in
  tasks w !! t = Some (Some k) ->
  button_of k = Some b ->
  step w (Click b) = w
  /\ (forall t' k', tasks w !! t' = Some (Some k') -> button_of k' = Some b -> t' = t).
Proof.
  intros Hfresh w Ht Hb.
  assert (Hc : consistent w) by (apply consistent_steps, main_consistent; exact Hfresh).
  split.
  - pose proof (inv_disabled w Hc t k b Ht Hb) as Hdis.
    simpl. unfold click. unfold disabled_at in Hdis.
    destruct (page w !! b) as [e|]; [|reflexivity]. rewrite Hdis. reflexivity.
  - intros t' k' Ht' Hb'. eapply (inv_unique w Hc); eauto.
Qed.

Lemma no_second_request_sample :
  let w := steps sample_world [Click 1; Settle 0 (Response 200)] in
  step w (Click 1) = w /\ sent (steps w [Click 1; Click 1]) = sent w.
Proof.
  intros w.
  destruct (no_second_request sample_blank [Click 1; Settle 0 (Response 200)] 0
              (AwaitJson (Condense 1 (Some 2))) 1 sample_blank_fresh eq_refl eq_refl)
    as [Hsame _].
  fold sample_world in Hsame. fold w in Hsame.
  split; [exact Hsame|].
  change (steps w [Click 1; Click 1]) with (step (step w (Click 1)) (Click 1)).
  rewrite Hsame, Hsame. reflexivity.
Defined.

(** * What each kind of event can touch *)

Lemma sent_run m w : sent (run m w) = sent w.
Proof. unfold run. destruct (m (page w)) as [h [a|e]]; reflexivity. Qed.

Lemma clipboard_run m w : clipboard (run m w) = clipboard w.
Proof. unfold run. destruct (m (page w)) as [h [a|e]]; reflexivity. Qed.

Lemma sent_resume who r w : sent (resume who r w) = sent w.
Proof. destruct who; apply sent_run. Qed.

Lemma clipboard_resume who r w : clipboard (resume who r w) = clipboard w.
Proof. destruct who; apply clipboard_run. Qed.

Lemma clipboard_run_handler f w : clipboard (run_handler f w) = clipboard w.
Proof.
  destruct f; simpl;
    unfold click_process_article, click_parse_tables, click_copy_article, click_copy_json;
    repeat (destruct (non_null _ _)); reflexivity.
Qed.

(** X14.  Requests leave the page only at a click: no settled promise and
    no timer sends one.  The clipboard changes only when a clipboard write
    settles successfully, and then it holds the text that was read at the
    click that started the write. *)
Theorem effects_have_one_source w ev :
  ((forall r, ev <> Click r) -> sent (step w ev) = sent w)
  /\ ((forall t, ev <> Settle t Written) -> clipboard (step w ev) = clipboard w)
  /\ (forall t, ev = Settle t Written -> clipboard (step w ev) <> clipboard w ->
        exists text btn idle,
          tasks w !! t = Some (Some (AwaitClipboard text btn idle))
          /\ clipboard (step w ev) = text).
Proof.
  split; [|split].
  - intros Hev. destruct ev as [r|t o|ms]; [destruct (Hev r eq_refl)| |reflexivity].
    simpl. unfold settle. destruct (tasks w !! t) as [[k|]|]; try reflexivity.
    destruct k, o; cbn [postJSON_resume]; try reflexivity;
      rewrite ?sent_resume; unfold copied; try (destruct btn); reflexivity.
  - intros Hev. destruct ev as [r|t o|ms]; [| |reflexivity].
    + simpl. unfold click. destruct (page w !! r) as [e|]; [|reflexivity].
      destruct (disabled e); [reflexivity|].
      generalize (listeners e). intros fs. revert w.
      induction fs as [|f fs IH]; intros w; simpl; [reflexivity|].
      rewrite IH. apply clipboard_run_handler.
    + simpl. unfold settle. destruct (tasks w !! t) as [[k|]|]; try reflexivity.
      destruct k, o; cbn [postJSON_resume]; try reflexivity;
        rewrite ?clipboard_resume; try reflexivity.
      destruct (Hev t eq_refl).
  - intros t -> Hchange. simpl in *. unfold settle in *.
    destruct (tasks w !! t) as [[k|]|]; try (destruct (Hchange eq_refl)).
    destruct k; cbn [postJSON_resume] in *; try (destruct (Hchange eq_refl)).
    exists text, btn, idle. split; [reflexivity|].
    unfold copied. destruct btn; reflexivity.
Qed.

Lemma effects_have_one_source_sample :
  sent (step filled_world (Elapse 5)) = sent filled_world
  /\ sent (step filled_world (Settle 0 Written)) = sent filled_world
  /\ clipboard (step filled_world (Click 3)) = clipboard filled_world.
Proof.
  split; [|split].
  - apply (proj1 (effects_have_one_source filled_world (Elapse 5))). discriminate.
  - apply (proj1 (effects_have_one_source filled_world (Settle 0 Written))). discriminate.
  - apply (proj1 (proj2 (effects_have_one_source filled_world (Click 3)))). discriminate.
Defined.

(** * A parse result with tables *)

(** The last step of a successful parse request whose body lists tables. *)
Lemma parse_tables_page w tk b m v ts :
  tasks w !! tk = Some (Some (AwaitJson (ParseTables b))) ->
  find_id "parse-tables-btn" (page w) = Some b ->
  find_id "tables-output" (page w) = Some m ->
  get v "tables" = Ok (VArr ts) ->
  forallb is_table ts = true ->
  ts <> [] ->
  let w1 := step w (Settle tk (BodyJson v)) in
  exists refs,
    label_at (page w1) m = map CNode refs
    /\ Forall2 (block_at (page w1)) refs ts
    /\ unhandled w1 = unhandled w
    /\ tasks w1 = <[tk := None]> (tasks w)
    /\ disabled_at (page w1) b = false
    /\ label_at (page w1) b = [CText (lit "Parse tables")].
Proof.
  intros Htk Hb Hm Hv Hts Hne w1.
  pose proof (find_id_lt _ _ _ Hb) as Hblt.
  assert (Hbm : b <> m) by (eapply find_id_distinct; [|exact Hb|exact Hm]; discriminate).
  destruct (renderTables_blocks ts (page w) m Hm Hts Hne)
    as (h1 & refs & Er & Hlab & Hblocks & Hrefs & _ & Hlen).
  assert (E1 : w1 = with_page (alter (with_textContent (lit "Parse tables")) b
                                 (alter (with_disabled false) b h1)) (finish tk w)).
  { unfold w1.
    rewrite (settle_finishes w tk (AwaitJson (ParseTables b)) (BodyJson v)
               (ParseTables b) (Ok v) Htk eq_refl).
    cbn [resume]. unfold resume_parse_tables, run, try_catch_finally.
    cbn [page finish with_tasks].
    rewrite bind_lift_ok, Hv, bind_lift_ok, Er.
    unfold update, bind. reflexivity. }
  exists refs. rewrite E1. cbn [page unhandled tasks with_page finish with_tasks].
  split; [|split; [|split; [reflexivity|split; [reflexivity|]]]].
  - rewrite !label_at_alter_ne by exact Hbm. exact Hlab.
  - clear -Hblocks Hrefs Hblt.
    induction Hblocks as [|r t refs ts Hblock _ IH]; [constructor|].
    inversion Hrefs as [|? ? Hr Hrest]; subst.
    constructor; [|apply IH; exact Hrest].
    apply (block_at_same h1); [exact Hblock|].
    intros x Hx. rewrite !list_lookup_alter_ne by lia. reflexivity.
  - apply (restored_button "P" "arse tables"). lia.
Qed.

(** X4.  When the parse request ends with a JSON body whose [tables] is a
    list of tables of the data model that is not empty, the tables area
    shows one block per table in order, no rejection is left unhandled, and
    the button is enabled again and labelled "Parse tables". *)
Theorem parse_success_shows_the_tables w tk b m v ts :
  tasks w !! tk = Some (Some (AwaitJson (ParseTables b))) ->
  find_id "parse-tables-btn" (page w) = Some b ->
  find_id "tables-output" (page w) = Some m ->
  get v "tables" = Ok (VArr ts) ->
  forallb is_table ts = true ->
  ts <> [] ->
  let w1 := step w (Settle tk (BodyJson v)) in
  content 6 (page w1) m = map block_tree ts
  /\ unhandled w1 = unhandled w
  /\ disabled_at (page w1) b = false
  /\ label_at (page w1) b = [CText (lit "Parse tables")].
Proof.
  intros Htk Hb Hm Hv Hts Hne w1.
  destruct (parse_tables_page w tk b m v ts Htk Hb Hm Hv Hts Hne)
    as (refs & Hlab & Hblocks & Hu & _ & Hd & Hl).
  fold w1 in Hlab, Hblocks, Hu, Hd, Hl.
  split; [|split; [exact Hu|split; [exact Hd|exact Hl]]].
  unfold content. unfold label_at in Hlab.
  destruct (page w1 !! m) as [e|].
  - rewrite Hlab. apply (views_of_blocks 0). exact Hblocks.
  - destruct refs; [|discriminate]. inversion Hblocks. reflexivity.
Qed.

Lemma parse_success_shows_the_tables_sample :
  let w := steps rendered_world [Click 5; Settle 1 (Response 200)] in
  let w1 := step w (Settle 1 (BodyJson (VObj [(lit "tables", VArr [ragged_table; table_T])]))) in
  content 6 (page w1) 6 = [block_tree ragged_table; block_T]
  /\ disabled_at (page w1) 5 = false.
Proof.
  intros w w1.
  destruct (parse_success_shows_the_tables w 1 5 6
              (VObj [(lit "tables", VArr [ragged_table; table_T])]) [ragged_table; table_T]
              eq_refl eq_refl eq_refl eq_refl eq_refl ltac:(discriminate))
    as (Hc & _ & Hd & _).
  split; [exact Hc|exact Hd].
Defined.



Section Local.
Context (ids : list string) (own : ref -> Prop) (n : nat).
Implicit Types (h : heap) (f : element -> element).

Lemma late_alter f r h : plain f -> late n h -> late n (alter f r h).
Proof.
  intros Hf Hl r' e' j b Hlook Hin.
  destruct (Nat.eq_dec r r') as [<-|Hne].
  - rewrite list_lookup_alter_eq in Hlook.
    destruct (h !! r) as [e|] eqn:He; [|discriminate]. injection Hlook as <-.
    eapply Hl; [exact He|]. apply Hf. exact Hin.
  - rewrite list_lookup_alter_ne in Hlook by exact Hne. eapply Hl; eauto.
Qed.

Lemma find_id_create i tag h r :
  i <> ""%string -> find_id i (h ++ [blank tag]) = Some r -> find_id i h = Some r.
Proof.
  intros Hi. revert r. induction h as [|e h IH]; intros r; simpl.
  - destruct i; [congruence|discriminate].
  - destruct (String.eqb (elem_id e) i); [trivial|].
    destruct (find_id i (h ++ [blank tag])) as [r'|]; [|discriminate].
    intros [= <-]. rewrite (IH r' eq_refl). reflexivity.
Qed.

Lemma anchored_alter f r h : plain f -> anchored ids own h -> anchored ids own (alter f r h).
Proof.
  intros Hf Ha i r' Hi Hne Hfind. rewrite find_id_alter in Hfind by (intros e; apply Hf).
  eapply Ha; eauto.
Qed.

Lemma anchored_create tag h : anchored ids own h -> anchored ids own (h ++ [blank tag]).
Proof.
  intros Ha i r Hi Hne Hfind. apply (Ha i r Hi Hne).
  eapply find_id_create; [exact Hne|exact Hfind].
Qed.

Lemma local_ret {A} (a : A) : local_to ids own n (ret a).
Proof. intros h Hn Hl Ha. auto. Qed.

Lemma local_lift {A} (x : result A) : local_to ids own n (lift x).
Proof. intros h Hn Hl Ha. auto. Qed.

Lemma local_create tag : local_to ids own n (createElement tag).
Proof.
  intros h Hn Hl Ha. unfold createElement. cbn [fst].
  split; [rewrite length_app; lia|]. split; [|split].
  - intros r e j b Hlook Hin.
    apply lookup_app_Some in Hlook as [Hlook|[_ Hlook]]; [eapply Hl; eauto|].
    destruct (r - length h) as [|k]; simpl in Hlook; [|destruct k; discriminate].
    injection Hlook as <-. destruct Hin.
  - apply anchored_create. exact Ha.
  - intros r Hr _. apply lookup_app_l. lia.
Qed.

Lemma local_update r f :
  own r \/ n <= r -> plain f -> local_to ids own n (update r f).
Proof.
  intros Hr Hf h Hn Hl Ha. unfold update. cbn [fst].
  split; [rewrite length_alter; exact Hn|]. split; [|split].
  - apply late_alter; assumption.
  - apply anchored_alter; assumption.
  - intros r' Hr' HS. apply list_lookup_alter_ne. intros ->.
    destruct Hr as [Hr|Hr]; [contradiction|lia].
Qed.

(** The listener of a table's button is added to a button created by the
    same call. *)
Lemma local_update_listener j b :
  n <= b -> local_to ids own n (update b (with_listener (OnCopyJson j b))).
Proof.
  intros Hb h Hn Hl Ha. unfold update. cbn [fst].
  split; [rewrite length_alter; exact Hn|]. split; [|split].
  - intros r e j' b' Hlook Hin.
    destruct (Nat.eq_dec b r) as [<-|Hne].
    + rewrite list_lookup_alter_eq in Hlook.
      destruct (h !! b) as [e0|] eqn:He0; [|discriminate]. injection Hlook as <-.
      simpl in Hin. apply in_app_or in Hin as [Hin|[Heq|[]]].
      * eapply Hl; eauto.
      * injection Heq as <- <-. exact Hb.
    + rewrite list_lookup_alter_ne in Hlook by exact Hne. eapply Hl; eauto.
  - intros i r Hi Hne Hfind. rewrite find_id_alter in Hfind by reflexivity.
    eapply Ha; eauto.
  - intros r' Hr' HS. apply list_lookup_alter_ne. lia.
Qed.

Lemma local_bind {A B} (m : dom A) (k : A -> dom B) :
  local_to ids own n m -> (forall a, local_to ids own n (k a)) -> local_to ids own n (bind m k).
Proof.
  intros Hm Hk h Hn Hl Ha. unfold bind.
  destruct (Hm h Hn Hl Ha) as (Hn1 & Hl1 & Ha1 & Hsame).
  destruct (m h) as [h1 [a|e]]; cbn [fst] in *; [|auto].
  destruct (Hk a h1 Hn1 Hl1 Ha1) as (Hn2 & Hl2 & Ha2 & Hsame2).
  repeat split; try assumption.
  intros r Hr HS. rewrite Hsame2, Hsame by assumption. reflexivity.
Qed.

Lemma local_bind_create {B} tag (k : ref -> dom B) :
  (forall a, n <= a -> local_to ids own n (k a)) ->
  local_to ids own n (bind (createElement tag) k).
Proof.
  intros Hk h Hn Hl Ha. unfold bind, createElement.
  destruct (local_create tag h Hn Hl Ha) as (Hn1 & Hl1 & Ha1 & Hsame).
  unfold createElement in *. cbn [fst] in *.
  destruct (Hk (length h) Hn _ Hn1 Hl1 Ha1) as (Hn2 & Hl2 & Ha2 & Hsame2).
  repeat split; try assumption.
  intros r Hr HS. rewrite Hsame2, Hsame by assumption. reflexivity.
Qed.

Lemma local_bind_getElementById {B} i (k : option ref -> dom B) :
  In i ids -> i <> ""%string ->
  (forall o, (forall r, o = Some r -> own r) -> local_to ids own n (k o)) ->
  local_to ids own n (bind (getElementById i) k).
Proof.
  intros Hi Hne Hk h Hn Hl Ha. rewrite bind_getElementById.
  apply Hk; try assumption. intros r Hr. eapply Ha; eauto.
Qed.

Lemma local_bind_non_null {B} p o (k : ref -> dom B) :
  (forall r, o = Some r -> local_to ids own n (k r)) ->
  local_to ids own n (bind (lift (non_null p o)) k).
Proof.
  intros Hk h Hn Hl Ha. destruct o as [r|]; cbn [non_null].
  - rewrite bind_lift_ok. apply Hk; auto.
  - rewrite bind_lift_throw. auto.
Qed.

Lemma local_forEach {A} (l : list A) (f : A -> dom unit) :
  (forall x, local_to ids own n (f x)) -> local_to ids own n (forEach l f).
Proof.
  intros Hf. induction l as [|x l IH]; simpl.
  - apply local_ret.
  - apply local_bind; [apply Hf|intros _; exact IH].
Qed.

Lemma local_if {A} (b : bool) (m1 m2 : dom A) :
  local_to ids own n m1 -> local_to ids own n m2 -> local_to ids own n (if b then m1 else m2).
Proof. destruct b; auto. Qed.

Lemma local_finally body handler final :
  local_to ids own n body -> (forall e, local_to ids own n (handler e)) -> local_to ids own n final ->
  local_to ids own n (try_catch_finally body handler final).
Proof.
  intros Hb Hh Hf h Hn Hl Ha. unfold try_catch_finally.
  destruct (Hb h Hn Hl Ha) as (Hn1 & Hl1 & Ha1 & Hs1).
  destruct (body h) as [h1 [a|e]]; cbn [fst] in *.
  - destruct (Hf h1 Hn1 Hl1 Ha1) as (Hn2 & Hl2 & Ha2 & Hs2).
    repeat split; try assumption.
    intros r Hr HS. rewrite Hs2, Hs1 by assumption. reflexivity.
  - destruct (Hh e h1 Hn1 Hl1 Ha1) as (Hn2 & Hl2 & Ha2 & Hs2).
    destruct (handler e h1) as [h2 [a|e2]]; cbn [fst] in *;
      destruct (Hf h2 Hn2 Hl2 Ha2) as (Hn3 & Hl3 & Ha3 & Hs3).
    + repeat split; try assumption.
      intros r Hr HS. rewrite Hs3, Hs2, Hs1 by assumption. reflexivity.
    + destruct (final h2) as [h3 [a|e3]]; cbn [fst] in *;
        (repeat split; try assumption;
         intros r Hr HS; rewrite Hs3, Hs2, Hs1 by assumption; reflexivity).
Qed.

End Local.


Ltac local_side :=
  first [ assumption
        | left; assumption | right; assumption
        | left; solve [eauto] | simpl; tauto ].

Ltac local_steps known :=
  repeat lazymatch goal with
    | |- local_to _ _ _ (bind (createElement _) _) =>
        apply local_bind_create; intros ? ?
    | |- local_to _ _ _ (bind (getElementById _) _) =>
        apply local_bind_getElementById;
        [first [assumption | simpl; tauto]|discriminate|intros ? ?]
    | |- local_to _ _ _ (bind (lift (non_null _ _)) _) =>
        apply local_bind_non_null; intros ? ?
    | |- local_to _ _ _ (bind _ _) => apply local_bind; [|intros ?]
    | |- local_to _ _ _ (ret _) => apply local_ret
    | |- local_to _ _ _ (lift _) => apply local_lift
    | |- local_to _ _ _ (createElement _) => apply local_create
    | |- local_to _ _ _ (update _ (with_listener (OnCopyJson _ _))) =>
        apply local_update_listener; assumption
    | |- local_to _ _ _ (update _ _) =>
        apply local_update;
        [ local_side
        | first [ solve [auto with plain]
                | apply plain_listener; intros; discriminate ] ]
    | |- local_to _ _ _ (forEach _ _) => apply local_forEach; intros ?
    | |- local_to _ _ _ (if _ then _ else _) => apply local_if
    | |- local_to _ _ _ (try_catch_finally _ _ _) =>
        apply local_finally; [|intros ?|]
    | |- local_to _ _ _ _ => known
    end.

Section LocalRender.
Context (ids : list string) (Hmount : In "tables-output"%string ids).
Context (own : ref -> Prop) (n : nat).

Lemma local_renderReadonlyTable t : local_to ids own n (renderReadonlyTable t).
Proof. unfold renderReadonlyTable. local_steps fail. Qed.

Lemma local_renderTableBlock c t :
  own c \/ n <= c -> local_to ids own n (renderTableBlock c t).
Proof.
  intros Hc. unfold renderTableBlock.
  local_steps ltac:(apply local_renderReadonlyTable).
Qed.

Lemma local_renderTables tables : local_to ids own n (renderTables tables).
Proof.
  unfold renderTables.
  local_steps ltac:(apply local_renderTableBlock; left; eauto).
Qed.

End LocalRender.

(** * Events change only what the script owns *)

Section Minded.
Context (own : ref -> Prop) (n : nat).
Implicit Types (w : world) (h : heap).

Lemma untouched_refl h : untouched own n h h.
Proof. intros r _ _. reflexivity. Qed.

Lemma untouched_trans h1 h2 h3 :
  untouched own n h1 h2 -> untouched own n h2 h3 -> untouched own n h1 h3.
Proof. intros H12 H23 r Hr Ho. rewrite H23, H12 by assumption. reflexivity. Qed.

Lemma untouched_alter f r h : own r \/ n <= r -> untouched own n h (alter f r h).
Proof.
  intros Hr r' Hr' Ho. apply list_lookup_alter_ne. intros ->.
  destruct Hr as [Hr|Hr]; [contradiction|lia].
Qed.

Lemma minded_run m w :
  minded own n w -> local_to owned_ids own n m ->
  minded own n (run m w) /\ untouched own n (page w) (page (run m w)).
Proof.
  intros [Hn Hl Ha Ht Htm] Hm.
  destruct (Hm (page w) Hn Hl Ha) as (Hn1 & Hl1 & Ha1 & Hs1).
  split.
  - split; rewrite ?page_run, ?tasks_run, ?timers_run; assumption.
  - rewrite page_run. exact Hs1.
Qed.

Lemma minded_same_page w w' :
  minded own n w -> page w' = page w ->
  (forall t k, tasks w' !! t = Some (Some k) -> task_minds own n k) ->
  (forall tm, In tm (timers w') -> own (timer_btn tm) \/ n <= timer_btn tm) ->
  minded own n w'.
Proof.
  intros [Hn Hl Ha Ht Htm] Hp Ht' Htm'. split; rewrite ?Hp; assumption.
Qed.

Lemma minded_finish t w : minded own n w -> minded own n (finish t w).
Proof.
  intros Hm. apply (minded_same_page w); [exact Hm|reflexivity| |apply (m_timers _ _ _ Hm)].
  intros t' k H. simpl in H.
  apply lookup_insert_pending in H as [[_ [=]]|[_ H]]. eapply (m_tasks _ _ _ Hm); exact H.
Qed.

Lemma minded_reject e w : minded own n w -> minded own n (reject e w).
Proof.
  intros Hm. apply (minded_same_page w); [exact Hm|reflexivity| |apply (m_timers _ _ _ Hm)].
  intros t k H. eapply (m_tasks _ _ _ Hm); exact H.
Qed.

Lemma minded_park k w : minded own n w -> task_minds own n k -> minded own n (park k w).
Proof.
  intros Hm Hk. apply (minded_same_page w); [exact Hm|reflexivity| |apply (m_timers _ _ _ Hm)].
  intros t k' H. simpl in H.
  apply lookup_snoc_pending in H as [[_ [= <-]]|[_ H]]; [exact Hk|].
  eapply (m_tasks _ _ _ Hm); exact H.
Qed.

Lemma minded_resume who r w :
  minded own n w -> who_minds own who ->
  minded own n (resume who r w) /\ untouched own n (page w) (page (resume who r w)).
Proof.
  intros Hm Hwho. destruct who as [btn outEl|btn]; simpl in Hwho; cbn [resume];
    unfold resume_process_article, resume_parse_tables; apply minded_run; try exact Hm.
  - destruct Hwho as [Hb Ho].
    local_steps fail.
  - local_steps ltac:(apply local_renderTables; simpl; tauto).
Qed.

(** A request handler that has found its button. *)
Lemma minded_request_start w btn who label u p :
  minded own n w -> own btn -> who_minds own who ->
  let h := alter (with_textContent label) btn (alter (with_disabled true) btn (page w)) in
  minded own n (postJSON u p who (with_page h w))
  /\ untouched own n (page w) (page (postJSON u p who (with_page h w))).
Proof.
  intros [Hn Hl Ha Ht Htm] Hb Hwho h. split.
  - split; cbn [page tasks timers postJSON park with_tasks with_sent with_page].
    + unfold h. rewrite !length_alter. exact Hn.
    + unfold h. repeat apply late_alter; auto with plain.
    + unfold h. repeat apply anchored_alter; auto with plain.
    + intros t k H. apply lookup_snoc_pending in H as [[_ [= <-]]|[_ H]]; [exact Hwho|].
      eapply Ht; exact H.
    + exact Htm.
  - cbn [page postJSON park with_tasks with_sent with_page]. unfold h.
    eapply untouched_trans; apply untouched_alter; left; exact Hb.
Qed.

Lemma minded_run_handler f w r e :
  minded own n w -> page w !! r = Some e -> In f (listeners e) ->
  minded own n (run_handler f w)
  /\ untouched own n (page w) (page (run_handler f w)).
Proof.
  intros Hm He Hin.
  assert (Hrej : forall x, minded own n (reject x w)
                           /\ untouched own n (page w) (page (reject x w))).
  { intros x. split; [apply minded_reject; exact Hm|apply untouched_refl]. }
  pose proof (m_anchored _ _ _ Hm) as Ha.
  assert (Ha' : forall i x, In i owned_ids -> find_id i (page w) = Some x -> own x).
  { intros i x Hi Hf. apply (Ha i x Hi); [|exact Hf].
    simpl in Hi. intros ->. destruct Hi as [E|[E|[E|[E|[E|[]]]]]]; discriminate. }
  clear Ha. rename Ha' into Ha.
  destruct f; cbn [run_handler].
  - unfold click_process_article.
    destruct (find_id "article-input" (page w)); cbn [non_null]; [|apply Hrej].
    destruct (find_id "process-article-btn" (page w)) as [btn|] eqn:Hb;
      cbn [non_null]; [|apply Hrej].
    apply minded_request_start; [exact Hm| |].
    + apply (Ha "process-article-btn"%string); [simpl; tauto|exact Hb].
    + split.
      * apply (Ha "process-article-btn"%string); [simpl; tauto|exact Hb].
      * intros o Ho. apply (Ha "article-output"%string); [simpl; tauto|exact Ho].
  - unfold click_copy_article.
    destruct (find_id "article-output" (page w)); cbn [non_null]; [|apply Hrej].
    split; [|apply untouched_refl].
    apply minded_park; [exact Hm|]. intros b Hb. left.
    apply (Ha "copy-article-btn"%string); [simpl; tauto|exact Hb].
  - unfold click_parse_tables.
    destruct (find_id "gpt-input" (page w)); cbn [non_null]; [|apply Hrej].
    destruct (find_id "parse-tables-btn" (page w)) as [btn|] eqn:Hb;
      cbn [non_null]; [|apply Hrej].
    apply minded_request_start; [exact Hm| |].
    + apply (Ha "parse-tables-btn"%string); [simpl; tauto|exact Hb].
    + apply (Ha "parse-tables-btn"%string); [simpl; tauto|exact Hb].
  - split; [|apply untouched_refl].
    apply minded_park; [exact Hm|]. intros b [= <-]. right.
    eapply (m_late _ _ _ Hm); eauto.
Qed.

Lemma minded_run_handlers fs w r :
  minded own n w ->
  (forall f, In f fs -> exists e, page w !! r = Some e /\ In f (listeners e)) ->
  minded own n (fold_left (fun w f => run_handler f w) fs w)
  /\ untouched own n (page w) (page (fold_left (fun w f => run_handler f w) fs w)).
Proof.
  revert w. induction fs as [|f fs IH]; intros w Hm Hfs; simpl.
  - split; [exact Hm|apply untouched_refl].
  - destruct (Hfs f (or_introl eq_refl)) as (e & He & Hin).
    destruct (minded_run_handler f w r e Hm He Hin) as [Hm1 Hu1].
    destruct (IH (run_handler f w) Hm1) as [Hm2 Hu2].
    { intros f' Hf'. destruct (Hfs f' (or_intror Hf')) as (e' & He' & Hin').
      pose proof (run_handler_listeners f w r) as Hl. rewrite He' in Hl. simpl in Hl.
      destruct (page (run_handler f w) !! r) as [e''|]; [|discriminate].
      injection Hl as Hl. exists e''. split; [reflexivity|]. rewrite Hl. exact Hin'. }
    split; [exact Hm2|]. eapply untouched_trans; eassumption.
Qed.

Lemma minded_click r w :
  minded own n w ->
  minded own n (click r w) /\ untouched own n (page w) (page (click r w)).
Proof.
  intros Hm. unfold click.
  destruct (page w !! r) as [e|] eqn:He; [|split; [exact Hm|apply untouched_refl]].
  destruct (disabled e); [split; [exact Hm|apply untouched_refl]|].
  apply (minded_run_handlers _ _ r); [exact Hm|]. intros f Hf. eauto.
Qed.

Lemma minded_settle t o w :
  minded own n w ->
  minded own n (settle t o w) /\ untouched own n (page w) (page (settle t o w)).
Proof.
  intros Hm.
  assert (Hsame : minded own n w /\ untouched own n (page w) (page w))
    by (split; [exact Hm|apply untouched_refl]).
  unfold settle. destruct (tasks w !! t) as [[k|]|] eqn:Hk; try exact Hsame.
  pose proof (m_tasks _ _ _ Hm t k Hk) as Hmind.
  assert (Hrepark : forall k', task_minds own n k' ->
            minded own n (repark t k' w) /\ untouched own n (page w) (page (repark t k' w))).
  { intros k' Hk'. split; [|apply untouched_refl].
    apply (minded_same_page w); [exact Hm|reflexivity| |apply (m_timers _ _ _ Hm)].
    intros t' k0 H. simpl in H.
    apply lookup_insert_pending in H as [[_ [= <-]]|[_ H]]; [exact Hk'|].
    eapply (m_tasks _ _ _ Hm); exact H. }
  assert (Hfin : forall who r, who_minds own who ->
            minded own n (resume who r (finish t w))
            /\ untouched own n (page w) (page (resume who r (finish t w)))).
  { intros who r Hwho. apply (minded_resume who r (finish t w)); [|exact Hwho].
    apply minded_finish. exact Hm. }
  destruct k, o; cbn [postJSON_resume]; try exact Hsame;
    try (apply Hfin; exact Hmind).
  - apply Hrepark. destruct (ok status); exact Hmind.
  - unfold copied. destruct btn as [b|]; cbn [non_null].
    + pose proof (minded_finish t w Hm) as [Hn Hl Ha Ht Htm].
      destruct (Hmind b eq_refl) as [Hb|Hb].
      * split; [|apply untouched_alter; left; exact Hb].
        split; cbn [page tasks timers with_timers with_page with_clipboard] in *;
          [rewrite length_alter; exact Hn
          |apply late_alter; [apply plain_textContent|exact Hl]
          |apply anchored_alter; [apply plain_textContent|exact Ha]
          |exact Ht|].
        intros tm Hin. apply in_app_or in Hin as [Hin|[<-|[]]]; [apply Htm; exact Hin|].
        left. exact Hb.
      * split; [|apply untouched_alter; right; exact Hb].
        split; cbn [page tasks timers with_timers with_page with_clipboard] in *;
          [rewrite length_alter; exact Hn
          |apply late_alter; [apply plain_textContent|exact Hl]
          |apply anchored_alter; [apply plain_textContent|exact Ha]
          |exact Ht|].
        intros tm Hin. apply in_app_or in Hin as [Hin|[<-|[]]]; [apply Htm; exact Hin|].
        right. exact Hb.
    + split; [|apply untouched_refl]. apply minded_reject.
      apply (minded_same_page (finish t w)); [apply minded_finish; exact Hm|reflexivity| |].
      * intros t' k' H. eapply (m_tasks _ _ _ (minded_finish t w Hm)); exact H.
      * apply (m_timers _ _ _ Hm).
  - split; [|apply untouched_refl]. apply minded_reject, minded_finish. exact Hm.
Qed.

Lemma minded_fire_all tms h :
  (forall tm, In tm tms -> own (timer_btn tm) \/ n <= timer_btn tm) ->
  n <= length h -> late n h -> anchored owned_ids own h ->
  n <= length (fold_left fire tms h) /\ late n (fold_left fire tms h)
  /\ anchored owned_ids own (fold_left fire tms h)
  /\ untouched own n h (fold_left fire tms h).
Proof.
  revert h. induction tms as [|tm tms IH]; intros h Htm Hn Hl Ha; simpl.
  - repeat split; try assumption.
  - destruct (IH (fire h tm)) as (Hn2 & Hl2 & Ha2 & Hu2).
    + intros tm' Hin. apply Htm. right. exact Hin.
    + unfold fire. rewrite length_alter. exact Hn.
    + apply late_alter; [apply plain_textContent|exact Hl].
    + apply anchored_alter; [apply plain_textContent|exact Ha].
    + repeat split; try assumption.
      eapply untouched_trans; [|exact Hu2].
      apply untouched_alter. apply Htm. left. reflexivity.
Qed.

Lemma minded_step w ev :
  minded own n w ->
  minded own n (step w ev) /\ untouched own n (page w) (page (step w ev)).
Proof.
  intros Hm. destruct ev as [r|t o|ms]; cbn [step].
  - apply minded_click. exact Hm.
  - apply minded_settle. exact Hm.
  - destruct Hm as [Hn Hl Ha Ht Htm].
    destruct (minded_fire_all
                (List.filter (fun tm => (due tm <=? clock w + ms)%N) (timers w)) (page w))
      as (Hn2 & Hl2 & Ha2 & Hu2); try assumption.
    { intros tm Hin. apply filter_In in Hin as [Hin _]. apply Htm. exact Hin. }
    split; [|exact Hu2].
    split; cbn [elapse page tasks timers with_clock with_timers with_page]; try assumption.
    intros tm Hin. apply filter_In in Hin as [Hin _]. apply Htm. exact Hin.
Qed.

Lemma minded_steps evs w :
  minded own n w ->
  minded own n (steps w evs) /\ untouched own n (page w) (page (steps w evs)).
Proof.
  revert w. induction evs as [|ev evs IH]; intros w Hm.
  - split; [exact Hm|apply untouched_refl].
  - change (steps w (ev :: evs)) with (steps (step w ev) evs).
    destruct (minded_step w ev Hm) as [Hm1 Hu1].
    destruct (IH (step w ev) Hm1) as [Hm2 Hu2].
    split; [exact Hm2|]. eapply untouched_trans; eassumption.
Qed.

End Minded.

Lemma owned_anchored h : anchored owned_ids (fun r => owned h r = true) h.
Proof.
  intros i r Hi _ Hfind. unfold owned. apply existsb_exists.
  exists i. split; [exact Hi|]. rewrite Hfind. apply Nat.eqb_refl.
Qed.

Lemma main_minded w :
  fresh w ->
  minded (fun r => owned (page w) r = true) (length (page w)) (main w)
  /\ untouched (fun r => owned (page w) r = true) (length (page w)) (page w) (page (main w)).
Proof.
  intros (Htasks & Htimers & Hbare).
  unfold main. apply minded_run.
  - split.
    + lia.
    + intros r e j b He Hin. rewrite (Hbare r e He) in Hin. destruct Hin.
    + apply owned_anchored.
    + intros t k H. rewrite Htasks in H. discriminate.
    + intros tm H. rewrite Htimers in H. destruct H.
  - local_steps fail.
Qed.

(** X15.  Whatever events follow the loading of the script, the script
    changes no property of an element of the original page that is none of
    the five it looks up in order to change (the three buttons,
    article-output, tables-output): the id, the class, the value, the flags,
    the listeners and the list of children of such an element stay as the
    page had them.  In particular the script never writes to the two input
    fields.  The statement is about the element, not about where it hangs:
    an element that lies inside tables-output or inside one of the buttons
    leaves the page, itself unchanged, when the script replaces the content
    of that ancestor. *)
Theorem script_changes_only_its_elements w0 evs r :
  fresh w0 ->
  r < length (page w0) ->
  owned (page w0) r = false ->
  page (steps (main w0) evs) !! r = page w0 !! r.
Proof.
  intros Hfresh Hr Hown.
  destruct (main_minded w0 Hfresh) as [Hm Hu].
  destruct (minded_steps _ _ evs (main w0) Hm) as [_ Hu2].
  rewrite Hu2, Hu; try assumption; try reflexivity; rewrite Hown; discriminate.
Qed.

Lemma script_changes_only_its_elements_sample :
  page (steps (main sample_blank)
          [Click 1; Click 5; Settle 0 (Response 200); Settle 1 (Response 500);
           Settle 1 (BodyText (lit "err")); Click 3; Settle 2 Written; Elapse 1200;
           Settle 0 (BodyJson (VObj [(lit "condensed", VStr (lit "short"))]))]) !! 0
  = Some (named "textarea" "article-input").
Proof.
  exact (script_changes_only_its_elements sample_blank _ 0 sample_blank_fresh
           ltac:(simpl; lia) eq_refl).
Defined.


Section Announced.
Implicit Types (w : world) (h : heap).

Lemma home_apart h who b c :
  find_id (home_id who) h = Some b -> copy_target h c -> b <> c.
Proof.
  intros Hb Hc ->. destruct (find_id_lookup _ _ _ Hb) as (e & He & Hid).
  unfold copy_target, elem_id_at, wiring_at in Hc. rewrite He in Hc. simpl in Hc.
  rewrite Hid in Hc. destruct who, Hc; discriminate.
Qed.

Lemma copy_target_same_wiring h h' c :
  same_wiring h h' -> copy_target h c -> copy_target h' c.
Proof.
  intros Hw Hc. unfold copy_target. rewrite (elem_id_at_same_wiring _ _ _ Hw). exact Hc.
Qed.

Lemma busy_by_home who who' : home_id who = home_id who' -> busy_label who = busy_label who'.
Proof. destruct who, who'; try discriminate; reflexivity. Qed.

Lemma home_of_button h who who' :
  find_id (home_id who) h = Some (requester_button who) ->
  find_id (home_id who') h = Some (requester_button who') ->
  requester_button who = requester_button who' ->
  home_id who = home_id who'.
Proof.
  intros H H' E. destruct (string_dec (home_id who) (home_id who')) as [|Hne]; [assumption|].
  exfalso. eapply (find_id_distinct _ _ _ _ _ Hne); eauto.
Qed.

(** Page changes that keep ids and the labels of the buttons with a pending
    request, and task changes that add no request, keep the invariant. *)
Lemma announced_frame w w' :
  announced w ->
  same_wiring (page w) (page w') ->
  (forall t k who, tasks w' !! t = Some (Some k) -> requester_at k = Some who ->
     (exists t0 k0, tasks w !! t0 = Some (Some k0) /\ requester_at k0 = Some who)
     /\ label_at (page w') (requester_button who) = label_at (page w) (requester_button who)) ->
  (forall t text c idle,
     tasks w' !! t = Some (Some (AwaitClipboard text (Some c) idle)) ->
     copy_target (page w) c) ->
  (forall tm, In tm (timers w') -> copy_target (page w) (timer_btn tm)) ->
  announced w'.
Proof.
  intros [Hreq Hcop Htim] Hw Hreq' Hcop' Htim'. split.
  - intros t k who Ht Hk.
    destruct (Hreq' t k who Ht Hk) as ((t0 & k0 & Ht0 & Hk0) & Hlab).
    destruct (Hreq t0 k0 who Ht0 Hk0) as (Hfind & Hout & Hbusy).
    split; [eapply find_id_same_wiring; eauto|]. split.
    + intros o Ho. eapply find_id_same_wiring; eauto.
    + rewrite Hlab. exact Hbusy.
  - intros t text c idle Ht. eapply copy_target_same_wiring; eauto.
  - intros tm Hin. eapply copy_target_same_wiring; eauto.
Qed.

Lemma announced_same_page w w' :
  announced w -> page w' = page w ->
  (forall t k, tasks w' !! t = Some (Some k) ->
     (exists t0, tasks w !! t0 = Some (Some k))
     \/ (exists text c idle, k = AwaitClipboard text c idle
                             /\ forall b, c = Some b -> copy_target (page w) b)) ->
  (forall tm, In tm (timers w') -> In tm (timers w)) ->
  announced w'.
Proof.
  intros Ha Hp Ht Htm. apply (announced_frame w); [exact Ha|rewrite Hp; apply same_wiring_refl| | |].
  - intros t k who H Hk. rewrite Hp. split; [|reflexivity].
    destruct (Ht t k H) as [[t0 H0]|(text & c & idle & -> & _)]; [eauto|discriminate].
  - intros t text c idle H.
    destruct (Ht _ _ H) as [[t0 H0]|(text' & c' & idle' & [= <- <- <-] & Hc)].
    + eapply (an_copies w Ha); exact H0.
    + apply Hc. reflexivity.
  - intros tm H. apply (an_timers w Ha). apply Htm. exact H.
Qed.

Lemma announced_reject e w : announced w -> announced (reject e w).
Proof.
  intros Ha. apply (announced_same_page w); [exact Ha|reflexivity| |auto].
  intros t k H. left. eauto.
Qed.

Lemma announced_finish t w : announced w -> announced (finish t w).
Proof.
  intros Ha. apply (announced_same_page w); [exact Ha|reflexivity| |auto].
  intros t' k H. simpl in H.
  apply lookup_insert_pending in H as [[_ [=]]|[_ H]]. left. eauto.
Qed.

Lemma announced_park_copy text c idle w :
  announced w -> (forall b, c = Some b -> copy_target (page w) b) ->
  announced (park (AwaitClipboard text c idle) w).
Proof.
  intros Ha Hc. apply (announced_same_page w); [exact Ha|reflexivity| |auto].
  intros t k H. simpl in H.
  apply lookup_snoc_pending in H as [[_ [= <-]]|[_ H]]; [|left; eauto].
  right. exists text, c, idle. auto.
Qed.

(** A request handler that has found its button. *)
Lemma announced_request_start w u p who btn :
  announced w ->
  find_id (home_id who) (page w) = Some btn ->
  requester_button who = btn ->
  (forall o, out_of who = Some o -> find_id "article-output" (page w) = Some o) ->
  announced
    (postJSON u p who
       (with_page (alter (with_textContent (busy_label who)) btn
                     (alter (with_disabled true) btn (page w))) w)).
Proof.
  intros [Hreq Hcop Htim] Hb Hwho Hout.
  pose proof (find_id_lt _ _ _ Hb) as Hlt.
  set (h' := alter (with_textContent (busy_label who)) btn
               (alter (with_disabled true) btn (page w))).
  assert (Hfind : forall i, find_id i h' = find_id i (page w)).
  { intros i. unfold h'. rewrite !find_id_alter by reflexivity. reflexivity. }
  assert (Hid : forall c, copy_target (page w) c -> copy_target h' c).
  { intros c Hc. unfold copy_target, h'. rewrite !elem_id_at_alter by reflexivity. exact Hc. }
  assert (Hbusy : label_at h' btn = [CText (busy_label who)]).
  { unfold h'. destruct who; apply label_at_textContent; rewrite length_alter; exact Hlt. }
  split; cbn [page tasks timers postJSON park with_tasks with_sent with_page].
  - intros t k who0 Ht Hk. rewrite !Hfind.
    apply lookup_snoc_pending in Ht as [[_ [= <-]]|[_ Ht]].
    + injection Hk as <-. rewrite Hwho. auto.
    + destruct (Hreq t k who0 Ht Hk) as (Hf0 & Ho0 & Hl0).
      split; [exact Hf0|]. split; [exact Ho0|].
      destruct (Nat.eq_dec btn (requester_button who0)) as [E|Hne].
      * rewrite <- E, Hbusy. f_equal. f_equal. apply busy_by_home.
        apply (home_of_button (page w)); congruence.
      * unfold h'. rewrite !label_at_alter_ne by exact Hne. exact Hl0.
  - intros t text c idle Ht.
    apply lookup_snoc_pending in Ht as [[_ [=]]|[_ Ht]]. apply Hid. eapply Hcop; exact Ht.
  - intros tm Hin. apply Hid. apply Htim. exact Hin.
Qed.

(** A listener that is on the page keeps the invariant when it runs. *)
Lemma announced_run_handler f w r e :
  scripted (page w) -> announced w ->
  page w !! r = Some e -> In f (listeners e) ->
  announced (run_handler f w).
Proof.
  intros Hs Ha He Hin. destruct f; cbn [run_handler].
  - unfold click_process_article.
    destruct (find_id "article-input" (page w)); cbn [non_null];
      [|apply announced_reject; exact Ha].
    destruct (find_id "process-article-btn" (page w)) as [btn|] eqn:Hb;
      cbn [non_null]; [|apply announced_reject; exact Ha].
    apply (announced_request_start w _ _ (Condense btn _) btn); auto.
  - unfold click_copy_article.
    destruct (find_id "article-output" (page w)); cbn [non_null];
      [|apply announced_reject; exact Ha].
    apply announced_park_copy; [exact Ha|]. intros b Hb. left.
    destruct (find_id_lookup _ _ _ Hb) as (eb & Heb & Hid).
    unfold elem_id_at, wiring_at. rewrite Heb. exact Hid.
  - unfold click_parse_tables.
    destruct (find_id "gpt-input" (page w)); cbn [non_null];
      [|apply announced_reject; exact Ha].
    destruct (find_id "parse-tables-btn" (page w)) as [btn|] eqn:Hb;
      cbn [non_null]; [|apply announced_reject; exact Ha].
    apply (announced_request_start w _ _ (ParseTables btn) btn); auto.
    intros o [=].
  - apply announced_park_copy; [exact Ha|]. intros b [= <-]. right.
    eapply Hs; eauto.
Qed.

Lemma announced_run_handlers fs w r :
  tidy w -> announced w ->
  (forall f, In f fs -> exists e, page w !! r = Some e /\ In f (listeners e)) ->
  announced (fold_left (fun w f => run_handler f w) fs w).
Proof.
  revert w. induction fs as [|f fs IH]; intros w Ht Ha Hfs; simpl; [exact Ha|].
  destruct (Hfs f (or_introl eq_refl)) as (e & He & Hin).
  apply IH.
  - eapply tidy_run_handler; eauto.
  - eapply announced_run_handler; eauto. apply (tidy_scripted w Ht).
  - intros f' Hf'. destruct (Hfs f' (or_intror Hf')) as (e' & He' & Hin').
    pose proof (run_handler_listeners f w r) as Hl. rewrite He' in Hl. simpl in Hl.
    destruct (page (run_handler f w) !! r) as [e''|]; [|discriminate].
    injection Hl as Hl. exists e''. split; [reflexivity|]. rewrite Hl. exact Hin'.
Qed.

Lemma announced_click r w : tidy w -> announced w -> announced (click r w).
Proof.
  intros Ht Ha. unfold click. destruct (page w !! r) as [e|] eqn:He; [|exact Ha].
  destruct (disabled e); [exact Ha|].
  apply (announced_run_handlers _ _ r); [exact Ht|exact Ha|]. intros f Hf. eauto.
Qed.

Lemma owned_lt h r : owned h r = true -> r < length h.
Proof.
  unfold owned. intros H. apply existsb_exists in H as (i & _ & H).
  destruct (find_id i h) as [r'|] eqn:E; [|discriminate].
  apply Nat.eqb_eq in H as <-. eapply find_id_lt; eauto.
Qed.

Lemma same_wiring_resume who r w : same_wiring (page w) (page (resume who r w)).
Proof.
  destruct (page_resume who r w) as (h2 & [Hk _] & ->).
  eapply same_wiring_trans; [exact Hk|].
  eapply same_wiring_trans; apply same_wiring_alter.
  - apply harmless_disabled.
  - apply benign_textContent.
Qed.

(** A request that ends leaves the buttons of the other requests alone. *)
Lemma announced_resume n w t k who r :
  consistent w -> announced w ->
  n <= length (page w) -> late n (page w) ->
  (forall i x, In i owned_ids -> find_id i (page w) = Some x -> x < n) ->
  tasks w !! t = Some (Some k) -> requester_at k = Some who ->
  announced (resume who r (finish t w)).
Proof.
  intros Hc Ha Hn Hl Hlow Ht Hk.
  destruct (an_requests w Ha t k who Ht Hk) as (Hhome & Hout & _).
  set (b := requester_button who) in *.
  set (own := fun x => x = b \/ out_of who = Some x
                       \/ find_id "tables-output" (page w) = Some x).
  assert (Hlocal : untouched own n (page w) (page (resume who r (finish t w)))).
  { assert (Hanch : anchored ["tables-output"%string] own (page w)).
    { intros i x [<-|[]] _ Hx. right. right. exact Hx. }
    assert (Hb : own b) by (left; reflexivity).
    assert (Ho : forall o, out_of who = Some o -> own o) by (intros o E; right; left; exact E).
    destruct who as [btn outEl|btn]; cbn [resume out_of requester_button] in *;
      unfold resume_process_article, resume_parse_tables; rewrite page_run;
      cbn [page finish with_tasks].
    - match goal with
      | |- untouched _ _ _ (fst (?m _)) =>
          assert (Hloc : local_to ["tables-output"%string] own n m) by local_steps fail
      end.
      exact (proj2 (proj2 (proj2 (Hloc (page w) Hn Hl Hanch)))).
    - match goal with
      | |- untouched _ _ _ (fst (?m _)) =>
          assert (Hloc : local_to ["tables-output"%string] own n m)
            by local_steps ltac:(apply local_renderTables; simpl; tauto)
      end.
      exact (proj2 (proj2 (proj2 (Hloc (page w) Hn Hl Hanch)))). }
  apply (announced_frame w); [exact Ha|apply (same_wiring_resume who r (finish t w))| | |].
  - intros t' k' who' Ht' Hk'. rewrite tasks_resume in Ht'. simpl in Ht'.
    apply lookup_insert_pending in Ht' as [[_ [=]]|[Hne Ht']].
    split; [eauto|].
    destruct (an_requests w Ha t' k' who' Ht' Hk') as (Hhome' & _ & _).
    set (b' := requester_button who') in *.
    unfold label_at. rewrite Hlocal; [reflexivity| |].
    + apply (Hlow (home_id who')); [destruct who'; simpl; tauto|exact Hhome'].
    + assert (Hbb : b <> b').
      { intros E. apply Hne.
        eapply (inv_unique w Hc t' t k' k b'); eauto.
        - destruct k'; simpl in Hk' |- *; try discriminate; injection Hk' as ->; reflexivity.
        - rewrite <- E. destruct k; simpl in Hk |- *; try discriminate;
            injection Hk as ->; reflexivity. }
      intros [E|[E|E]].
      * congruence.
      * apply Hout in E.
        eapply (find_id_distinct (home_id who') "article-output"); eauto.
        destruct who'; discriminate.
      * eapply (find_id_distinct (home_id who') "tables-output"); eauto.
        destruct who'; discriminate.
  - intros t' text c idle Ht'. rewrite tasks_resume in Ht'. simpl in Ht'.
    apply lookup_insert_pending in Ht' as [[_ [=]]|[_ Ht']].
    eapply (an_copies w Ha); exact Ht'.
  - intros tm Hin. rewrite timers_resume in Hin. apply (an_timers w Ha). exact Hin.
Qed.

Lemma announced_settle n t o w :
  consistent w -> announced w ->
  n <= length (page w) -> late n (page w) ->
  (forall i x, In i owned_ids -> find_id i (page w) = Some x -> x < n) ->
  announced (settle t o w).
Proof.
  intros Hc Ha Hn Hl Hlow. unfold settle.
  destruct (tasks w !! t) as [[k|]|] eqn:Hk; try exact Ha.
  assert (Hrepark : forall k' who, requester_at k' = Some who -> requester_at k = Some who ->
            announced (repark t k' w)).
  { intros k' who0 Hk' Hk0.
    apply (announced_frame w); [exact Ha|apply same_wiring_refl| | |apply (an_timers w Ha)].
    - intros t' k0 who H Hwho. split; [|reflexivity]. simpl in H.
      apply lookup_insert_pending in H as [[_ [= <-]]|[_ H]]; [|eauto].
      exists t, k. split; [exact Hk|congruence].
    - intros t' text c idle H. simpl in H.
      apply lookup_insert_pending in H as [[_ [= ->]]|[_ H]]; [discriminate|].
      eapply (an_copies w Ha); exact H. }
  destruct k, o; cbn [postJSON_resume]; try exact Ha;
    try (eapply (announced_resume n w t); eauto; reflexivity).
  - apply (Hrepark _ who); [destruct (ok status)|]; reflexivity.
  - unfold copied. destruct btn as [c|]; cbn [non_null].
    + pose proof (an_copies w Ha t text c idle Hk) as Hc'.
      apply (announced_frame w); [exact Ha| | | |].
      * cbn [page with_timers with_page with_clipboard finish with_tasks].
        apply same_wiring_alter. apply benign_textContent.
      * intros t' k' who H Hwho. simpl in H.
        apply lookup_insert_pending in H as [[_ [=]]|[_ H]].
        split; [eauto|].
        destruct (an_requests w Ha t' k' who H Hwho) as (Hhome & _ & _).
        cbn [page with_timers with_page with_clipboard finish with_tasks].
        apply label_at_alter_ne. intros E.
        eapply (home_apart (page w) who); eauto.
      * intros t' text' c' idle' H. simpl in H.
        apply lookup_insert_pending in H as [[_ [=]]|[_ H]].
        eapply (an_copies w Ha); exact H.
      * intros tm Hin. simpl in Hin.
        apply in_app_or in Hin as [Hin|[<-|[]]]; [apply (an_timers w Ha); exact Hin|].
        exact Hc'.
    + apply announced_reject. apply (announced_same_page (finish t w));
        [apply announced_finish; exact Ha|reflexivity| |auto].
      intros t' k' H. left. eauto.
  - apply announced_reject, announced_finish. exact Ha.
Qed.

Lemma announced_elapse ms w : announced w -> announced (elapse ms w).
Proof.
  intros Ha. apply (announced_frame w); [exact Ha|apply fire_all_keeps| | |].
  - intros t k who H Hwho. split; [eauto|].
    destruct (an_requests w Ha t k who H Hwho) as (Hhome & _ & _).
    cbn [elapse page with_clock with_timers with_page].
    apply label_at_fire_others. apply List.Forall_forall. intros tm Hin.
    apply filter_In in Hin as [Hin _]. intros E.
    eapply (home_apart (page w) who); eauto.
    rewrite <- E. apply (an_timers w Ha). exact Hin.
  - intros t text c idle H. eapply (an_copies w Ha); exact H.
  - intros tm Hin. simpl in Hin. apply filter_In in Hin as [Hin _].
    apply (an_timers w Ha). exact Hin.
Qed.

End Announced.

(** Every world the script reaches keeps the four invariants. *)
Lemma reached_announced w0 evs :
  fresh w0 -> announced (steps (main w0) evs).
Proof.
  intros Hfresh.
  set (own := fun r => owned (page w0) r = true).
  set (n := length (page w0)).
  enough (Hall : consistent (steps (main w0) evs) /\ tidy (steps (main w0) evs)
                 /\ minded own n (steps (main w0) evs)
                 /\ announced (steps (main w0) evs)) by apply Hall.
  induction evs as [|ev evs IH] using rev_ind.
  - change (steps (main w0) []) with (main w0).
    split; [apply main_consistent; exact Hfresh|].
    split; [apply main_tidy; exact Hfresh|].
    split; [apply main_minded; exact Hfresh|].
    destruct Hfresh as (Htasks & Htimers & _).
    split.
    + intros t1 k1 who1 H. unfold main in H. rewrite tasks_run, Htasks in H. discriminate.
    + intros t1 text c idle H. unfold main in H. rewrite tasks_run, Htasks in H.
      discriminate.
    + intros tm H. unfold main in H. rewrite timers_run, Htimers in H. destruct H.
  - rewrite steps_app. change (steps ?x [ev]) with (step x ev).
    destruct IH as (Hc & Hti & Hm & Ha).
    split; [apply consistent_step; exact Hc|].
    split; [apply tidy_step; exact Hti|].
    split; [apply minded_step; exact Hm|].
    destruct ev as [r|t1 o|ms]; cbn [step].
    + apply announced_click; assumption.
    + apply (announced_settle n); try assumption.
      * apply (m_length _ _ _ Hm).
      * apply (m_late _ _ _ Hm).
      * intros i x Hi Hx. apply owned_lt.
        apply (m_anchored _ _ _ Hm i x Hi); [|exact Hx].
        simpl in Hi. intros ->. destruct Hi as [E|[E|[E|[E|[E|[]]]]]]; discriminate.
    + apply announced_elapse. exact Ha.
Qed.

(** X16.  In every state the page can reach after the script has loaded,
    the button of a pending request is labelled "Processing..." (condense)
    or "Parsing..." (parse): neither the other request, nor a copy, nor a
    timer relabels it before its own request ends. *)
Theorem button_says_busy_while_pending w0 evs t k who :
  fresh w0 ->
  let w := steps (main w0) evs in
  tasks w !! t = Some (Some k) ->
  requester_at k = Some who ->
  label_at (page w) (requester_button who) = [CText (busy_label who)].
Proof.
  intros Hfresh w Ht Hk.
  apply (an_requests w (reached_announced w0 evs Hfresh) t k who Ht Hk).
Qed.

Lemma button_says_busy_while_pending_sample :
  let w := steps (main sample_blank)
             [Click 1; Click 3; Click 5; Settle 1 Written; Settle 0 (Response 200);
              Settle 2 (Response 404); Elapse 2000; Settle 2 (BodyText (lit "no"))] in
  label_at (page w) 1 = [CText (lit "Processing...")].
Proof.
  exact (button_says_busy_while_pending sample_blank
           [Click 1; Click 3; Click 5; Settle 1 Written; Settle 0 (Response 200);
            Settle 2 (Response 404); Elapse 2000; Settle 2 (BodyText (lit "no"))]
           0 (AwaitJson (Condense 1 (Some 2))) (Condense 1 (Some 2))
           sample_blank_fresh eq_refl eq_refl).
Defined.


Section Oblivious.
Context (x : ref) (f : element -> element) (Hf : forall e, elem_id (f e) = elem_id e).
Implicit Types (h : heap).

Lemma alter_swap (g : element -> element) r h :
  r <> x -> alter g r (alter f x h) = alter f x (alter g r h).
Proof.
  intros Hne. revert r x Hne. induction h as [|e h IH]; intros r y Hne; [reflexivity|].
  destruct r as [|r], y as [|y]; cbn; try reflexivity; [congruence|].
  f_equal. apply IH. congruence.
Qed.

Lemma oblivious_ret {A} (a : A) : oblivious x f (ret a).
Proof. intros h Hx He. auto. Qed.

Lemma oblivious_lift {A} (r : result A) : oblivious x f (lift r).
Proof. intros h Hx He. auto. Qed.

Lemma oblivious_update r g :
  r <> x -> (forall e, elem_id (g e) = elem_id e) -> oblivious x f (update r g).
Proof.
  intros Hne Hg h Hx He. unfold update. cbn [fst snd].
  rewrite alter_swap by exact Hne. split; [reflexivity|].
  split; [rewrite length_alter; exact Hx|].
  unfold elsewhere. rewrite find_id_alter by exact Hg. exact He.
Qed.

Lemma oblivious_bind {A B} (m : dom A) (k : A -> dom B) :
  oblivious x f m -> (forall a, oblivious x f (k a)) -> oblivious x f (bind m k).
Proof.
  intros Hm Hk h Hx He. unfold bind.
  destruct (Hm h Hx He) as (E & Hx1 & He1). rewrite E.
  destruct (m h) as [h1 [a|e]]; cbn [fst snd] in *; [|auto].
  apply Hk; assumption.
Qed.

Lemma oblivious_bind_create {B} tag (k : ref -> dom B) :
  (forall a, a <> x -> oblivious x f (k a)) ->
  oblivious x f (bind (createElement tag) k).
Proof.
  intros Hk h Hx He. unfold bind, createElement.
  rewrite length_alter, <- alter_app_l by exact Hx.
  apply Hk.
  - lia.
  - rewrite length_app. lia.
  - unfold elsewhere. intros E. apply He.
    eapply find_id_create; [|exact E]. discriminate.
Qed.

Lemma oblivious_bind_getElementById {B} (k : option ref -> dom B) :
  (forall o, o <> Some x -> oblivious x f (k o)) ->
  oblivious x f (bind (getElementById "tables-output") k).
Proof.
  intros Hk h Hx He. rewrite !bind_getElementById.
  rewrite find_id_alter by exact Hf. apply Hk; assumption.
Qed.

Lemma oblivious_bind_non_null {B} p o (k : ref -> dom B) :
  (forall r, o = Some r -> oblivious x f (k r)) ->
  oblivious x f (bind (lift (non_null p o)) k).
Proof.
  intros Hk h Hx He. destruct o as [r|]; cbn [non_null].
  - rewrite !bind_lift_ok. apply Hk; auto.
  - rewrite !bind_lift_throw. auto.
Qed.

Lemma oblivious_forEach {A} (l : list A) (g : A -> dom unit) :
  (forall a, oblivious x f (g a)) -> oblivious x f (forEach l g).
Proof.
  intros Hg. induction l as [|a l IH]; simpl.
  - apply oblivious_ret.
  - apply oblivious_bind; [apply Hg|intros _; exact IH].
Qed.

Lemma oblivious_if {A} (b : bool) (m1 m2 : dom A) :
  oblivious x f m1 -> oblivious x f m2 -> oblivious x f (if b then m1 else m2).
Proof. destruct b; auto. Qed.

Lemma oblivious_finally body handler final :
  oblivious x f body -> (forall e, oblivious x f (handler e)) -> oblivious x f final ->
  oblivious x f (try_catch_finally body handler final).
Proof.
  intros Hb Hh Hfin h Hx He. unfold try_catch_finally.
  destruct (Hb h Hx He) as (E & Hx1 & He1). rewrite E.
  destruct (body h) as [h1 [a|e]]; cbn [fst snd] in *.
  - apply Hfin; assumption.
  - destruct (Hh e h1 Hx1 He1) as (E2 & Hx2 & He2). rewrite E2.
    destruct (handler e h1) as [h2 [a|e2]]; cbn [fst snd] in *.
    + apply Hfin; assumption.
    + destruct (Hfin h2 Hx2 He2) as (E3 & Hx3 & He3). rewrite E3.
      destruct (final h2) as [h3 [a|e3]]; cbn [fst snd] in *; auto.
Qed.

End Oblivious.

Ltac oblivious_side :=
  first [ assumption | congruence | reflexivity | intros; reflexivity ].

Ltac oblivious_steps known :=
  repeat lazymatch goal with
    | |- oblivious _ _ (bind (createElement _) _) =>
        apply oblivious_bind_create; intros ? ?
    | |- oblivious _ _ (bind (getElementById _) _) =>
        apply oblivious_bind_getElementById; [assumption|intros ? ?]
    | |- oblivious _ _ (bind (lift (non_null _ _)) _) =>
        apply oblivious_bind_non_null; intros ? ?
    | |- oblivious _ _ (bind _ _) => apply oblivious_bind; [|intros ?]
    | |- oblivious _ _ (ret _) => apply oblivious_ret
    | |- oblivious _ _ (lift _) => apply oblivious_lift
    | |- oblivious _ _ (update _ _) =>
        apply oblivious_update; [oblivious_side|intros; reflexivity]
    | |- oblivious _ _ (forEach _ _) => apply oblivious_forEach; intros ?
    | |- oblivious _ _ (if _ then _ else _) => apply oblivious_if
    | |- oblivious _ _ (try_catch_finally _ _ _) =>
        apply oblivious_finally; [|intros ?|]
    | |- oblivious _ _ _ => known
    end.

Section ObliviousRender.
Context (x : ref) (f : element -> element) (Hf : forall e, elem_id (f e) = elem_id e).

Lemma oblivious_createElement tag : oblivious x f (createElement tag).
Proof.
  intros h Hx He. unfold createElement. cbn [fst snd].
  rewrite length_alter, <- alter_app_l by exact Hx. split; [reflexivity|].
  split; [rewrite length_app; lia|].
  unfold elsewhere. intros E. apply He. eapply find_id_create; [|exact E]. discriminate.
Qed.

Lemma oblivious_renderReadonlyTable t : oblivious x f (renderReadonlyTable t).
Proof. unfold renderReadonlyTable. oblivious_steps fail. Qed.

Lemma oblivious_renderTableBlock c t : c <> x -> oblivious x f (renderTableBlock c t).
Proof.
  intros Hc. unfold renderTableBlock.
  oblivious_steps ltac:(apply oblivious_renderReadonlyTable).
Qed.

Lemma oblivious_renderTables tables : oblivious x f (renderTables tables).
Proof.
  unfold renderTables.
  oblivious_steps ltac:(apply oblivious_renderTableBlock; congruence).
Qed.

End ObliviousRender.

(** * Two requests ending one after the other *)

Section Order.
Implicit Types (w : world) (h : heap).

(** What the condense handler does to the page once [postJSON] has
    settled, on a page that has the output field. *)
Lemma condense_shape w b o r :
  resume_process_article b (Some o) r w
  = with_page
      (alter (with_textContent (lit "Process")) b
         (alter (with_disabled false) b
            (alter (with_value
                      match condensed_text r with
                      | Ok s => s
                      | Throw e => lit "Error: " ++ message w e
                      end) o (page w)))) w.
Proof.
  unfold resume_process_article, run, try_catch_finally, condensed_text.
  destruct r as [v|e];
    [destruct (get v "condensed") as [c|e] eqn:Eg;
     [destruct (value_of c) as [s|e] eqn:Ec|]|];
    repeat first [ rewrite bind_lift_ok | rewrite bind_lift_throw
                 | rewrite Eg | rewrite Ec | progress cbn [non_null] ];
    unfold update, bind; reflexivity.
Qed.

Lemma postJSON_resume_who k o who p :
  postJSON_resume k o = Some (who, p) -> requester_at k = Some who.
Proof. destruct k, o; simpl; intros [=]; subst; reflexivity. Qed.

Lemma settle_advance t o w k who :
  tasks w !! t = Some (Some k) -> requester_at k = Some who ->
  settle t o w = advance t (postJSON_resume k o) w.
Proof.
  intros Ht Hk. unfold settle. rewrite Ht.
  destruct k; simpl in Hk; try discriminate; reflexivity.
Qed.

Lemma insert_swap (ts : list (option task)) t t' a b :
  t <> t' -> <[t := a]> (<[t' := b]> ts) = <[t' := b]> (<[t := a]> ts).
Proof. intros Hne. apply list_insert_insert_ne. exact Hne. Qed.


Lemma oblivious_parse x f b r (say : js_error -> jsstring) :
  (forall e, elem_id (f e) = elem_id e) -> b <> x ->
  oblivious x f
    (try_catch_finally
       (v <- lift r ;;
        tables <- lift (get v "tables") ;;
        renderTables tables)
       (fun e =>
        mount <- getElementById "tables-output" ;;
        mount <- lift (non_null "innerHTML" mount) ;;
        update mount (with_innerHTML (error_markup (say e))))
       (update b (with_disabled false) ;;;
        update b (with_textContent (lit "Parse tables"))))%dom.
Proof.
  intros Hf Hb.
  oblivious_steps ltac:(apply oblivious_renderTables; assumption).
Qed.

Lemma oblivious_chain (m : dom unit) o b g1 g2 g3 h :
  (forall e, elem_id (g1 e) = elem_id e) ->
  (forall e, elem_id (g2 e) = elem_id e) ->
  (forall e, elem_id (g3 e) = elem_id e) ->
  oblivious o g1 m -> oblivious b g2 m -> oblivious b g3 m ->
  o < length h -> b < length h ->
  elsewhere "tables-output" o h -> elsewhere "tables-output" b h ->
  m (alter g3 b (alter g2 b (alter g1 o h)))
  = (alter g3 b (alter g2 b (alter g1 o (fst (m h)))), snd (m h)).
Proof.
  intros Hg1 Hg2 Hg3 H1 H2 H3 Ho Hb Eo Eb.
  destruct (H1 h Ho Eo) as (E1 & _ & _).
  assert (Hb1 : b < length (alter g1 o h)) by (rewrite length_alter; exact Hb).
  assert (Eb1 : elsewhere "tables-output" b (alter g1 o h)).
  { unfold elsewhere. rewrite find_id_alter by exact Hg1. exact Eb. }
  destruct (H2 _ Hb1 Eb1) as (E2 & _ & _).
  assert (Hb2 : b < length (alter g2 b (alter g1 o h))) by (rewrite length_alter; exact Hb1).
  assert (Eb2 : elsewhere "tables-output" b (alter g2 b (alter g1 o h))).
  { unfold elsewhere. rewrite find_id_alter by exact Hg2. exact Eb1. }
  destruct (H3 _ Hb2 Eb2) as (E3 & _ & _).
  rewrite E3, E2, E1. reflexivity.
Qed.


(** The parse handler's last stretch and the condense handler's last stretch,
    in either order, when the buttons and the output field are three elements
    and none of them is the mount point. *)
Lemma resumes_commute w ta tb b1 o b2 rA rB :
  ta <> tb -> b2 <> b1 -> b2 <> o ->
  o < length (page w) -> b1 < length (page w) ->
  elsewhere "tables-output" o (page w) -> elsewhere "tables-output" b1 (page w) ->
  resume_parse_tables b2 rB (finish tb (resume_process_article b1 (Some o) rA (finish ta w)))
  = resume_process_article b1 (Some o) rA (finish ta (resume_parse_tables b2 rB (finish tb w))).
Proof.
  intros Hne Hb1 Hbo Ho Hb Eo Eb.
  rewrite !condense_shape.
  destruct w as [pg ts tm ck cb sn un wd].
  unfold resume_parse_tables, run, finish, with_tasks, with_page, reject, message.
  cbn [page tasks timers clock clipboard sent unhandled wording] in *.
  rewrite oblivious_chain;
    try assumption; try (intros; reflexivity);
    try (apply oblivious_parse; [intros; reflexivity|assumption]).
  match goal with |- context [fst (?m pg)] => destruct (m pg) as [h' [a|e]] end;
    cbn [fst snd page tasks timers clock clipboard sent unhandled wording];
    rewrite (insert_swap ts tb ta) by congruence; reflexivity.
Qed.

Lemma tasks_resume_parse b r w : tasks (resume_parse_tables b r w) = tasks w.
Proof. apply (tasks_resume (ParseTables b)). Qed.

Lemma resume_parse_repark b r t k w :
  resume_parse_tables b r (repark t k w) = repark t k (resume_parse_tables b r w).
Proof.
  destruct w as [pg ts tm ck cb sn un wd].
  unfold resume_parse_tables, run, repark, with_tasks, with_page, reject, message.
  cbn [page tasks timers clock clipboard sent unhandled wording].
  match goal with |- context [match ?m pg with _ => _ end] => destruct (m pg) as [h' [a|e]] end;
    reflexivity.
Qed.

Lemma resume_condense_repark b o r t k w :
  resume_process_article b (Some o) r (repark t k w)
  = repark t k (resume_process_article b (Some o) r w).
Proof. rewrite !condense_shape. destruct w; reflexivity. Qed.

End Order.

(** X17.  In every state the page can reach after the script has loaded,
    with a condense request pending whose handler found the output field and
    a parse request pending, the next settlement of the one and the next
    settlement of the other lead to the same state in either order, whatever
    the two outcomes are. *)
Theorem requests_finish_in_any_order w0 evs ta ka b1 o oa tb kb b2 ob :
  fresh w0 ->
  let w := steps (main w0) evs in
  tasks w !! ta = Some (Some ka) ->
  requester_at ka = Some (Condense b1 (Some o)) ->
  tasks w !! tb = Some (Some kb) ->
  requester_at kb = Some (ParseTables b2) ->
  steps w [Settle ta oa; Settle tb ob] = steps w [Settle tb ob; Settle ta oa].
Proof.
  intros Hfresh w Ha Hka Hb Hkb.
  pose proof (reached_announced w0 evs Hfresh) as Han. fold w in Han.
  destruct (an_requests w Han ta ka _ Ha Hka) as (HbA & HoA & _).
  destruct (an_requests w Han tb kb _ Hb Hkb) as (HbB & _ & _).
  cbn [home_id requester_button out_of] in HbA, HoA, HbB.
  specialize (HoA o eq_refl).
  assert (Hne : ta <> tb).
  { intros ->. rewrite Ha in Hb. injection Hb as ->. rewrite Hka in Hkb. discriminate. }
  assert (Hb' : tasks (settle ta oa w) !! tb = Some (Some kb))
    by (rewrite tasks_settle_other; auto).
  assert (Ha' : tasks (settle tb ob w) !! ta = Some (Some ka))
    by (rewrite tasks_settle_other; auto).
  unfold steps. cbn [fold_left step].
  rewrite (settle_advance tb ob (settle ta oa w) kb _ Hb' Hkb).
  rewrite (settle_advance ta oa (settle tb ob w) ka _ Ha' Hka).
  rewrite (settle_advance ta oa w ka _ Ha Hka).
  rewrite (settle_advance tb ob w kb _ Hb Hkb).
  destruct (postJSON_resume ka oa) as [[whoA [kA|rA]]|] eqn:EA;
    destruct (postJSON_resume kb ob) as [[whoB [kB|rB]]|] eqn:EB;
    cbn [advance]; try reflexivity;
    try (apply postJSON_resume_who in EA; rewrite Hka in EA; injection EA as <-);
    try (apply postJSON_resume_who in EB; rewrite Hkb in EB; injection EB as <-);
    cbn [resume].
  - unfold repark, with_tasks; cbn [page tasks timers clock clipboard sent unhandled wording].
    rewrite (insert_swap (tasks w) tb ta) by congruence. reflexivity.
  - replace (finish tb (repark ta kA w)) with (repark ta kA (finish tb w)).
    + apply resume_parse_repark.
    + unfold repark, finish, with_tasks;
        cbn [page tasks timers clock clipboard sent unhandled wording].
      rewrite (insert_swap (tasks w) tb ta) by congruence. reflexivity.
  - replace (finish ta (repark tb kB w)) with (repark tb kB (finish ta w)).
    + symmetry. apply resume_condense_repark.
    + unfold repark, finish, with_tasks;
        cbn [page tasks timers clock clipboard sent unhandled wording].
      rewrite (insert_swap (tasks w) tb ta) by congruence. reflexivity.
  - apply resumes_commute; try assumption.
    + eapply find_id_distinct; [|exact HbB|exact HbA]. discriminate.
    + eapply find_id_distinct; [|exact HbB|exact HoA]. discriminate.
    + eapply find_id_lt; exact HoA.
    + eapply find_id_lt; exact HbA.
    + intros E. apply (find_id_distinct "tables-output" "article-output" _ _ _
                         ltac:(discriminate) E HoA eq_refl).
    + intros E. apply (find_id_distinct "tables-output" "process-article-btn" _ _ _
                         ltac:(discriminate) E HbA eq_refl).
Qed.

Lemma requests_finish_in_any_order_sample :
  let w := steps (main sample_blank)
             [Click 1; Click 5; Settle 0 (Response 200); Settle 1 (Response 200)] in
  steps w [Settle 0 (BodyJson (VObj [(lit "condensed", VStr (lit "short"))]));
           Settle 1 (BodyJson (VObj [(lit "tables", VArr [table_T])]))]
  = steps w [Settle 1 (BodyJson (VObj [(lit "tables", VArr [table_T])]));
             Settle 0 (BodyJson (VObj [(lit "condensed", VStr (lit "short"))]))].
Proof.
  exact (requests_finish_in_any_order sample_blank
           [Click 1; Click 5; Settle 0 (Response 200); Settle 1 (Response 200)]
           0 (AwaitJson (Condense 1 (Some 2))) 1 2
           (BodyJson (VObj [(lit "condensed", VStr (lit "short"))]))
           1 (AwaitJson (ParseTables 5)) 5
           (BodyJson (VObj [(lit "tables", VArr [table_T])]))
           sample_blank_fresh eq_refl eq_refl eq_refl eq_refl).
Defined.
